(** * travetto/test : the test-execution engine, embedded and verified

    The development follows the three sources that carry the engine:

    - [Executor]         : src/service/executor.ts
                           (merge, the single-file path, the bounded dispatch loop);
    - [RunnerExecute]    : src/runner/execute.ts
                           (affixProcess, generateSuiteError, executeTest, executeSuite);
    - [ExecuteUtil]      : src/runner/execute/execute.ts
                           (checkError over shouldThrow, executeTest);
    - [TestUtil]         : the older class of that name in src/runner/execute.ts;
    - [Discovery]        : isTest and getTests, as the three files have them.

    JavaScript values that can be thrown are modelled by [Js.Val]; promises are
    modelled by their settled outcome, and the order in which concurrent
    children settle by an oracle. *)

From Stdlib Require Import ZArith Lia.
From stdpp Require Import base list gmap strings.

Local Open Scope string_scope.
Local Open Scope list_scope.
Local Open Scope nat_scope.

(** ** JavaScript values that the engine throws, catches and inspects *)
Module Js.

(** An [Error] object: [classes] is the constructor chain seen by
    [instanceof], its head being [constructor.name]. *)
Record Error := mkError {
  message : string;
  name : string;
  classes : list string;
  stack : string
}.

(** What a [catch] clause of the engine can receive. *)
Inductive Val :=
| VUndef
| VStr (s : string)
| VErr (e : Error).

(** [new Error(msg)], raised by the engine itself at [site]. *)
Definition new_Error (site msg : string) : Error :=
  {| message := msg; name := "Error"; classes := ["Error"]; stack := site |}.

(** JavaScript truthiness, as used by [if (err)] and [!err]. *)
Definition truthy (v : Val) : bool :=
  match v with
  | VUndef => false
  | VStr s => negb (String.eqb s "")
  | VErr _ => true
  end.

(** [v instanceof C]: every [Error] object is an instance of [Error]. *)
Definition instanceof (v : Val) (c : string) : bool :=
  match v with
  | VErr e => String.eqb c "Error" || bool_decide (c ∈ classes e)
  | _ => false
  end.

(** [v.constructor.name]; [undefined] has no constructor. *)
Definition constructor_name (v : Val) : option string :=
  match v with
  | VUndef => None
  | VStr _ => Some "String"
  | VErr e => Some (hd "Object" (classes e))
  end.

(** [v.message]. *)
Definition message_of (v : Val) : option string :=
  match v with
  | VErr e => Some (message e)
  | _ => None
  end.

(** [String.prototype.includes]. *)
Fixpoint includes (s sub : string) : bool :=
  if String.prefix sub s then true
  else match s with
       | EmptyString => false
       | String _ s' => includes s' sub
       end.

(** [Error.prototype.toString] and the string conversion of a template
    literal. *)
Definition toString (v : Val) : string :=
  match v with
  | VUndef => "undefined"
  | VStr s => s
  | VErr e =>
      if String.eqb (name e) "" then message e
      else if String.eqb (message e) "" then name e
      else name e +:+ ": " +:+ message e
  end.

End Js.

(** What racing an invocation against the timeout timer produces. *)
Inductive Outcome :=
| Returned
| Threw (v : Js.Val)
| TimedOut.

(** ** src/service/executor.ts *)
Module Executor.

Inductive Status := passed | failed | skipped.

Module TestConfig.
Record t := mk { class : string; method : string; description : string }.
End TestConfig.

Module TestResult.
Record t := mk {
  method : string;
  description : string;
  status : Status;
  error : option Js.Val
}.
End TestResult.

Module SuiteConfig.
Record t := mk {
  class : string;
  filename : string;
  description : string;
  tests : list TestConfig.t
}.
End SuiteConfig.

Module SuiteResult.
Record t := mk {
  passed : nat;
  failed : nat;
  skipped : nat;
  total : nat;
  file : string;
  class : string;
  description : string;
  tests : list TestResult.t
}.
End SuiteResult.

Module SuitesResult.
Record t := mk {
  passed : nat;
  failed : nat;
  skipped : nat;
  total : nat;
  suites : list SuiteResult.t
}.
End SuitesResult.

(** [{ ...BASE_COUNT, suites: [] }] *)
Definition BASE_SUITES : SuitesResult.t := SuitesResult.mk 0 0 0 0 [].

(** [static executors = os.cpus().length - 1] *)
Definition executors (cpus : nat) : Z := Z.of_nat cpus - 1.

(** [merge(dest, src)] where [src] is a [SuitesResult]: the [suites] of
    [src] are pushed onto those of [dest], the four counters are added. *)
Definition merge (dest src : SuitesResult.t) : SuitesResult.t :=
  {| SuitesResult.suites := SuitesResult.suites dest ++ SuitesResult.suites src;
     SuitesResult.failed := SuitesResult.failed dest + SuitesResult.failed src;
     SuitesResult.passed := SuitesResult.passed dest + SuitesResult.passed src;
     SuitesResult.skipped := SuitesResult.skipped dest + SuitesResult.skipped src;
     SuitesResult.total := SuitesResult.total dest + SuitesResult.total src |}.

(** [merge(dest, src)] where [src] is a single [SuiteResult] (it has no
    [suites] key): [src] itself is pushed. *)
Definition merge_suite (dest : SuitesResult.t) (src : SuiteResult.t) : SuitesResult.t :=
  {| SuitesResult.suites := SuitesResult.suites dest ++ [src];
     SuitesResult.failed := SuitesResult.failed dest + SuiteResult.failed src;
     SuitesResult.passed := SuitesResult.passed dest + SuiteResult.passed src;
     SuitesResult.skipped := SuitesResult.skipped dest + SuiteResult.skipped src;
     SuitesResult.total := SuitesResult.total dest + SuiteResult.total src |}.

(** The four counters of an aggregate, in the order
    passed, failed, skipped, total. *)
Definition counters (r : SuitesResult.t) : nat * nat * nat * nat :=
  (SuitesResult.passed r, SuitesResult.failed r,
   SuitesResult.skipped r, SuitesResult.total r).

Section Engine.

(** The mutable state of one process (suite instances, globals). *)
Variable W : Type.
(** [TestRegistry.get(cls).instance[method]()] raced against the timer. *)
Variable invoke : string -> string -> W -> Outcome * W.
(** The suites registered once a file has been [require]d. *)
Variable load : string -> list SuiteConfig.t.
(** The state in which a process starts. *)
Variable w0 : W.
(** The standard-error text of a child that exits abnormally on a file. *)
Variable crash : string -> option string.

(** [executeTest(test)]: the timer rejects with no value. *)
Definition executeTest (test : TestConfig.t) (w : W) : TestResult.t * W :=
  let '(o, w') := invoke (TestConfig.class test) (TestConfig.method test) w in
  let base := TestResult.mk (TestConfig.method test) (TestConfig.description test) in
  match o with
  | Returned => (base passed None, w')
  | Threw v => (base failed (Some v), w')
  | TimedOut => (base failed (Some Js.VUndef), w')
  end.

(** The body of the [for] loop of [executeSuite]. *)
Definition tally (result : SuiteResult.t) (ret : TestResult.t) : SuiteResult.t :=
  let counted :=
    match TestResult.status ret with
    | passed =>
        SuiteResult.mk (S (SuiteResult.passed result)) (SuiteResult.failed result)
          (SuiteResult.skipped result) (S (SuiteResult.total result))
    | failed =>
        SuiteResult.mk (SuiteResult.passed result) (S (SuiteResult.failed result))
          (SuiteResult.skipped result) (S (SuiteResult.total result))
    | skipped =>
        SuiteResult.mk (SuiteResult.passed result) (SuiteResult.failed result)
          (S (SuiteResult.skipped result)) (SuiteResult.total result)
    end in
  counted (SuiteResult.file result) (SuiteResult.class result)
    (SuiteResult.description result) (SuiteResult.tests result ++ [ret]).

Fixpoint run_tests (tests : list TestConfig.t) (result : SuiteResult.t) (w : W)
  : SuiteResult.t * W :=
  match tests with
  | [] => (result, w)
  | test :: rest =>
      let '(ret, w') := executeTest test w in
      run_tests rest (tally result ret) w'
  end.

Definition executeSuite (suite : SuiteConfig.t) (w : W) : SuiteResult.t * W :=
  run_tests (SuiteConfig.tests suite)
    (SuiteResult.mk 0 0 0 0 (SuiteConfig.filename suite) (SuiteConfig.class suite)
       (SuiteConfig.description suite) [])
    w.

Fixpoint run_suites (classes : list SuiteConfig.t) (acc : SuitesResult.t) (w : W)
  : SuitesResult.t * W :=
  match classes with
  | [] => (acc, w)
  | suite :: rest =>
      let '(result, w') := executeSuite suite w in
      run_suites rest (merge_suite acc result) w'
  end.

Definition executeFile (file : string) (w : W) : SuitesResult.t * W :=
  run_suites (load file) BASE_SUITES w.

(** A file run on its own, in a fresh process. *)
Definition isolated (file : string) : SuitesResult.t := fst (executeFile file w0).

(** [spawnFile(id, file)], settled: the child runs the file in a process of
    its own and sends its aggregate back; an exit status that is not
    clean rejects with the captured standard error. *)
Definition spawnFile (id : nat) (file : string) : nat * (SuitesResult.t + string) :=
  match crash file with
  | Some stderr => (id, inr stderr)
  | None => (id, inl (isolated file))
  end.

(** *** The dispatch loop of [exec] *)

Record Loop := mkLoop {
  position : nat;
  pending : list (nat * (SuitesResult.t + string));
  results : SuitesResult.t
}.

Inductive Step :=
| Continue (st : Loop)
| LoopDone
| Rejected (stderr : string)
| Stalled.

(** [this.pending.delete(id)] *)
Definition pending_delete (id : nat) (p : list (nat * (SuitesResult.t + string))) :=
  filter (λ e, fst e ≠ id) p.

(** One evaluation of the [while] condition and body: [files !! position]
    is defined exactly when [position < files.length]. [pick] names the
    pending entry that settles first; a race over no entry never settles. *)
Definition loop_step (bound : Z) (files : list string) (pick : list nat -> nat)
    (st : Loop) : Step :=
  match files !! position st with
  | None => LoopDone
  | Some file =>
      if (Z.of_nat (length (pending st)) <? bound)%Z then
        let next := position st in
        Continue (mkLoop (S next) (pending st ++ [spawnFile next file]) (results st))
      else
        match pending st !! (pick (pending st).*1 `mod` length (pending st)) with
        | None => Stalled
        | Some (id, inl done) =>
            Continue (mkLoop (position st) (pending_delete id (pending st))
                        (merge (results st) done))
        | Some (_, inr stderr) => Rejected stderr
        end
  end.

(** The state after [n] turns of the loop, when it is still running. *)
Fixpoint loop_after (bound : Z) (files : list string) (pick : list nat -> nat)
    (n : nat) (st : Loop) : option Loop :=
  match n with
  | 0 => Some st
  | S n' =>
      match loop_step bound files pick st with
      | Continue st' => loop_after bound files pick n' st'
      | _ => None
      end
  end.

Inductive Exec :=
| Exit (code : Z) (sent : option SuitesResult.t)
| Return (r : SuitesResult.t)
| Throw (stderr : string)
| Hang.

(** [Promise.all(this.pending.values())] followed by the final merges. *)
Fixpoint drain (p : list (nat * (SuitesResult.t + string))) (acc : SuitesResult.t)
  : SuitesResult.t :=
  match p with
  | [] => acc
  | (_, inl done) :: rest => drain rest (merge acc done)
  | (_, inr _) :: rest => drain rest acc
  end.

Definition rejections (p : list (nat * (SuitesResult.t + string))) : list string :=
  omap (λ e, match snd e with inr s => Some s | inl _ => None end) p.

Definition finish (pick : list nat -> nat) (st : Loop) : Exec :=
  match rejections (pending st) with
  | [] => Return (drain (pending st) (results st))
  | s :: rest =>
      Throw (nth (pick (pending st).*1 `mod` length (s :: rest)) (s :: rest) s)
  end.

Fixpoint run_loop (fuel : nat) (bound : Z) (files : list string)
    (pick : list nat -> nat) (st : Loop) : option Exec :=
  match fuel with
  | 0 => None
  | S fuel' =>
      match loop_step bound files pick st with
      | Continue st' => run_loop fuel' bound files pick st'
      | LoopDone => Some (finish pick st)
      | Rejected stderr => Some (Throw stderr)
      | Stalled => Some Hang
      end
  end.

(** [exec(globs)], from the discovered [files] on. [ipc] tells whether
    [process.send] exists. *)
Definition exec (fuel : nat) (cpus : nat) (ipc : bool) (pick : list nat -> nat)
    (files : list string) : option Exec :=
  match files with
  | [file] =>
      let single := isolated file in
      Some (Exit 0 (if ipc then Some single else None))
  | _ =>
      run_loop fuel (executors cpus) files pick (mkLoop 0 [] BASE_SUITES)
  end.

End Engine.

End Executor.

(** ** src/runner/execute.ts *)
Module RunnerExecute.

Inductive Status := success | fail | skip.

(** [{ start, end }] *)
Record Lines := mkLines { start : Z; stop : Z }.

(** [{ file, line }], as [AssertUtil.readFilePosition] returns it. *)
Record Position := mkPosition { at_file : string; at_line : Z }.

(** A [RegExp], by its [source] and its [test] method ([regexp_test]). *)
Record RegExp := mkRegExp { source : string; regexp_test : string -> bool }.

(** [TestConfig.shouldError]: absent, a constructor name, a pattern or a
    predicate. *)
Inductive ShouldError :=
| Absent
| TypeName (n : string)
| Pattern (r : RegExp)
| Predicate (p : Js.Val -> bool).

(** The lifecycle phases, [SuitePhase]. *)
Inductive SuitePhase := beforeAll | beforeEach | afterAll | afterEach.

Definition phase_name (p : SuitePhase) : string :=
  match p with
  | beforeAll => "beforeAll"
  | beforeEach => "beforeEach"
  | afterAll => "afterAll"
  | afterEach => "afterEach"
  end.

Module Assertion.
Record t := mk {
  file : string;
  line : Z;
  operator : string;
  text : string;
  message : option string;
  error : option Js.Val
}.
End Assertion.

Module TestConfig.
Record t := mk {
  class : string;
  className : string;
  file : string;
  lines : Lines;
  methodName : string;
  description : string;
  skip : bool;
  shouldError : ShouldError;
  timeout : option Z
}.
End TestConfig.

Module TestResult.
Record t := mk {
  status : Status;
  className : string;
  methodName : string;
  description : string;
  lines : Lines;
  file : string;
  error : option Js.Val;
  assertions : list Assertion.t;
  output : gmap string string
}.
End TestResult.

(** What a lifecycle listener, raced against the default timeout, does: it
    resolves, it throws or rejects with a value, whatever the value, or the
    timer wins. *)
Inductive Settled :=
| Resolved
| Failed (error : Js.Val)
| Expired.

Module SuiteConfig.
Record t (W : Type) := mk {
  class : string;
  className : string;
  file : string;
  lines : Lines;
  listeners : SuitePhase -> list (W -> Settled * W);
  tests : list TestConfig.t
}.
Arguments mk {W}.
Arguments class {W}.
Arguments className {W}.
Arguments file {W}.
Arguments lines {W}.
Arguments listeners {W}.
Arguments tests {W}.
End SuiteConfig.

Module SuiteResult.
Record t := mk {
  success : nat;
  fail : nat;
  skip : nat;
  total : nat;
  lines : Lines;
  file : string;
  className : string;
  tests : list TestResult.t
}.
End SuiteResult.

(** The events handed to [consumer.onEvent]. The [SuiteResult] of the
    suite-level [after] event is the object the executor goes on to mutate:
    the event carries its address. *)
Inductive Event (W : Type) :=
| SuiteBefore (suite : SuiteConfig.t W)
| SuiteAfter (result : nat)
| TestBefore (test : TestConfig.t)
| TestAfter (test : TestResult.t)
| AssertionAfter (assertion : Assertion.t).
Arguments SuiteBefore {W}.
Arguments SuiteAfter {W}.
Arguments TestBefore {W}.
Arguments TestAfter {W}.
Arguments AssertionAfter {W}.

(** One call of [consumer.onEvent]: the event, and the store of
    [SuiteResult] objects as it is while the consumer runs. *)
Record Emission (W : Type) := mkEmission {
  event : Event W;
  store : gmap nat SuiteResult.t
}.
Arguments mkEmission {W}.
Arguments event {W}.
Arguments store {W}.

(** What one test method does while [executeTest] awaits it: how the race
    against the timer settles, the assertions it makes inside the capture
    scope, the console output it leaves, and the state it leaves. *)
Record Run (W : Type) := mkRun {
  outcome : Outcome;
  asserted : list Assertion.t;
  printed : gmap string string;
  after : W
}.
Arguments mkRun {W}.
Arguments outcome {W}.
Arguments asserted {W}.
Arguments printed {W}.
Arguments after {W}.

Record State (W : Type) := mkState {
  world : W;
  heap : gmap nat SuiteResult.t;
  log : list (Emission W)
}.
Arguments mkState {W}.
Arguments world {W}.
Arguments heap {W}.
Arguments log {W}.

(** What a [throw] of the engine carries up the stack. *)
Inductive Exception :=
| BREAKOUT
| Raised (error : Js.Error).

(** [r.tests.push(res)], on the object itself. *)
Definition pushed (res : TestResult.t) (r : SuiteResult.t) : SuiteResult.t :=
  SuiteResult.mk (SuiteResult.success r) (SuiteResult.fail r) (SuiteResult.skip r)
    (SuiteResult.total r) (SuiteResult.lines r) (SuiteResult.file r)
    (SuiteResult.className r) (SuiteResult.tests r ++ [res]).

(** [r[status]++], on the object itself. *)
Definition count (status : Status) (r : SuiteResult.t) : SuiteResult.t :=
  let bump (s : Status) (n : nat) :=
    match status, s with
    | success, success | fail, fail | skip, skip => S n
    | _, _ => n
    end in
  SuiteResult.mk (bump success (SuiteResult.success r)) (bump fail (SuiteResult.fail r))
    (bump skip (SuiteResult.skip r)) (SuiteResult.total r) (SuiteResult.lines r)
    (SuiteResult.file r) (SuiteResult.className r) (SuiteResult.tests r).

(** [r.total = r.success + r.fail], on the object itself. *)
Definition set_total (r : SuiteResult.t) : SuiteResult.t :=
  SuiteResult.mk (SuiteResult.success r) (SuiteResult.fail r) (SuiteResult.skip r)
    (SuiteResult.success r + SuiteResult.fail r) (SuiteResult.lines r)
    (SuiteResult.file r) (SuiteResult.className r) (SuiteResult.tests r).


Section Engine.

Variable W : Type.
(** [TestRegistry.get(cls).instance[methodName]()], raced against a timer
    of the given duration. *)
Variable invoke : string -> string -> Z -> W -> Run W.
(** [AssertUtil.readFilePosition(err, file)] *)
Variable readFilePosition : Js.Val -> string -> Position.
(** [static timeout = parseInt(process.env.DEFAULT_TIMEOUT || '5000', 10)] *)
Variable timeout : Z.
(** The [TypeError] that the runtime raises when the property of the given
    name is read on [undefined] or [null]; its message is the runtime's
    own. *)
Variable TypeError : string -> Js.Error.

(** State and exceptions threaded through the [async] functions. *)
Definition M (A : Type) : Type := State W -> (A + Exception) * State W.

#[local] Instance M_ret : MRet M := λ A a st, (inl a, st).
#[local] Instance M_bind : MBind M := λ A B f m st,
  match m st with
  | (inl a, st') => f a st'
  | (inr e, st') => (inr e, st')
  end.

Definition throw {A} (e : Exception) : M A := λ st, (inr e, st).

Definition try_catch {A} (body : M A) (handler : Exception -> M A) : M A := λ st,
  match body st with
  | (inl a, st') => (inl a, st')
  | (inr e, st') => handler e st'
  end.

(** [consumer.onEvent(ev)] *)
Definition onEvent (ev : Event W) : M unit := λ st,
  (inl (), mkState (world st) (heap st) (log st ++ [mkEmission ev (heap st)])).

(** A fresh [SuiteResult] object. *)
Definition alloc (r : SuiteResult.t) : M nat := λ st,
  let l := fresh (dom (heap st)) in
  (inl l, mkState (world st) (<[l := r]> (heap st)) (log st)).

(** An in-place update of the [SuiteResult] at [l]. *)
Definition update (l : nat) (f : SuiteResult.t -> SuiteResult.t) : M unit := λ st,
  (inl (), mkState (world st) (alter f l (heap st)) (log st)).

(** Running user code on the process state. *)
Definition perform {A} (f : W -> A * W) : M A := λ st,
  let '(a, w) := f (world st) in (inl a, mkState w (heap st) (log st)).

(** [duration || this.timeout] in [asyncTimeout] *)
Definition asyncTimeout (duration : option Z) : Z :=
  match duration with
  | Some d => if (d =? 0)%Z then timeout else d
  | None => timeout
  end.

(** [generateSuiteError(consumer, suite, description, error)]. Its [error]
    is declared an [Error] and is what a [catch] clause received: on
    [undefined] or [null], here [Js.VUndef], the read of [error.message]
    raises a [TypeError], before anything is handed to the consumer.
    [readFilePosition] belongs to another module and is taken to return on
    every value; were it to read a property of [error] first, the same kind
    of error would leave the function at the same point. *)
Definition generateSuiteError (suite : SuiteConfig.t W) (description : string)
    (error : Js.Val) : M TestResult.t :=
  let pos := readFilePosition error (SuiteConfig.file suite) in
  match error with
  | Js.VUndef => throw (Raised (TypeError "message"))
  | _ =>
      let badAssert :=
        {| Assertion.line := at_line pos;
           Assertion.file := at_file pos;
           Assertion.error := Some error;
           Assertion.message := Js.message_of error;
           Assertion.text := "(outer)";
           Assertion.operator := "throws" |} in
      let badTest :=
        {| TestResult.status := fail;
           TestResult.className := SuiteConfig.className suite;
           TestResult.methodName := description;
           TestResult.description := description;
           TestResult.lines := mkLines (at_line pos) (at_line pos);
           TestResult.file := at_file pos;
           TestResult.error := Some error;
           TestResult.assertions := [badAssert];
           TestResult.output := ∅ |} in
      let badTestConfig :=
        {| TestConfig.class := SuiteConfig.class suite;
           TestConfig.className := TestResult.className badTest;
           TestConfig.file := TestResult.file badTest;
           TestConfig.lines := TestResult.lines badTest;
           TestConfig.methodName := TestResult.methodName badTest;
           TestConfig.description := TestResult.description badTest;
           TestConfig.skip := false;
           TestConfig.shouldError := Absent;
           TestConfig.timeout := None |} in
      onEvent (TestBefore badTestConfig);;
      onEvent (AssertionAfter badAssert);;
      onEvent (TestAfter badTest);;
      mret badTest
  end.

(** The [for] loop of [affixProcess]: the listeners run in order until one
    of them fails; [Some] is what the [catch] clause receives. *)
Fixpoint run_listeners (fns : list (W -> Settled * W)) (w : W) : option Settled * W :=
  match fns with
  | [] => (None, w)
  | fn :: rest =>
      match fn w with
      | (Resolved, w') => run_listeners rest w'
      | (failure, w') => (Some failure, w')
      end
  end.

(** [result.tests.push(res)] *)
Definition push (result : nat) (res : TestResult.t) : M unit :=
  update result (pushed res).

Definition affixProcess (phase : SuitePhase) (suite : SuiteConfig.t W) (result : nat)
  : M unit :=
  caught ← perform (run_listeners (SuiteConfig.listeners suite phase));
  match caught with
  | None | Some Resolved => mret ()
  | Some failure =>
      let error :=
        match failure with
        | Failed error => error
        | _ => Js.VErr (Js.new_Error "ExecuteUtil.affixProcess"
                          (SuiteConfig.className suite +:+ ": " +:+ phase_name phase
                             +:+ " timed out"))
        end in
      res ← generateSuiteError suite (phase_name phase) error;
      push result res;;
      throw BREAKOUT
  end.

(** [checkError(test, err)]: [inl] is the value returned, [inr] an error
    raised while checking. *)
Definition checkError (test : TestConfig.t) (err : Js.Val) : Js.Val + Js.Error :=
  let expected msg := inl (Js.VErr (Js.new_Error "ExecuteUtil.checkError" msg)) in
  match TestConfig.shouldError test with
  | Absent => inl err
  | TypeName n =>
      if String.eqb n "" then inl err
      else
        match Js.constructor_name err with
        | None => inr (TypeError "constructor")
        | Some c =>
            if String.eqb c n then inl Js.VUndef
            else expected ("Expected error to be of type " +:+ n)
        end
  | Pattern r =>
      let matching (s : string) :=
        if regexp_test r s then inl Js.VUndef
        else expected ("Expected error to match " +:+ source r) in
      match err with
      | Js.VStr s => matching s
      | Js.VErr e => matching (Js.message e)
      | Js.VUndef => inr (TypeError "message")
      end
  | Predicate p => if p err then inl Js.VUndef else inl err
  end.

(** Modelled from the spec: the capture scope of [AssertUtil], absent from
    the sources, hands the assertions made inside it to the callback given
    to [AssertUtil.start] one by one, and [AssertUtil.end] returns them in
    that order. *)
Fixpoint stream (assertions : list Assertion.t) : M unit :=
  match assertions with
  | [] => mret ()
  | a :: rest => onEvent (AssertionAfter a);; stream rest
  end.

Definition executeTest (test : TestConfig.t) : M TestResult.t :=
  onEvent (TestBefore test);;
  let result status error assertions output :=
    {| TestResult.methodName := TestConfig.methodName test;
       TestResult.description := TestConfig.description test;
       TestResult.className := TestConfig.className test;
       TestResult.lines := TestConfig.lines test;
       TestResult.file := TestConfig.file test;
       TestResult.status := status;
       TestResult.error := error;
       TestResult.assertions := assertions;
       TestResult.output := output |} in
  if TestConfig.skip test then mret (result skip None [] ∅)
  else
    run ← perform (λ w,
             let run := invoke (TestConfig.class test) (TestConfig.methodName test)
                          (asyncTimeout (TestConfig.timeout test)) w in
             (run, after run));
    stream (asserted run);;
    (* the [catch] clause *)
    err ← match outcome run with
          | Returned => mret Js.VUndef
          | TimedOut =>
              mret (Js.VErr (Js.new_Error "ExecuteUtil.executeTest" "Operation timed out"))
          | Threw v =>
              match checkError test v with
              | inl v' => mret v'
              | inr e => throw (Raised e)
              end
          end;
    let ret :=
      if Js.truthy err then
        let uncaught :=
          if Js.instanceof err "AssertionError" then []
          else
            let pos := readFilePosition err (TestConfig.file test) in
            [ {| Assertion.file := at_file pos;
                 Assertion.line := at_line pos;
                 Assertion.operator := "throws";
                 Assertion.text := "(uncaught)";
                 Assertion.error := Some err;
                 Assertion.message := Js.message_of err |} ] in
        result fail (Some err) (asserted run ++ uncaught) (printed run)
      else result success None (asserted run) (printed run) in
    onEvent (TestAfter ret);;
    mret ret.

(** The [for] loop of [executeSuite]. *)
Fixpoint run_tests (suite : SuiteConfig.t W) (tests : list TestConfig.t) (result : nat)
  : M unit :=
  match tests with
  | [] => mret ()
  | testConfig :: rest =>
      affixProcess beforeEach suite result;;
      ret ← executeTest testConfig;
      update result (count (TestResult.status ret));;
      push result ret;;
      affixProcess afterEach suite result;;
      run_tests suite rest result
  end.

(** The [try] block of [executeSuite]. *)
Definition run_suite (suite : SuiteConfig.t W) (result : nat) : M unit :=
  affixProcess beforeAll suite result;;
  run_tests suite (SuiteConfig.tests suite) result;;
  affixProcess afterAll suite result.

Definition executeSuite (suite : SuiteConfig.t W) : M nat :=
  result ← alloc (SuiteResult.mk 0 0 0 0 (SuiteConfig.lines suite)
                    (SuiteConfig.file suite) (SuiteConfig.className suite) []);
  onEvent (SuiteBefore suite);;
  try_catch (run_suite suite result)
    (λ e, match e with
          | BREAKOUT => mret ()
          | Raised error =>
              res ← generateSuiteError suite "all" (Js.VErr error);
              push result res
          end);;
  onEvent (SuiteAfter result);;
  update result set_total;;
  mret result.

(** [executeSuiteTest(consumer, suite, test)]: the result of the test is
    awaited and dropped, and the function returns nothing. *)
Definition executeSuiteTest (suite : SuiteConfig.t W) (test : TestConfig.t) : M unit :=
  result ← alloc (SuiteResult.mk 0 0 0 0 (SuiteConfig.lines suite)
                    (SuiteConfig.file suite) (SuiteConfig.className suite) []);
  try_catch
    (affixProcess beforeAll suite result;;
     affixProcess beforeEach suite result;;
     executeTest test;;
     affixProcess afterEach suite result;;
     affixProcess afterAll suite result)
    (λ e, match e with
          | BREAKOUT => mret ()
          | Raised error =>
              res ← generateSuiteError suite "all" (Js.VErr error);
              push result res
          end).

(** *** Selecting what to run *)

(** A registered class, by its [name] and its [__filename]. *)
Record Class := mkClass { name : string; filename : string }.

(** The registry once it is initialized: [TestRegistry.getClasses()] lists
    the first components, in the order of registration, and
    [TestRegistry.get] maps each of them to the second. *)
Definition Registry : Type := list (Class * SuiteConfig.t W).

(** The three shapes of what [getRunParams] returns: [[suite]],
    [[suite, test]], where [test] is what [find] returned, and [[suites]]. *)
Inductive RunParams :=
| OneSuite (suite : SuiteConfig.t W)
| SuiteAndTest (suite : SuiteConfig.t W) (test : option TestConfig.t)
| AllSuites (suites : list (SuiteConfig.t W)).

(** [/^\d+$/.test(s)] *)
Definition is_digit (c : Ascii.ascii) : bool :=
  (48 <=? Ascii.nat_of_ascii c) && (Ascii.nat_of_ascii c <=? 57).

Fixpoint all_digits (s : string) : bool :=
  match s with
  | EmptyString => true
  | String c s' => is_digit c && all_digits s'
  end.

Definition numeric (s : string) : bool := negb (String.eqb s "") && all_digits s.

(** [parseInt(s, 10)] on a string of digits, exact as long as the number
    stays below 2^53. *)
Fixpoint parse_digits (acc : Z) (s : string) : Z :=
  match s with
  | EmptyString => acc
  | String c s' => parse_digits (10 * acc + (Z.of_nat (Ascii.nat_of_ascii c) - 48)) s'
  end.

Definition parseInt (s : string) : Z := parse_digits 0 s.

(** [line >= x.lines.start && line <= x.lines.end] *)
Definition within (line : Z) (lines : Lines) : bool :=
  (start lines <=? line)%Z && (line <=? stop lines)%Z.

(** The truthiness of an optional string argument. *)
Definition given (arg : option string) : bool :=
  match arg with
  | Some s => negb (String.eqb s "")
  | None => false
  end.

(** [TestRegistry.getClasses().find(x => x.name === clsName)], followed by
    [TestRegistry.get]. *)
Definition find_class (registry : Registry) (clsName : option string)
  : option (SuiteConfig.t W) :=
  match clsName with
  | Some n => snd <$> List.find (λ entry, String.eqb (name (fst entry)) n) registry
  | None => None
  end.

(** [getRunParams(file, clsName, method)]. The result is [None] where the
    source hands [undefined] to [TestRegistry.get], that is when no class of
    the name is registered: what the registry does then is not in the
    sources. *)
Definition getRunParams (registry : Registry) (file : string)
    (clsName method : option string) : option RunParams :=
  if match clsName with Some n => numeric n | None => false end then
    let line := parseInt (default "" clsName) in
    let clses := snd <$> filter (λ entry, filename (fst entry) = file) registry in
    match List.find (λ x, within line (SuiteConfig.lines x)) clses with
    | Some cls =>
        match List.find (λ x, within line (TestConfig.lines x)) (SuiteConfig.tests cls) with
        | Some meth => Some (SuiteAndTest cls (Some meth))
        | None => Some (OneSuite cls)
        end
    | None => Some (AllSuites clses)
    end
  else if given method then
    clsConf ← find_class registry clsName;
    Some (SuiteAndTest clsConf
            (List.find (λ x, String.eqb (TestConfig.methodName x) (default "" method))
               (SuiteConfig.tests clsConf)))
  else if given clsName then
    clsConf ← find_class registry clsName;
    Some (OneSuite clsConf)
  else Some (AllSuites (snd <$> registry)).

(** [process.cwd()] *)
Variable cwd : string.
(** The registry once [file] has been [require]d and [TestRegistry.init()]
    has run. *)
Variable require : string -> Registry.

(** The first statement of [execute]: a [file] that does not start with the
    working directory is taken relative to it. *)
Definition resolve (file : string) : string :=
  if String.prefix cwd file then file else cwd +:+ "/" +:+ file.

Fixpoint run_all (suites : list (SuiteConfig.t W)) : M unit :=
  match suites with
  | [] => mret ()
  | suite :: rest => executeSuite suite;; run_all rest
  end.

(** What [execute] does with the parameters of the run. *)
Definition run_params (params : RunParams) : M unit :=
  match params with
  | AllSuites suites => run_all suites
  | SuiteAndTest suites (Some test) => executeSuiteTest suites test
  | SuiteAndTest suites None | OneSuite suites => executeSuite suites;; mret ()
  end.

(** [execute(consumer, [file, clsName, method])], [None] where
    [getRunParams] is. *)
Definition execute (file : string) (clsName method : option string) : option (M unit) :=
  let file := resolve file in
  run_params <$> getRunParams (require file) file clsName method.

End Engine.

End RunnerExecute.

(** ** src/runner/execute/execute.ts *)
Module ExecuteUtil.

Inductive Status := success | fail | skip.

Record Lines := mkLines { start : Z; stop : Z }.

Record Position := mkPosition { at_file : string; at_line : Z }.

Record RegExp := mkRegExp { source : string; regexp_test : string -> bool }.

(** [TestConfig.shouldThrow]. A function value is a [Class] when it is
    [Error], [BaseError] or not a simple function, and a [Predicate]
    otherwise; a class is known by its [name]. *)
Inductive ShouldThrow :=
| Unset
| Flag (b : bool)
| Text (s : string)
| Pattern (r : RegExp)
| Class (name : string)
| Predicate (st : Js.Val -> Js.Val).

(** [if (test.shouldThrow)] *)
Definition truthy (st : ShouldThrow) : bool :=
  match st with
  | Unset => false
  | Flag b => b
  | Text s => negb (String.eqb s "")
  | Pattern _ | Class _ | Predicate _ => true
  end.

Module Assertion.
Record t := mk {
  className : string;
  methodName : string;
  file : string;
  line : Z;
  operator : string;
  error : option Js.Val;
  message : option string;
  text : string
}.
End Assertion.

Module TestConfig.
Record t := mk {
  class : string;
  className : string;
  file : string;
  lines : Lines;
  methodName : string;
  description : string;
  skip : bool;
  shouldThrow : ShouldThrow;
  timeout : option Z
}.
End TestConfig.

Module TestResult.
Record t := mk {
  status : Status;
  className : string;
  methodName : string;
  description : string;
  lines : Lines;
  file : string;
  error : option Js.Val;
  assertions : list Assertion.t;
  output : gmap string string
}.
End TestResult.

Inductive Event :=
| TestBefore (test : TestConfig.t)
| TestAfter (test : TestResult.t)
| AssertionAfter (assertion : Assertion.t).

Record Run (W : Type) := mkRun {
  outcome : Outcome;
  asserted : list Assertion.t;
  printed : gmap string string;
  after : W
}.
Arguments mkRun {W}.
Arguments outcome {W}.
Arguments asserted {W}.
Arguments printed {W}.
Arguments after {W}.

(** The process state: the user's world, what the consumer has been handed,
    and the two capture scopes. *)
Record State (W : Type) := mkState {
  world : W;
  log : list Event;
  asserts : list Assertion.t;
  console : gmap string string
}.
Arguments mkState {W}.
Arguments world {W}.
Arguments log {W}.
Arguments asserts {W}.
Arguments console {W}.

Definition new_Error := Js.new_Error "ExecuteUtil.checkError".

(** [checkError(test, err)]: [inl] is the value returned, [inr] the error
    thrown. What the test threw is [undefined], a string or an [Error], and
    a function given as [shouldThrow] returns: the properties below are about
    these values and such functions, and none says that [checkError] throws
    in no other case. *)
Definition checkError (test : TestConfig.t) (err : Js.Val) : Js.Val + Js.Error :=
  let actual :=
    match err with
    | Js.VErr e => "'" +:+ Js.message e +:+ "'"
    | _ => if Js.truthy err then "'" +:+ Js.toString err +:+ "'" else "nothing"
    end in
  let text_of :=
    match err with
    | Js.VErr e => Js.message e
    | _ => Js.toString err
    end in
  match TestConfig.shouldThrow test with
  | Flag st =>
      if Js.truthy err && negb st then
        inr (new_Error "Expected an error to not be thrown")
      else if negb (Js.truthy err) && st then
        inr (new_Error "Expected an error to be thrown")
      else inl Js.VUndef
  | Text st =>
      if negb (Js.truthy err) || negb (Js.includes text_of st) then
        inl (Js.VErr (new_Error
               ("Expected error containing text '" +:+ st +:+ "', but got " +:+ actual)))
      else inl Js.VUndef
  | Pattern st =>
      if negb (Js.truthy err) || negb (regexp_test st text_of) then
        inl (Js.VErr (new_Error
               ("Expected error with message matching '" +:+ source st
                  +:+ "', but got " +:+ actual)))
      else inl Js.VUndef
  | Class name =>
      if negb (Js.truthy err) || negb (Js.instanceof err name) then
        inl (Js.VErr (new_Error
               ("Expected to throw " +:+ name +:+ ", but got "
                  +:+ (if Js.truthy err then Js.toString err else "nothing"))))
      else inl Js.VUndef
  | Predicate st => inl (st err)
  | Unset =>
      inr {| Js.message := "Cannot convert undefined or null to object";
             Js.name := "TypeError";
             Js.classes := ["TypeError"; "Error"];
             Js.stack := "ExecuteUtil.checkError" |}
  end.

Section Engine.

Variable W : Type.
(** [TestRegistry.get(cls).instance[methodName]()], raced against the timer
    that [asyncTimeout(test.timeout)] starts. *)
Variable invoke : string -> string -> option Z -> W -> Run W.
(** [AssertUtil.readFilePosition(err, file)] *)
Variable readFilePosition : Js.Val -> string -> Position.

Definition M (A : Type) : Type := State W -> (A + Js.Error) * State W.

#[local] Instance M_ret : MRet M := λ A a st, (inl a, st).
#[local] Instance M_bind : MBind M := λ A B f m st,
  match m st with
  | (inl a, st') => f a st'
  | (inr e, st') => (inr e, st')
  end.

Definition throw {A} (e : Js.Error) : M A := λ st, (inr e, st).

(** [try { body } finally { final }]: [final] runs whether or not [body]
    throws, and what [body] threw is thrown again after it. *)
Definition try_finally {A B} (body : M A) (final : M B) : M (A * B) := λ st,
  match body st with
  | (inl a, st') =>
      match final st' with
      | (inl b, st'') => (inl (a, b), st'')
      | (inr e, st'') => (inr e, st'')
      end
  | (inr e, st') => (inr e, snd (final st'))
  end.

Definition onEvent (ev : Event) : M unit := λ st,
  (inl (), mkState (world st) (log st ++ [ev]) (asserts st) (console st)).

(** Modelled from the spec: [AssertUtil.start], absent from the sources,
    opens the capture scope with an empty sequence; the callback it is
    given hands every assertion to the consumer. *)
Definition AssertUtil_start : M unit := λ st,
  (inl (), mkState (world st) (log st) [] (console st)).

(** Modelled from the spec: [AssertUtil.add], absent from the sources,
    appends the assertion to the sequence of the open scope and calls the
    scope's callback with it. *)
Definition AssertUtil_add (a : Assertion.t) : M unit := λ st,
  onEvent (AssertionAfter a)
    (mkState (world st) (log st) (asserts st ++ [a]) (console st)).

(** Modelled from the spec: [AssertUtil.end], absent from the sources,
    returns the accumulated sequence and clears it. *)
Definition AssertUtil_end : M (list Assertion.t) := λ st,
  (inl (asserts st), mkState (world st) (log st) [] (console st)).

(** Modelled from the spec: [ConsoleCapture.start], absent from the
    sources, redirects the console into an empty buffer. *)
Definition ConsoleCapture_start : M unit := λ st,
  (inl (), mkState (world st) (log st) (asserts st) ∅).

(** Modelled from the spec: [ConsoleCapture.end], absent from the sources,
    returns the buffered content keyed by stream name. *)
Definition ConsoleCapture_end : M (gmap string string) := λ st,
  (inl (console st), mkState (world st) (log st) (asserts st) ∅).

Fixpoint record (assertions : list Assertion.t) : M unit :=
  match assertions with
  | [] => mret ()
  | a :: rest => AssertUtil_add a;; record rest
  end.

(** [await Promise.race([suite.instance[test.methodName](), timeout])]:
    the method runs inside both scopes. *)
Definition race (test : TestConfig.t) : M Outcome := λ st,
  let run := invoke (TestConfig.class test) (TestConfig.methodName test)
               (TestConfig.timeout test) (world st) in
  match record (asserted run)
          (mkState (after run) (log st) (asserts st) (printed run)) with
  | (_, st') => (inl (outcome run), st')
  end.

(** The partial result that [executeTest] fills in. *)
Record Partial := mkPartial {
  status : Status;
  error : option Js.Val
}.

(** The first statement of the [catch] clause of [executeTest], entered
    with what the race threw, [undefined] when the method returned: the
    value that [err] takes. *)
Definition caught (test : TestConfig.t) (o : Outcome) : M Js.Val :=
  match o with
  | TimedOut =>
      mret (Js.VErr (Js.new_Error "ExecuteUtil.executeTest" "Operation timed out"))
  | Returned | Threw _ =>
      let err := match o with Threw v => v | _ => Js.VUndef end in
      if truthy (TestConfig.shouldThrow test) then
        match checkError test err with
        | inl v => mret v
        | inr e => throw e
        end
      else mret err
  end.

(** The rest of the [catch] clause: [if (!err) ... else ...]. *)
Definition settle (test : TestConfig.t) (err : Js.Val) : M Partial :=
  if negb (Js.truthy err) then mret (mkPartial success None)
  else
    (if Js.instanceof err "AssertionError" then mret ()
     else
       let line := at_line (readFilePosition err (TestConfig.file test)) in
       let line := if (line =? 1)%Z then start (TestConfig.lines test) else line in
       AssertUtil_add
         {| Assertion.className := TestConfig.className test;
            Assertion.methodName := TestConfig.methodName test;
            Assertion.file := TestConfig.file test;
            Assertion.line := line;
            Assertion.operator := "throws";
            Assertion.error := Some err;
            Assertion.message := Js.message_of err;
            Assertion.text := "(uncaught)" |});;
    mret (mkPartial fail (Some err)).

Definition catch (test : TestConfig.t) (o : Outcome) : M Partial :=
  err ← caught test o;
  settle test err.

Definition executeTest (test : TestConfig.t) : M TestResult.t :=
  onEvent (TestBefore test);;
  let result (p : Partial) assertions output :=
    {| TestResult.methodName := TestConfig.methodName test;
       TestResult.description := TestConfig.description test;
       TestResult.className := TestConfig.className test;
       TestResult.lines := TestConfig.lines test;
       TestResult.file := TestConfig.file test;
       TestResult.status := status p;
       TestResult.error := error p;
       TestResult.assertions := assertions;
       TestResult.output := output |} in
  if TestConfig.skip test then mret (result (mkPartial skip None) [] ∅)
  else
    '(p, (output, assertions)) ←
      try_finally
        (ConsoleCapture_start;; AssertUtil_start;; o ← race test; catch test o)
        (output ← ConsoleCapture_end;
         assertions ← AssertUtil_end;
         mret (output, assertions));
    onEvent (TestAfter (result p assertions output));;
    mret (result p assertions output).

End Engine.

End ExecuteUtil.

(** * Notions used to state the properties *)
Module ExecutorNotions.

Import Executor.

(** Two aggregates agree when their counters are equal and their suite
    lists hold the same entries. *)
Definition agree (a b : SuitesResult.t) : Prop :=
  counters a = counters b ∧ SuitesResult.suites a ≡ₚ SuitesResult.suites b.

(** The aggregates of the pending entries that settle with a result. *)
Definition fulfilled (p : list (nat * (SuitesResult.t + string))) : list SuitesResult.t :=
  omap (λ e, match snd e with inl r => Some r | inr _ => None end) p.

(** What is left to do in the dispatch loop. *)
Definition measure (files : list string) (st : Loop) : nat :=
  2 * (length files - position st) + length (pending st).

(** The exit status that would tell failure from success: 0 exactly when
    no test of the aggregate failed, 1 otherwise. *)
Definition reflects_failures (code : Z) (aggregate : SuitesResult.t) : Prop :=
  (code = 0%Z ↔ SuitesResult.failed aggregate = 0) ∧ (code ≠ 0%Z → code = 1%Z).

Section Dispatch.

Variable W : Type.
Variable invoke : string -> string -> W -> Outcome * W.
Variable load : string -> list SuiteConfig.t.
Variable w0 : W.

(** What the dispatch loop keeps true: every file below [position] has
    been dispatched once, under its index, and is either pending or
    merged. *)
Definition dispatch_inv (files : list string) (st : Loop) : Prop :=
  position st ≤ length files
  ∧ NoDup (pending st).*1
  ∧ (∀ id, id ∈ (pending st).*1 → id < position st)
  ∧ rejections (pending st) = []
  ∧ agree (foldl merge (results st)
             (fulfilled (pending st)
                ++ (isolated W invoke load w0 <$> drop (position st) files)))
          (foldl merge BASE_SUITES (isolated W invoke load w0 <$> files)).

End Dispatch.

End ExecutorNotions.

(** A process with two kinds of test method: those named [fails] throw, the
    others return; every file registers one suite of two tests, the second of
    which fails in [bad.ts]. *)
Module ExecutorDemo.

Import Executor.

Definition invoke (cls method : string) (w : unit) : Outcome * unit :=
  if String.eqb method "fails" then (Threw (Js.VStr "boom"), ()) else (Returned, ()).

Definition load (file : string) : list SuiteConfig.t :=
  [ SuiteConfig.mk "Suite" file ""
      [ TestConfig.mk "Suite" "passes" "";
        TestConfig.mk "Suite" (if String.eqb file "bad.ts" then "fails" else "passes") "" ] ].

Definition crash (file : string) : option string := None.

(** Two completion orders. *)
Definition first_settles (ids : list nat) : nat := 0.
Definition last_settles (ids : list nat) : nat := length ids - 1.

Definition exec := Executor.exec unit invoke load () crash.
Definition isolated := Executor.isolated unit invoke load ().

(** The counters of the aggregate that a run returns. *)
Definition returned (run : option Exec) : option (nat * nat * nat * nat) :=
  match run with
  | Some (Return r) => Some (counters r)
  | _ => None
  end.

End ExecutorDemo.

(** * Notions used to state the properties of src/runner/execute.ts *)
Module RunnerNotions.

Import RunnerExecute.

(** The tests that ran, whatever their status. *)
Definition ran (r : SuiteResult.t) : nat :=
  SuiteResult.success r + SuiteResult.fail r + SuiteResult.skip r.

(** The result object after the loop body has recorded [rets] in it. *)
Definition recorded (rets : list TestResult.t) (r : SuiteResult.t) : SuiteResult.t :=
  foldl (λ r ret, pushed ret (count (TestResult.status ret) r)) r rets.

(** The suite-level result synthesized for a failed [phase]. *)
Definition synthetic (description : string) (bad : TestResult.t) : Prop :=
  TestResult.status bad = fail
  ∧ TestResult.methodName bad = description
  ∧ ∃ a, TestResult.assertions bad = [a]
         ∧ Assertion.operator a = "throws" ∧ Assertion.text a = "(outer)".

(** The tests whose [before] event the consumer has been handed. *)
Definition started {W} (log : list (Emission W)) : list TestConfig.t :=
  omap (λ e, match event e with TestBefore t => Some t | _ => None end) log.

(** The state in which the [try] block of [executeSuite] starts: the result
    object is allocated and the suite-level [before] event emitted. *)
Definition opened {W} (suite : SuiteConfig.t W) (st : State W) : nat * State W :=
  let l := fresh (dom (heap st)) in
  let r := SuiteResult.mk 0 0 0 0 (SuiteConfig.lines suite) (SuiteConfig.file suite)
             (SuiteConfig.className suite) [] in
  let h := <[l := r]> (heap st) in
  (l, mkState (world st) h (log st ++ [mkEmission (SuiteBefore suite) h])).

(** Some listener of [phase] throws or times out, in some state. *)
Definition fails_in {W} (suite : SuiteConfig.t W) (phase : SuitePhase) : Prop :=
  ∃ w failure w',
    run_listeners W (SuiteConfig.listeners suite phase) w = (Some failure, w')
    ∧ failure ≠ Resolved.

(** The result object as [executeSuite] creates it. *)
Definition blank {W} (suite : SuiteConfig.t W) : SuiteResult.t :=
  SuiteResult.mk 0 0 0 0 (SuiteConfig.lines suite) (SuiteConfig.file suite)
    (SuiteConfig.className suite) [].

Section Run.

Variable W : Type.
Variable invoke : string -> string -> Z -> W -> Run W.
Variable readFilePosition : Js.Val -> string -> Position.
Variable timeout : Z.
Variable TypeError : string -> Js.Error.

(** [ret] is what [executeTest] returned for [test], in some state. *)
Definition returned_by (test : TestConfig.t) (ret : TestResult.t) : Prop :=
  ∃ st st', executeTest W invoke readFilePosition timeout TypeError test st = (inl ret, st').

(** *** A run in which a lifecycle listener fails *)

(** The listeners [fns], called in turn from the process state [w], all
    resolve, and leave [w']. *)
Inductive all_resolve : list (W -> Settled * W) -> W -> W -> Prop :=
| resolve_none w : all_resolve [] w w
| resolve_next fn rest w w1 w' :
    fn w = (Resolved, w1) →
    all_resolve rest w1 w' →
    all_resolve (fn :: rest) w w'.

(** Called in turn from [w], one of the listeners [fns] throws or times
    out, those before it having resolved: [failure] is how it fails, and
    [w'] what it leaves. *)
Inductive first_fails : list (W -> Settled * W) -> W -> Settled -> W -> Prop :=
| fails_here fn rest w failure w' :
    fn w = (failure, w') →
    failure ≠ Resolved →
    first_fails (fn :: rest) w failure w'
| fails_later fn rest w w1 failure w' :
    fn w = (Resolved, w1) →
    first_fails rest w1 failure w' →
    first_fails (fn :: rest) w failure w'.

(** [executeTest] returns [ret] for [test] when the process is in [w], and
    leaves it in [w'], whatever the consumer has seen and the result objects
    hold. *)
Definition test_returns (test : TestConfig.t) (w : W) (ret : TestResult.t) (w' : W)
  : Prop :=
  ∀ h l, ∃ l',
    executeTest W invoke readFilePosition timeout TypeError test (mkState w h l)
    = (inl ret, mkState w' h l').

(** From [w], the tests [tests] run one after the other, each between
    [beforeEach] and [afterEach] listeners that resolve, and return
    [rets]. *)
Inductive loop_passes (suite : SuiteConfig.t W)
  : list TestConfig.t -> W -> list TestResult.t -> W -> Prop :=
| passes_none w : loop_passes suite [] w [] w
| passes_next test rest w w1 ret w2 w3 rets w' :
    all_resolve (SuiteConfig.listeners suite beforeEach) w w1 →
    test_returns test w1 ret w2 →
    all_resolve (SuiteConfig.listeners suite afterEach) w2 w3 →
    loop_passes suite rest w3 rets w' →
    loop_passes suite (test :: rest) w (ret :: rets) w'.

(** From [w], the first tests of [tests] run in the same way and return
    [rets], until a listener of [phase], [beforeEach] or [afterEach],
    fails. *)
Inductive loop_breaks (suite : SuiteConfig.t W)
  : list TestConfig.t -> W -> SuitePhase -> list TestResult.t -> Settled -> W -> Prop :=
| breaks_before test rest w failure w' :
    first_fails (SuiteConfig.listeners suite beforeEach) w failure w' →
    loop_breaks suite (test :: rest) w beforeEach [] failure w'
| breaks_after test rest w w1 ret w2 failure w' :
    all_resolve (SuiteConfig.listeners suite beforeEach) w w1 →
    test_returns test w1 ret w2 →
    first_fails (SuiteConfig.listeners suite afterEach) w2 failure w' →
    loop_breaks suite (test :: rest) w afterEach [ret] failure w'
| breaks_next test rest w w1 ret w2 w3 phase rets failure w' :
    all_resolve (SuiteConfig.listeners suite beforeEach) w w1 →
    test_returns test w1 ret w2 →
    all_resolve (SuiteConfig.listeners suite afterEach) w2 w3 →
    loop_breaks suite rest w3 phase rets failure w' →
    loop_breaks suite (test :: rest) w phase (ret :: rets) failure w'.

(** A run of the suite from [w] in which a lifecycle listener throws or
    times out: the listeners called before it resolved and the tests run
    before it returned [rets]; the listener is one of [phase], it fails with
    [failure] and leaves the process in [w']. *)
Inductive run_breaks (suite : SuiteConfig.t W)
  : W -> SuitePhase -> list TestResult.t -> Settled -> W -> Prop :=
| breaks_before_all w failure w' :
    first_fails (SuiteConfig.listeners suite beforeAll) w failure w' →
    run_breaks suite w beforeAll [] failure w'
| breaks_in_loop w w1 phase rets failure w' :
    all_resolve (SuiteConfig.listeners suite beforeAll) w w1 →
    loop_breaks suite (SuiteConfig.tests suite) w1 phase rets failure w' →
    run_breaks suite w phase rets failure w'
| breaks_after_all w w1 rets w2 failure w' :
    all_resolve (SuiteConfig.listeners suite beforeAll) w w1 →
    loop_passes suite (SuiteConfig.tests suite) w1 rets w2 →
    first_fails (SuiteConfig.listeners suite afterAll) w2 failure w' →
    run_breaks suite w afterAll rets failure w'.

(** The listener rejected with [undefined]. *)
Definition nullish (failure : Settled) : bool :=
  match failure with
  | Failed Js.VUndef => true
  | _ => false
  end.

(** The name of the failure that [executeSuite] records for a listener of
    [phase] that fails with [failure]: on [undefined], [generateSuiteError]
    throws for the phase, and the failure is recorded by the [catch] clause
    of [executeSuite]. *)
Definition failure_name (phase : SuitePhase) (failure : Settled) : string :=
  if nullish failure then "all" else phase_name phase.

(** How the [try] block of [executeSuite] ends when it is entered in the
    state [st] with the result object [r] at [l]: [k] tests have run and
    returned [rets]; [r'] is the result object and [tests] the sequence
    of tests started when the block is left, normally, by [BREAKOUT] or
    by another error that the [catch] clause turns into a failure named
    [all]. *)
Definition ends_with (suite : SuiteConfig.t W) (how : unit + Exception)
    (k : nat) (rets : list TestResult.t) (r r' : SuiteResult.t)
    (tests : list TestConfig.t) : Prop :=
  match how with
  | inl _ =>
      k = length (SuiteConfig.tests suite)
      ∧ r' = recorded rets r
      ∧ tests = SuiteConfig.tests suite
  | inr BREAKOUT =>
      ∃ phase bad cfg,
        fails_in suite phase
        ∧ synthetic (phase_name phase) bad
        ∧ TestConfig.methodName cfg = phase_name phase
        ∧ r' = pushed bad (recorded rets r)
        ∧ tests = take k (SuiteConfig.tests suite) ++ [cfg]
  | inr (Raised _) =>
      ∃ bad cfg n,
        k ≤ n ≤ S k ∧ n ≤ length (SuiteConfig.tests suite)
        ∧ synthetic "all" bad
        ∧ TestConfig.methodName cfg = "all"
        ∧ r' = pushed bad (recorded rets r)
        ∧ tests = take n (SuiteConfig.tests suite) ++ [cfg]
  end.

End Run.

End RunnerNotions.

(** A suite whose instance counts the test methods called on it. Its
    [beforeEach] listener throws once one test has run; [broken] is the same
    suite with a [beforeAll] listener that throws. *)
Module RunnerDemo.

Import RunnerExecute.

Definition boom : Js.Error := Js.mkError "boom" "Error" ["Error"] "suite.ts:7".

Definition invoke (cls method : string) (duration : Z) (w : nat) : Run nat :=
  if String.eqb method "throws" then mkRun (Threw (Js.VErr boom)) [] ∅ (S w)
  else if String.eqb method "hangs" then mkRun TimedOut [] ∅ (S w)
  else mkRun Returned [] ∅ (S w).

Definition readFilePosition (err : Js.Val) (file : string) : Position :=
  mkPosition file 7.

Definition TypeError (property : string) : Js.Error :=
  Js.mkError ("Cannot read properties of undefined (reading '" +:+ property +:+ "')")
    "TypeError" ["TypeError"; "Error"] "suite.ts:7".

Definition test_ (method : string) (skipped : bool) : TestConfig.t :=
  TestConfig.mk "Suite" "Suite" "suite.ts" (mkLines 3 9) method method skipped Absent None.

Definition once (w : nat) : Settled * nat :=
  if (w =? 1) then (Failed (Js.VErr boom), w) else (Resolved, w).

Definition suite : SuiteConfig.t nat :=
  SuiteConfig.mk "Suite" "Suite" "suite.ts" (mkLines 1 20)
    (λ phase, match phase with beforeEach => [once] | _ => [] end)
    [test_ "passes" false; test_ "throws" false; test_ "passes" false].


Definition healthy : SuiteConfig.t nat :=
  SuiteConfig.mk "Suite" "Suite" "suite.ts" (mkLines 1 20) (λ _, [])
    [test_ "passes" false; test_ "throws" false; test_ "passes" true].

(** The suite [healthy] with an [afterEach] listener that rejects with no
    value. *)
Definition mute : SuiteConfig.t nat :=
  SuiteConfig.mk "Suite" "Suite" "suite.ts" (mkLines 1 20)
    (λ phase, match phase with afterEach => [λ w, (Failed Js.VUndef, w)] | _ => [] end)
    [test_ "passes" false; test_ "throws" false; test_ "passes" true].

Definition initial : State nat := mkState 0 ∅ [].

Definition executeSuite :=
  RunnerExecute.executeSuite nat invoke readFilePosition 5000 TypeError.

(** The result object that a run of [executeSuite] returns, read once the
    run is over. *)
Definition returned (run : (nat + Exception) * State nat) : option SuiteResult.t :=
  match run with
  | (inl l, st) => heap st !! l
  | _ => None
  end.

(** The method names of the results that a run leaves in its result
    object, and those of the tests that it started. *)
Definition recorded_names (run : (nat + Exception) * State nat) : list string :=
  match returned run with
  | Some r => TestResult.methodName <$> SuiteResult.tests r
  | None => []
  end.

Definition started_names (run : (nat + Exception) * State nat) : list string :=
  TestConfig.methodName <$> RunnerNotions.started (log (snd run)).

(** The result object as the consumer finds it when it is handed the
    suite-level [after] event. *)
Definition emitted (run : (nat + Exception) * State nat) : list (option SuiteResult.t) :=
  omap (λ e, match event e with
             | SuiteAfter l => Some (store e !! l)
             | _ => None
             end) (log (snd run)).

End RunnerDemo.

(** * Notions used to state the properties of src/runner/execute/execute.ts *)
Module ExecuteNotions.

Import ExecuteUtil.

(** [a] is the assertion that stands for the uncaught [err] of [test]:
    operator [throws], text [(uncaught)], at the line that the stack of
    [err] gives, or at the first line of the test when that line is 1. *)
Definition uncaught (readFilePosition : Js.Val -> string -> Position)
    (test : TestConfig.t) (err : Js.Val) (a : Assertion.t) : Prop :=
  Assertion.operator a = "throws"
  ∧ Assertion.text a = "(uncaught)"
  ∧ Assertion.error a = Some err
  ∧ Assertion.message a = Js.message_of err
  ∧ Assertion.file a = TestConfig.file test
  ∧ Assertion.line a
    = let line := at_line (readFilePosition err (TestConfig.file test)) in
      if (line =? 1)%Z then start (TestConfig.lines test) else line.

Section Run.

Variable W : Type.
Variable invoke : string -> string -> option Z -> W -> Run W.

(** What the method of [test] does when it is called in the state [st]. *)
Definition running (test : TestConfig.t) (st : State W) : Run W :=
  invoke (TestConfig.class test) (TestConfig.methodName test)
    (TestConfig.timeout test) (world st).

(** The state in which the [catch] clause of [executeTest] is entered. *)
Definition caught_in (test : TestConfig.t) (st : State W) : State W :=
  mkState (after (running test st))
    (log st ++ [TestBefore test] ++ (AssertionAfter <$> asserted (running test st)))
    (asserted (running test st)) (printed (running test st)).

End Run.

End ExecuteNotions.

(** A class with three test methods: [returns] returns, [throws] throws an
    [Error] whose message is [boom], [hangs] never settles. *)
Module ExecuteDemo.

Import ExecuteUtil.

Definition boom : Js.Error := Js.mkError "boom" "Error" ["Error"] "test.ts:12".

Definition invoke (cls method : string) (duration : option Z) (w : unit) : Run unit :=
  if String.eqb method "throws" then mkRun (Threw (Js.VErr boom)) [] ∅ ()
  else if String.eqb method "hangs" then mkRun TimedOut [] ∅ ()
  else mkRun Returned [] ∅ ().

(** Errors thrown by the test sit at line 12; those that the engine makes
    have no frame in the test file and resolve to line 1. *)
Definition readFilePosition (err : Js.Val) (file : string) : Position :=
  match err with
  | Js.VErr e => mkPosition file (if String.eqb (Js.stack e) "test.ts:12" then 12 else 1)
  | _ => mkPosition file 1
  end.

Definition test_ (method : string) (st : ShouldThrow) : TestConfig.t :=
  TestConfig.mk "Suite" "Suite" "test.ts" (mkLines 10 14) method method false st None.

Definition initial : State unit := mkState () [] [] ∅.

Definition executeTest (test : TestConfig.t) :=
  ExecuteUtil.executeTest unit invoke readFilePosition test initial.

(** The status and the error message of the result that a run returns, or
    the message of the error that it throws. *)
Definition verdict (run : (TestResult.t + Js.Error) * State unit)
  : (Status * option string) + string :=
  match fst run with
  | inl ret => inl (TestResult.status ret, TestResult.error ret ≫= Js.message_of)
  | inr e => inr (Js.message e)
  end.

End ExecuteDemo.

(** * Notions used to state further properties of src/service/executor.ts *)
Module ExecutorInvariants.

Import Executor.

(** The number of results of [rets] whose status is [s]. *)
Definition count_status (s : Status) (rets : list TestResult.t) : nat :=
  sum_list ((λ ret, match TestResult.status ret, s with
                    | passed, passed | failed, failed | skipped, skipped => 1
                    | _, _ => 0
                    end) <$> rets).

(** The counters of an aggregate are the sums of the counters of the suites
    that it lists, and count every test that ran as passed or failed. *)
Definition consistent (r : SuitesResult.t) : Prop :=
  counters r
  = (sum_list (SuiteResult.passed <$> SuitesResult.suites r),
     sum_list (SuiteResult.failed <$> SuitesResult.suites r),
     sum_list (SuiteResult.skipped <$> SuitesResult.suites r),
     sum_list (SuiteResult.total <$> SuitesResult.suites r))
  ∧ SuitesResult.total r = SuitesResult.passed r + SuitesResult.failed r
  ∧ SuitesResult.skipped r = 0.

(** The standard-error texts of the children that crash on one of [files]. *)
Definition crashes (crash : string -> option string) (files : list string) : list string :=
  omap crash files.

Section Crash.

Variable W : Type.
Variable invoke : string -> string -> W -> Outcome * W.
Variable load : string -> list SuiteConfig.t.
Variable w0 : W.
Variable crash : string -> option string.

(** What the dispatch loop keeps true when children may crash: the pending
    entries are the children spawned for the files below [position], under
    distinct indices, and the child of a file that crashes stays pending. *)
Definition crash_inv (files : list string) (st : Loop) : Prop :=
  position st ≤ length files
  ∧ NoDup (pending st).*1
  ∧ (∀ id, id ∈ (pending st).*1 → id < position st)
  ∧ (∀ entry, entry ∈ pending st →
       ∃ file, files !! entry.1 = Some file
               ∧ entry = spawnFile W invoke load w0 crash entry.1 file)
  ∧ (∀ id file stderr,
       files !! id = Some file → crash file = Some stderr → id < position st →
       (id, inr stderr) ∈ pending st).

End Crash.

End ExecutorInvariants.

(** * Notions used to state further properties of src/runner/execute.ts *)
Module RunnerMoreNotions.

Import RunnerExecute.

(** The number of results of [rets] whose status is [s]. *)
Definition count_status (s : Status) (rets : list TestResult.t) : nat :=
  sum_list ((λ ret, match TestResult.status ret, s with
                    | success, success | fail, fail | skip, skip => 1
                    | _, _ => 0
                    end) <$> rets).

(** The events that the consumer has been handed, in order. *)
Definition events {W} (log : list (Emission W)) : list (Event W) := event <$> log.

(** [x] is the first entry of [entries] whose lines enclose [line]. *)
Definition first_enclosing {A} (lines_of : A → Lines) (line : Z) (x : A)
    (entries : list A) : Prop :=
  ∃ before after,
    entries = before ++ x :: after
    ∧ Forall (λ y, within line (lines_of y) = false) before
    ∧ within line (lines_of x) = true.

(** The suite-level events among them: the suite of a [before] event, the
    address of the result object of an [after] event. *)
Definition suite_events {W} (log : list (Emission W)) : list (SuiteConfig.t W + nat) :=
  omap (λ e, match event e with
             | SuiteBefore suite => Some (inl suite)
             | SuiteAfter result => Some (inr result)
             | _ => None
             end) log.

Section Run.

Variable W : Type.
Variable invoke : string -> string -> Z -> W -> Run W.
Variable timeout : Z.
Variable TypeError : string -> Js.Error.

(** What the method of [test] does when it is called in the state [st]. *)
Definition running (test : TestConfig.t) (st : State W) : Run W :=
  invoke (TestConfig.class test) (TestConfig.methodName test)
    (asyncTimeout timeout (TestConfig.timeout test)) (world st).

(** The value of [err] when the [catch] clause of [executeTest] has dealt
    with what the race threw ([undefined] when the method returned), or the
    error that [checkError] raised. *)
Definition verdict (test : TestConfig.t) (o : Outcome) : Js.Val + Js.Error :=
  match o with
  | Returned => inl Js.VUndef
  | TimedOut => inl (Js.VErr (Js.new_Error "ExecuteUtil.executeTest" "Operation timed out"))
  | Threw v => checkError TypeError test v
  end.

(** A computation that hands no suite-level event to the consumer. *)
Definition quiet {A} (m : M W A) : Prop :=
  ∀ st, suite_events (log (m st).2) = suite_events (log st).




End Run.

End RunnerMoreNotions.

(** * File discovery: [isTest] and [getTests] *)

(** [isTest] is the same in src/service/executor.ts, in src/runner/execute.ts
    and in src/runner/execute/execute.ts; [getTests] is that of the first
    two. *)
Module Discovery.

(** The events of the [readline] interface that [isTest] listens to. *)
Inductive ReaderEvent :=
| Line (line : string)
| End
| Close.

(** A promise settles once: [resolve] on a settled promise does nothing.
    [None] is the pending promise. *)
Definition resolve (value : bool) (promise : option bool) : option bool :=
  match promise with
  | None => Some value
  | Some _ => promise
  end.

(** The listeners for [line], [end] and [close]. The [reader.close()] of
    the first one acts on the reader only: what the reader emits then is
    among the events. *)
Definition listen (promise : option bool) (ev : ReaderEvent) : option bool :=
  match ev with
  | Line line => if Js.includes line "@Suite" then resolve true promise else promise
  | End | Close => resolve false promise
  end.

(** [isTest(file)], on the events that the reader of [file] emits. *)
Definition isTest (events : list ReaderEvent) : option bool :=
  foldl listen None events.

Section GetTests.

(** The events that the reader of each file emits. *)
Variable read : string -> list ReaderEvent.

(** [getTests(globs)], on the files that [bulkFind(globs)] finds:
    [Promise.all] settles when every [isTest] has. *)
Definition getTests (files : list string) : option (list string) :=
  all ← mapM (λ f, (λ valid, (f, valid)) <$> isTest (read f)) files;
  Some (fst <$> filter (λ x, snd x = true) all).

End GetTests.

End Discovery.

(** [getTests] of src/runner/execute/execute.ts. *)
Module FilteredDiscovery.

Import Discovery.

(** What [bulkFind] finds: a path and whether [stats.isDirectory()]. *)
Record Found := mkFound { file : string; isDirectory : bool }.

Section GetTests.

Variable read : string -> list ReaderEvent.

Definition getTests (found : list Found) : option (list string) :=
  let files :=
    (λ f, (λ valid, (file f, valid)) <$> isTest (read (file f)))
      <$> filter (λ x, negb (Js.includes (file x) "node_modules") = true)
            (filter (λ x, negb (isDirectory x) = true) found) in
  all ← mapM id files;
  Some (fst <$> filter (λ x, snd x = true) all).

End GetTests.

End FilteredDiscovery.

(** * The class [TestUtil] of src/runner/execute.ts *)
Module TestUtil.

Import RunnerExecute(RegExp, source, regexp_test).

(** [test.shouldError]: absent, the name of a type, a pattern, or a
    function, a call of which returns, a truthy value or a falsy one, or
    throws. *)
Inductive ShouldError :=
| Absent
| TypeName (name : string)
| Pattern (r : RegExp)
| Predicate (p : Js.Val -> bool + Js.Val).

Inductive Status := passed | failed | skipped.

Module TestConfig.
Record t := mk {
  class : string;
  method : string;
  description : string;
  suiteName : string;
  skip : bool;
  shouldError : ShouldError
}.
End TestConfig.

Module TestResult.
Record t := mk {
  method : string;
  description : string;
  suiteName : string;
  status : Status;
  error : option Js.Val;
  output : gmap string string
}.
End TestResult.

Module SuiteConfig.
Record t := mk {
  class : string;
  filename : string;
  name : string;
  tests : list TestConfig.t
}.
End SuiteConfig.

Module SuiteResult.
Record t := mk {
  passed : nat;
  failed : nat;
  skipped : nat;
  total : nat;
  file : string;
  class : string;
  name : string;
  tests : list TestResult.t
}.
End SuiteResult.

(** What the emitter is handed. *)
Inductive Event :=
| TestBefore (test : TestConfig.t)
| TestAfter (test : TestResult.t)
| SuiteBefore (suite : SuiteConfig.t)
| SuiteAfter (suite : SuiteResult.t).

(** What a call of a test method does: how the race against the timer
    ends, what the method printed, and the state that it leaves. *)
Record Run (W : Type) := mkRun {
  outcome : Outcome;
  printed : gmap string string;
  after : W
}.
Arguments mkRun {W}.
Arguments outcome {W}.
Arguments printed {W}.
Arguments after {W}.

Record State (W : Type) := mkState {
  world : W;
  log : list Event
}.
Arguments mkState {W}.
Arguments world {W}.
Arguments log {W}.

Section Engine.

Variable W : Type.
(** [suite.instance[test.method]()], raced against the timer of
    [TestUtil.timeout]. *)
Variable invoke : string -> string -> W -> Run W.
(** The [TypeError] that the runtime raises when the property of the given
    name is read on [undefined]; its message is the runtime's own. *)
Variable TypeError : string -> Js.Error.
(** The suites of the classes registered once the file is loaded. *)
Variable load : string -> list SuiteConfig.t.

(** State and exceptions: anything can be thrown. *)
Definition M (A : Type) : Type := State W -> (A + Js.Val) * State W.

#[local] Instance M_ret : MRet M := λ A a st, (inl a, st).
#[local] Instance M_bind : MBind M := λ A B f m st,
  match m st with
  | (inl a, st') => f a st'
  | (inr e, st') => (inr e, st')
  end.

Definition throw {A} (e : Js.Val) : M A := λ st, (inr e, st).

(** [checkError(test, err)]: [inl] is the value returned, [inr] what is
    thrown while checking. *)
Definition checkError (test : TestConfig.t) (err : Js.Val) : Js.Val + Js.Val :=
  let expected msg := inl (Js.VErr (Js.new_Error "TestUtil.checkError" msg)) in
  match TestConfig.shouldError test with
  | Absent => inl err
  | TypeName n =>
      if String.eqb n "" then inl err
      else
        match Js.constructor_name err with
        | None => inr (Js.VErr (TypeError "constructor"))
        | Some c =>
            if String.eqb c n then inl Js.VUndef
            else expected ("Expected error to be of type " +:+ n)
        end
  | Pattern r =>
      let matching (s : string) :=
        if regexp_test r s then inl Js.VUndef
        else expected ("Expected error to match " +:+ source r) in
      match err with
      | Js.VStr s => matching s
      | Js.VErr e => matching (Js.message e)
      | Js.VUndef => inr (Js.VErr (TypeError "message"))
      end
  | Predicate p =>
      match p err with
      | inl true => inl Js.VUndef
      | inl false => inl err
      | inr thrown => inr thrown
      end
  end.

(** [if (emitter) { emitter.emit(ev) }] *)
Definition emit (emitter : bool) (ev : Event) : M unit := λ st,
  (inl (), if emitter then mkState (world st) (log st ++ [ev]) else st).

(** [executeTest(test)]. The timer rejects with no value: when it wins the
    race, [err] is [undefined] in the [catch] clause. *)
Definition executeTest (test : TestConfig.t) : M TestResult.t :=
  let result status error output :=
    {| TestResult.method := TestConfig.method test;
       TestResult.description := TestConfig.description test;
       TestResult.suiteName := TestConfig.suiteName test;
       TestResult.status := status;
       TestResult.error := error;
       TestResult.output := output |} in
  if TestConfig.skip test then mret (result skipped None ∅)
  else λ st,
    let run := invoke (TestConfig.class test) (TestConfig.method test) (world st) in
    let st' := mkState (after run) (log st) in
    match outcome run with
    | Returned => (inl (result passed None (printed run)), st')
    | thrown =>
        let err := match thrown with Threw v => v | _ => Js.VUndef end in
        match checkError test err with
        | inl err =>
            if Js.truthy err then (inl (result failed (Some err) (printed run)), st')
            else (inl (result passed None (printed run)), st')
        | inr e => (inr e, st')
        end
    end.

(** The [switch] of [executeSuite], and the [push] after it. *)
Definition tally (result : SuiteResult.t) (ret : TestResult.t) : SuiteResult.t :=
  let '(SuiteResult.mk p f s t file cls name tests) := result in
  match TestResult.status ret with
  | passed => SuiteResult.mk (p + 1) f s (t + 1) file cls name (tests ++ [ret])
  | failed => SuiteResult.mk p (f + 1) s (t + 1) file cls name (tests ++ [ret])
  | skipped => SuiteResult.mk p f (s + 1) t file cls name (tests ++ [ret])
  end.

(** The [for] loop of [executeSuite]. *)
Fixpoint run_tests (emitter : bool) (tests : list TestConfig.t) (result : SuiteResult.t)
  : M SuiteResult.t :=
  match tests with
  | [] => mret result
  | test :: rest =>
      emit emitter (TestBefore test);;
      ret ← executeTest test;
      let result := tally result ret in
      emit emitter (TestAfter ret);;
      run_tests emitter rest result
  end.

Definition executeSuite (suite : SuiteConfig.t) (emitter : bool) : M SuiteResult.t :=
  run_tests emitter (SuiteConfig.tests suite)
    (SuiteResult.mk 0 0 0 0 (SuiteConfig.filename suite) (SuiteConfig.class suite)
       (SuiteConfig.name suite) []).

(** The [for] loop of [executeFile]. *)
Fixpoint run_classes (emitter : bool) (classes : list SuiteConfig.t) : M unit :=
  match classes with
  | [] => mret ()
  | suite :: rest =>
      emit emitter (SuiteBefore suite);;
      result ← executeSuite suite emitter;
      emit emitter (SuiteAfter result);;
      run_classes emitter rest
  end.

Definition executeFile (file : string) (emitter : bool) : M unit :=
  run_classes emitter (load file).

End Engine.

End TestUtil.

(** * Notions used to state the properties of [TestUtil] *)
Module TestUtilNotions.

Import TestUtil.

(** The number of results of [rets] whose status is [s]. *)
Definition count_status (s : Status) (rets : list TestResult.t) : nat :=
  sum_list ((λ ret, match TestResult.status ret, s with
                    | passed, passed | failed, failed | skipped, skipped => 1
                    | _, _ => 0
                    end) <$> rets).

(** The events of the tests [tests] that returned [rets], in turn. *)
Definition test_events (tests : list TestConfig.t) (rets : list TestResult.t)
  : list Event :=
  mjoin (zip_with (λ test ret, [TestBefore test; TestAfter ret]) tests rets).


End TestUtilNotions.

(** * Demonstrations for the further properties *)

(** The process of [ExecutorDemo], where the child of [bad.ts] crashes. *)
Module ExecutorCrashDemo.

Definition crash (file : string) : option string :=
  if String.eqb file "bad.ts" then Some "bad.ts: out of memory" else None.

Definition exec :=
  Executor.exec unit ExecutorDemo.invoke ExecutorDemo.load () crash.

End ExecutorCrashDemo.

(** Two classes registered from two files of the working directory
    [/repo]. *)
Module RunnerSelectDemo.

Import RunnerExecute.

Definition test_ (cls file method : string) (first last : Z) : TestConfig.t :=
  TestConfig.mk cls cls file (mkLines first last) method method false Absent None.

Definition suiteA : SuiteConfig.t nat :=
  SuiteConfig.mk "A" "A" "/repo/a.ts" (mkLines 1 20) (λ _, [])
    [test_ "A" "/repo/a.ts" "one" 3 9; test_ "A" "/repo/a.ts" "two" 11 19].

Definition suiteB : SuiteConfig.t nat :=
  SuiteConfig.mk "B" "B" "/repo/b.ts" (mkLines 1 10) (λ _, [])
    [test_ "B" "/repo/b.ts" "throws" 2 8].

Definition registry : Registry nat :=
  [(mkClass "A" "/repo/a.ts", suiteA); (mkClass "B" "/repo/b.ts", suiteB)].

(** Two classes of one file whose lines overlap, the first with two tests
    whose lines overlap. *)
Definition outer : SuiteConfig.t nat :=
  SuiteConfig.mk "Outer" "Outer" "/repo/n.ts" (mkLines 1 30) (λ _, [])
    [test_ "Outer" "/repo/n.ts" "early" 2 4; test_ "Outer" "/repo/n.ts" "first" 5 15;
     test_ "Outer" "/repo/n.ts" "second" 10 20].

Definition inner : SuiteConfig.t nat :=
  SuiteConfig.mk "Inner" "Inner" "/repo/n.ts" (mkLines 8 25) (λ _, [])
    [test_ "Inner" "/repo/n.ts" "third" 9 14].

Definition overlapping : Registry nat :=
  [(mkClass "B" "/repo/b.ts", suiteB); (mkClass "Outer" "/repo/n.ts", outer);
   (mkClass "Inner" "/repo/n.ts", inner)].

Definition cwd : string := "/repo".

Definition require (file : string) : Registry nat := registry.

(** A test of [RunnerDemo] that expects an error of the given type. *)
Definition expecting (method type : string) : TestConfig.t :=
  TestConfig.mk "Suite" "Suite" "suite.ts" (mkLines 3 9) method method false
    (TypeName type) None.

End RunnerSelectDemo.

(** Two files: the reader of [a.ts] emits a line with the decorator before
    it closes, that of any other file closes without one. *)
Module DiscoveryDemo.

Import Discovery.

Definition read (file : string) : list ReaderEvent :=
  if String.eqb file "a.ts"
  then [Line "import x"; Line "@Suite()"; Close; Line "class A {}"; Close]
  else [Line "export const x = 1;"; End; Close].

End DiscoveryDemo.

(** A class with three test methods, as in [ExecuteDemo]. *)
Module TestUtilDemo.

Import TestUtil.

Definition invoke (cls method : string) (w : nat) : Run nat :=
  if String.eqb method "throws" then mkRun (Threw (Js.VStr "boom")) ∅ (S w)
  else if String.eqb method "hangs" then mkRun TimedOut ∅ (S w)
  else mkRun Returned ∅ (S w).

Definition TypeError (property : string) : Js.Error :=
  Js.mkError ("Cannot read properties of undefined (reading '" +:+ property +:+ "')")
    "TypeError" ["TypeError"; "Error"] "TestUtil.checkError".

Definition test_ (method : string) : TestConfig.t :=
  TestConfig.mk "Suite" method method "suite" false Absent.

Definition suite : SuiteConfig.t :=
  SuiteConfig.mk "Suite" "suite.ts" "suite" [test_ "returns"; test_ "throws"; test_ "hangs"].

Definition initial : State nat := mkState 0 [].

End TestUtilDemo.

(** * Properties of src/service/executor.ts *)
Section ExecutorFacts.

Import Executor ExecutorNotions.

#[local] Instance agree_equiv : Equivalence agree.
Proof.
  split.
  - intros a. by split.
  - intros a b [Hc Hs]. by split.
  - intros a b c [Hc1 Hs1] [Hc2 Hs2]. split; [congruence | by etrans].
Qed.

Lemma merge_comm_agree (a b : SuitesResult.t) : agree (merge a b) (merge b a).
Proof.
  destruct a, b. unfold agree, counters, merge. simpl. split.
  - repeat match goal with |- (_, _) = (_, _) => f_equal end; lia.
  - apply Permutation_app_comm.
Qed.

Lemma merge_assoc (a b c : SuitesResult.t) : merge (merge a b) c = merge a (merge b c).
Proof.
  destruct a, b, c. unfold merge. simpl. f_equal; try lia. by rewrite app_assoc.
Qed.

#[local] Instance merge_proper : Proper (agree ==> agree ==> agree) merge.
Proof.
  intros a a' [Ha Hsa] b b' [Hb Hsb].
  destruct a, a', b, b'. unfold agree, counters, merge in *. simpl in *.
  split.
  - injection Ha as -> -> -> ->. injection Hb as -> -> -> ->. done.
  - by apply Permutation_app.
Qed.

Lemma foldl_merge_proper (l : list SuitesResult.t) :
  ∀ a a', agree a a' → agree (foldl merge a l) (foldl merge a' l).
Proof.
  induction l as [|x l IH]; intros a a' Ha; simpl; [done|].
  apply IH. by apply merge_proper.
Qed.

Lemma merge_swap (a x y : SuitesResult.t) :
  agree (merge (merge a x) y) (merge (merge a y) x).
Proof.
  rewrite !merge_assoc. apply merge_proper; [done | apply merge_comm_agree].
Qed.

Lemma foldl_merge_perm (l l' : list SuitesResult.t) :
  l ≡ₚ l' → ∀ a, agree (foldl merge a l) (foldl merge a l').
Proof.
  induction 1 as [|x l l' _ IH|x y l|l1 l2 l3 _ IH1 _ IH2]; intros a; simpl.
  - done.
  - apply IH.
  - apply foldl_merge_proper, merge_swap.
  - etrans; [apply IH1 | apply IH2].
Qed.

(** C7: merging B into A and A into B give equal counters and suite lists
    equal as multisets; merge is associative; hence folding the per-file
    results into the aggregate in any completion order gives the same
    counters and the same multiset of suites. *)
Theorem merge_commutative_associative (a b c init : SuitesResult.t)
    (done done' : list SuitesResult.t) :
  done ≡ₚ done' →
  counters (merge a b) = counters (merge b a)
  ∧ SuitesResult.suites (merge a b) ≡ₚ SuitesResult.suites (merge b a)
  ∧ counters (merge a b)
    = (SuitesResult.passed a + SuitesResult.passed b,
       SuitesResult.failed a + SuitesResult.failed b,
       SuitesResult.skipped a + SuitesResult.skipped b,
       SuitesResult.total a + SuitesResult.total b)
  ∧ SuitesResult.suites (merge a b) = SuitesResult.suites a ++ SuitesResult.suites b
  ∧ merge (merge a b) c = merge a (merge b c)
  ∧ counters (foldl merge init done) = counters (foldl merge init done')
  ∧ SuitesResult.suites (foldl merge init done)
    ≡ₚ SuitesResult.suites (foldl merge init done').
Proof.
  intros Hperm.
  destruct (merge_comm_agree a b) as [Hc Hs].
  destruct (foldl_merge_perm _ _ Hperm init) as [Hfc Hfs].
  repeat split; try done.
  apply merge_assoc.
Qed.

Variable W : Type.
Variable invoke : string -> string -> W -> Outcome * W.
Variable load : string -> list SuiteConfig.t.
Variable w0 : W.
Variable crash : string -> option string.

#[local] Abbreviation isolated := (isolated W invoke load w0).
#[local] Abbreviation spawnFile := (spawnFile W invoke load w0 crash).
#[local] Abbreviation loop_step := (loop_step W invoke load w0 crash).
#[local] Abbreviation loop_after := (loop_after W invoke load w0 crash).
#[local] Abbreviation run_loop := (run_loop W invoke load w0 crash).
#[local] Abbreviation exec := (exec W invoke load w0 crash).
#[local] Abbreviation dispatch_inv := (dispatch_inv W invoke load w0).

Lemma pending_delete_length id (p : list (nat * (SuitesResult.t + string))) :
  length (pending_delete id p) ≤ length p.
Proof. apply length_filter. Qed.

Lemma pending_delete_absent id (p : list (nat * (SuitesResult.t + string))) :
  id ∉ p.*1 → pending_delete id p = p.
Proof.
  unfold pending_delete. induction p as [|[i x] p IH]; simpl; intros Hid; [done|].
  rewrite filter_cons. simpl.
  rewrite decide_True by (intros ->; apply Hid, elem_of_cons; by left).
  f_equal. apply IH. intros Hin. apply Hid, elem_of_cons. by right.
Qed.

Lemma pending_delete_shorter id x (p : list (nat * (SuitesResult.t + string))) :
  (id, x) ∈ p → length (pending_delete id p) < length p.
Proof.
  unfold pending_delete. induction p as [|[i y] p IH]; intros Hin.
  - by apply elem_of_nil in Hin.
  - rewrite filter_cons. simpl. destruct (decide (i ≠ id)) as [Hne|Heq].
    + simpl. apply elem_of_cons in Hin as [[=]|Hin]; [congruence|].
      specialize (IH Hin). lia.
    + pose proof (length_filter (λ e : nat * (SuitesResult.t + string), e.1 ≠ id) p).
      lia.
Qed.

Lemma fulfilled_delete (p : list (nat * (SuitesResult.t + string))) :
  ∀ i id r, NoDup p.*1 → p !! i = Some (id, inl r) →
    fulfilled p ≡ₚ r :: fulfilled (pending_delete id p).
Proof.
  induction p as [|[j x] p IH]; intros i id r Hnd Hi; [done|].
  simpl in Hnd. apply NoDup_cons in Hnd as [Hj Hnd].
  destruct i as [|i]; simpl in Hi.
  - injection Hi as -> ->. unfold pending_delete. rewrite filter_cons. simpl.
    rewrite decide_False by (intros ?; done).
    fold (pending_delete id p). by rewrite pending_delete_absent.
  - assert (id ∈ p.*1) as Hid.
    { apply list_elem_of_fmap. exists (id, inl r). split; [done|].
      by apply list_elem_of_lookup_2 in Hi. }
    assert (j ≠ id) as Hne by (intros ->; done).
    unfold pending_delete. rewrite filter_cons. simpl. rewrite decide_True by done.
    fold (pending_delete id p). specialize (IH i id r Hnd Hi).
    unfold fulfilled in *. simpl. destruct x as [rx|]; simpl.
    + rewrite IH. apply perm_swap.
    + done.
Qed.

(** *** The pending set stays within the bound *)

Lemma loop_step_bounded bound files pick st st' :
  loop_step bound files pick st = Continue st' →
  (Z.of_nat (length (pending st)) ≤ Z.max 0 bound)%Z →
  (Z.of_nat (length (pending st')) ≤ Z.max 0 bound)%Z.
Proof.
  unfold loop_step. intros Hstep Hle.
  destruct (files !! position st) as [file|]; [|done].
  destruct (Z.of_nat (length (pending st)) <? bound)%Z eqn:Hlt.
  - injection Hstep as <-. simpl.
    rewrite length_app. simpl. apply Z.ltb_lt in Hlt. lia.
  - destruct (pending st !! _) as [[id [r|e]]|]; try done.
    injection Hstep as <-. simpl.
    pose proof (pending_delete_length id (pending st)). lia.
Qed.

(** However many steps the dispatch loop takes and whichever child settles
    first, the number of children in flight stays within the number of
    executors: a loop that starts within the bound never has more than
    [executors] pending entries. *)
Lemma pending_within_bound bound files pick n :
  ∀ st st', loop_after bound files pick n st = Some st' →
    (Z.of_nat (length (pending st)) ≤ Z.max 0 bound)%Z →
    (Z.of_nat (length (pending st')) ≤ Z.max 0 bound)%Z.
Proof.
  induction n as [|n IH]; simpl; intros st st' Hrun Hle.
  - by injection Hrun as <-.
  - destruct (loop_step bound files pick st) as [st1| | |] eqn:Hstep; try done.
    eapply IH; [done|]. by eapply loop_step_bounded.
Qed.

(** *** The dispatch loop ends, and merges every file once *)

Lemma rejections_none_lookup (p : list (nat * (SuitesResult.t + string))) i id e :
  rejections p = [] → p !! i = Some (id, inr e) → False.
Proof.
  intros Hr Hi. apply list_elem_of_lookup_2 in Hi.
  assert (e ∈ rejections p) as He.
  { apply list_elem_of_omap. by exists (id, inr e). }
  rewrite Hr in He. by apply elem_of_nil in He.
Qed.

Lemma rejections_delete id (p : list (nat * (SuitesResult.t + string))) :
  rejections p = [] → rejections (pending_delete id p) = [].
Proof.
  unfold pending_delete, rejections.
  induction p as [|[j [r|e]] p IH]; simpl; intros Hr; try done.
  rewrite filter_cons. destruct (decide _); simpl; by apply IH.
Qed.

Lemma drain_fulfilled (p : list (nat * (SuitesResult.t + string))) :
  ∀ acc, drain p acc = foldl merge acc (fulfilled p).
Proof.
  induction p as [|[j [r|e]] p IH]; intros acc; simpl; [done| |]; apply IH.
Qed.

Lemma loop_step_progress bound files pick st :
  (1 ≤ bound)%Z →
  (∀ file, file ∈ files → crash file = None) →
  dispatch_inv files st →
  (loop_step bound files pick st = LoopDone ∧ position st = length files)
  ∨ ∃ st', loop_step bound files pick st = Continue st'
           ∧ dispatch_inv files st' ∧ measure files st' < measure files st.
Proof.
  intros Hbound Hcrash (Hpos & Hnd & Hids & Hrej & Hagree). unfold loop_step.
  destruct (files !! position st) as [file|] eqn:Hfile;
    [|left; split; [done|apply lookup_ge_None in Hfile; lia]].
  pose proof (lookup_lt_Some _ _ _ Hfile) as Hlt.
  right. destruct (Z.ltb_spec (Z.of_nat (length (pending st))) bound) as [Hroom|Hfull].
  - eexists. split; [done|].
    assert (spawnFile (position st) file = (position st, inl (isolated file))) as ->.
    { unfold Executor.spawnFile. rewrite Hcrash; [done|].
      by apply list_elem_of_lookup_2 in Hfile. }
    unfold dispatch_inv, measure. simpl. rewrite fmap_app, length_app. simpl.
    split_and!.
    + lia.
    + apply NoDup_app. split_and!; [done| |apply NoDup_singleton].
      intros id Hid ->%list_elem_of_singleton. specialize (Hids _ Hid). lia.
    + intros id [Hid| ->%list_elem_of_singleton]%elem_of_app; [|lia].
      specialize (Hids _ Hid). lia.
    + unfold rejections in *. rewrite omap_app, Hrej. done.
    + rewrite (drop_S _ _ _ Hfile) in Hagree. unfold fulfilled in *.
      rewrite omap_app. simpl. by rewrite <- app_assoc.
    + lia.
  - assert (0 < length (pending st)) as Hlen by lia.
    pose proof (Nat.mod_upper_bound (pick (pending st).*1) (length (pending st))) as Hi.
    destruct (lookup_lt_is_Some_2 (pending st) _ (Hi ltac:(lia))) as [[id [r|e]] Hentry];
      rewrite Hentry; [|by destruct (rejections_none_lookup _ _ _ _ Hrej Hentry)].
    eexists. split; [done|]. unfold dispatch_inv, measure. simpl. split_and!.
    + done.
    + eapply sublist_NoDup; [exact Hnd|]. apply fmap_sublist, sublist_filter.
    + intros i (e & -> & [_ He]%list_elem_of_filter)%list_elem_of_fmap.
      apply Hids, list_elem_of_fmap. by exists e.
    + by apply rejections_delete.
    + destruct Hagree as [Hc Hs].
      pose proof (fulfilled_delete _ _ _ _ Hnd Hentry) as Hperm.
      assert (agree (foldl merge (merge (results st) r)
                       (fulfilled (pending_delete id (pending st))
                          ++ (isolated <$> drop (position st) files)))
                    (foldl merge (results st)
                       (fulfilled (pending st)
                          ++ (isolated <$> drop (position st) files)))) as [Hc' Hs'].
      { symmetry. change (foldl merge (merge (results st) r) ?l)
          with (foldl merge (results st) (r :: l)).
        apply foldl_merge_perm. by rewrite Hperm. }
      split; [congruence | by etrans].
    + apply list_elem_of_lookup_2 in Hentry.
      pose proof (pending_delete_shorter _ _ _ Hentry). lia.
Qed.

Lemma run_loop_returns bound files pick :
  (1 ≤ bound)%Z →
  (∀ file, file ∈ files → crash file = None) →
  ∀ fuel st, dispatch_inv files st → measure files st < fuel →
    ∃ r, run_loop fuel bound files pick st = Some (Return r)
         ∧ agree r (foldl merge BASE_SUITES (isolated <$> files)).
Proof.
  intros Hbound Hcrash. induction fuel as [|fuel IH]; intros st Hinv Hfuel; [lia|].
  simpl. destruct (loop_step_progress bound files pick st Hbound Hcrash Hinv)
    as [[-> Hend]|(st' & -> & Hinv' & Hless)].
  - destruct Hinv as (_ & _ & _ & Hrej & Hagree).
    unfold finish. rewrite Hrej. eexists. split; [done|].
    rewrite drain_fulfilled. rewrite Hend, drop_all in Hagree.
    simpl in Hagree. by rewrite app_nil_r in Hagree.
  - apply IH; [done | lia].
Qed.

(** The counters of a fold of merges are the sums of the counters. *)
Lemma foldl_merge_counters (l : list SuitesResult.t) :
  ∀ a, counters (foldl merge a l)
       = (SuitesResult.passed a + sum_list (SuitesResult.passed <$> l),
          SuitesResult.failed a + sum_list (SuitesResult.failed <$> l),
          SuitesResult.skipped a + sum_list (SuitesResult.skipped <$> l),
          SuitesResult.total a + sum_list (SuitesResult.total <$> l)).
Proof.
  induction l as [|x l IH]; intros a; simpl.
  - unfold counters. by rewrite !Nat.add_0_r.
  - rewrite IH. unfold merge. simpl. by rewrite !Nat.add_assoc.
Qed.

Lemma foldl_merge_suites (l : list SuitesResult.t) :
  ∀ a, SuitesResult.suites (foldl merge a l)
       = SuitesResult.suites a ++ mjoin (SuitesResult.suites <$> l).
Proof.
  induction l as [|x l IH]; intros a; simpl.
  - by rewrite app_nil_r.
  - rewrite IH. simpl. by rewrite app_assoc.
Qed.

(** With at least two processors, the dispatch of a list of several files,
    none of whose children crashes, returns whatever the completion order;
    the counters of the aggregate are the sums, over the files, of the
    counters of each file run on its own, and its suites are theirs. *)
Lemma dispatch_aggregate cpus ipc pick (files : list string) :
  2 ≤ cpus →
  length files ≠ 1 →
  (∀ file, file ∈ files → crash file = None) →
  ∃ r, exec (2 * length files + 1) cpus ipc pick files = Some (Return r)
       ∧ counters r
         = (sum_list (SuitesResult.passed ∘ isolated <$> files),
            sum_list (SuitesResult.failed ∘ isolated <$> files),
            sum_list (SuitesResult.skipped ∘ isolated <$> files),
            sum_list (SuitesResult.total ∘ isolated <$> files))
       ∧ SuitesResult.suites r ≡ₚ mjoin (SuitesResult.suites ∘ isolated <$> files).
Proof.
  intros Hcpus Hmany Hcrash.
  assert (exec (2 * length files + 1) cpus ipc pick files
          = run_loop (2 * length files + 1) (executors cpus) files pick
              (mkLoop 0 [] BASE_SUITES)) as ->.
  { unfold Executor.exec. by destruct files as [|? [|? ?]]. }
  destruct (run_loop_returns (executors cpus) files pick ltac:(unfold executors; lia)
              Hcrash (2 * length files + 1) (mkLoop 0 [] BASE_SUITES))
    as (r & Hrun & Hc & Hs).
  - unfold dispatch_inv. simpl. split_and!; try done; try lia.
    + apply NoDup_nil_2.
    + intros id Hid. by apply elem_of_nil in Hid.
  - unfold measure. simpl. lia.
  - exists r. split; [done|]. split.
    + rewrite Hc, foldl_merge_counters. simpl. by rewrite !list_fmap_compose.
    + rewrite Hs, foldl_merge_suites. simpl. by rewrite list_fmap_compose.
Qed.

(** *** One processor: no worker at all *)

(** C5, on the code: with one processor [executors] is 0, not 1, and the
    dispatch of two files or more stalls at once: no file is dispatched
    and the loop waits for the first of no pending entry. *)
Theorem single_processor_dispatch_stalls fuel ipc pick (f1 f2 : string) (rest : list string) :
  executors 1 = 0%Z
  ∧ loop_step (executors 1) (f1 :: f2 :: rest) pick (mkLoop 0 [] BASE_SUITES) = Stalled
  ∧ exec (S fuel) 1 ipc pick (f1 :: f2 :: rest) = Some Hang.
Proof. done. Qed.

(** *** The exit status *)

Lemma run_loop_never_exits bound files pick fuel :
  ∀ st code sent, run_loop fuel bound files pick st ≠ Some (Exit code sent).
Proof.
  induction fuel as [|fuel IH]; intros st code sent; simpl; [done|].
  destruct (loop_step bound files pick st); try done.
  unfold finish. by destruct (rejections (pending st)).
Qed.

(** C6, as the code has it: the single-file path always exits with status
    0, after sending the file's aggregate when there is a channel to the
    parent, whatever the number of failed tests. The path of the other file
    lists never exits the process and sets no exit status; with at least two
    processors and no child that crashes, it returns to its caller the merge
    of the aggregates of the files, whatever the completion order. *)
Theorem single_file_exits_with_zero fuel cpus ipc pick (files : list string) :
  match files with
  | [file] =>
      exec fuel cpus ipc pick files
      = Some (Exit 0 (if ipc then Some (isolated file) else None))
  | _ =>
      (∀ code sent, exec fuel cpus ipc pick files ≠ Some (Exit code sent))
      ∧ (2 ≤ cpus →
         (∀ file, file ∈ files → crash file = None) →
         ∃ r, exec (2 * length files + 1) cpus ipc pick files = Some (Return r)
              ∧ agree r (foldl merge BASE_SUITES (isolated <$> files)))
  end.
Proof.
  assert (length files ≠ 1 →
          (∀ code sent, exec fuel cpus ipc pick files ≠ Some (Exit code sent))
          ∧ (2 ≤ cpus →
             (∀ file, file ∈ files → crash file = None) →
             ∃ r, exec (2 * length files + 1) cpus ipc pick files = Some (Return r)
                  ∧ agree r (foldl merge BASE_SUITES (isolated <$> files)))) as Hmany.
  { intros Hlen.
    assert (∀ n, exec n cpus ipc pick files
                 = run_loop n (executors cpus) files pick (mkLoop 0 [] BASE_SUITES)) as Hexec.
    { intros n. unfold Executor.exec. by destruct files as [|? [|? ?]]. }
    split.
    - intros code sent. rewrite Hexec. apply run_loop_never_exits.
    - intros Hcpus Hcrash. rewrite Hexec.
      apply run_loop_returns; [unfold executors; lia|done| |unfold measure; simpl; lia].
      unfold dispatch_inv. simpl. split_and!; try done; try lia.
      + apply NoDup_nil_2.
      + intros id Hid. by apply elem_of_nil in Hid. }
  destruct files as [|f1 [|f2 rest]]; [by apply Hmany|done|by apply Hmany].
Qed.

End ExecutorFacts.

(** Five files on three processors, that is with a bound of 2. Whether the
    oldest or the youngest pending child settles first, the loop returns the
    sums of the five files' counters. *)
Example dispatch_five_files_bound_two :
  let files := ["a.ts"; "bad.ts"; "c.ts"; "d.ts"; "e.ts"] in
  Executor.executors 3 = 2%Z
  ∧ ExecutorDemo.returned (ExecutorDemo.exec 11 3 false ExecutorDemo.first_settles files)
    = Some (9, 1, 0, 10)
  ∧ ExecutorDemo.returned (ExecutorDemo.exec 11 3 false ExecutorDemo.last_settles files)
    = Some (9, 1, 0, 10).
Proof. vm_compute. done. Qed.

(** Counterexample to C6 as stated: the single file [bad.ts] has a failed test, and
    the process exits with status 0. *)
Lemma exit_status_counterexample :
  ExecutorDemo.exec 0 4 true ExecutorDemo.first_settles ["bad.ts"]
  = Some (Executor.Exit 0 (Some (ExecutorDemo.isolated "bad.ts")))
  ∧ Executor.SuitesResult.failed (ExecutorDemo.isolated "bad.ts") = 1
  ∧ ¬ ExecutorNotions.reflects_failures 0 (ExecutorDemo.isolated "bad.ts").
Proof.
  split_and!; [done | done |].
  intros [[Hzero _] _]. specialize (Hzero eq_refl). vm_compute in Hzero. done.
Qed.

(** Witness for C6: two files on three processors, one with a failed test:
    the aggregate is returned, and the process does not exit. *)
Lemma single_file_exits_with_zero_witness :
  let files := ["a.ts"; "bad.ts"] in
  ∃ r,
    ExecutorDemo.exec (2 * length files + 1) 3 false ExecutorDemo.last_settles files
    = Some (Executor.Return r)
    ∧ ExecutorNotions.agree r
        (foldl Executor.merge Executor.BASE_SUITES (ExecutorDemo.isolated <$> files)).
Proof.
  intros files.
  refine (proj2 (single_file_exits_with_zero unit ExecutorDemo.invoke ExecutorDemo.load ()
                   ExecutorDemo.crash 0 3 false ExecutorDemo.last_settles files) _ _);
    [lia | reflexivity].
Defined.

(** Witness for C7: two aggregates, merged in both orders. *)
Lemma merge_commutative_associative_witness :
  let a := ExecutorDemo.isolated "a.ts" in
  let b := ExecutorDemo.isolated "bad.ts" in
  [a; b] ≡ₚ [b; a]
  ∧ Executor.counters (foldl Executor.merge Executor.BASE_SUITES [a; b])
    = Executor.counters (foldl Executor.merge Executor.BASE_SUITES [b; a]).
Proof.
  intros a b. split; [apply perm_swap|].
  apply (merge_commutative_associative a b a Executor.BASE_SUITES [a; b] [b; a]
           (perm_swap b a [])).
Defined.

(** * Properties of src/runner/execute.ts *)
Section RunnerFacts.

Import RunnerExecute RunnerNotions.

Variable W : Type.
Variable invoke : string -> string -> Z -> W -> Run W.
Variable readFilePosition : Js.Val -> string -> Position.
Variable timeout : Z.
Variable TypeError : string -> Js.Error.

#[local] Existing Instances RunnerExecute.M_ret RunnerExecute.M_bind.

#[local] Abbreviation generateSuiteError :=
  (generateSuiteError W readFilePosition TypeError).
#[local] Abbreviation affixProcess := (affixProcess W readFilePosition TypeError).
#[local] Abbreviation checkError := (checkError TypeError).
#[local] Abbreviation executeTest :=
  (executeTest W invoke readFilePosition timeout TypeError).
#[local] Abbreviation run_tests := (run_tests W invoke readFilePosition timeout TypeError).
#[local] Abbreviation run_suite := (run_suite W invoke readFilePosition timeout TypeError).
#[local] Abbreviation executeSuite :=
  (executeSuite W invoke readFilePosition timeout TypeError).
#[local] Abbreviation returned_by :=
  (returned_by W invoke readFilePosition timeout TypeError).
#[local] Abbreviation test_returns :=
  (test_returns W invoke readFilePosition timeout TypeError).
#[local] Abbreviation loop_passes :=
  (loop_passes W invoke readFilePosition timeout TypeError).
#[local] Abbreviation loop_breaks :=
  (loop_breaks W invoke readFilePosition timeout TypeError).
#[local] Abbreviation run_breaks :=
  (run_breaks W invoke readFilePosition timeout TypeError).

Lemma bind_run {A B} (m : M W A) (f : A → M W B) (st : State W) :
  (m ≫= f) st
  = match m st with
    | (inl a, st') => f a st'
    | (inr e, st') => (inr e, st')
    end.
Proof. done. Qed.

Lemma started_app (l1 l2 : list (Emission W)) :
  started (l1 ++ l2) = started l1 ++ started l2.
Proof. apply omap_app. Qed.

(** *** The result object under the loop body *)

Lemma count_ran status r : ran (count status r) = S (ran r).
Proof. unfold ran. destruct status; simpl; lia. Qed.

Lemma recorded_ran rets : ∀ r, ran (recorded rets r) = ran r + length rets.
Proof.
  induction rets as [|ret rets IH]; intros r; simpl; [lia|].
  rewrite IH. change (ran (pushed ret ?x)) with (ran x). rewrite count_ran. lia.
Qed.

Lemma recorded_total rets : ∀ r, SuiteResult.total (recorded rets r) = SuiteResult.total r.
Proof. induction rets as [|ret rets IH]; intros r; simpl; [done|]. by rewrite IH. Qed.

Lemma recorded_tests rets :
  ∀ r, SuiteResult.tests (recorded rets r) = SuiteResult.tests r ++ rets.
Proof.
  induction rets as [|ret rets IH]; intros r; simpl; [by rewrite app_nil_r|].
  rewrite IH. simpl. by rewrite <- app_assoc.
Qed.

(** *** The steps of a suite run *)

Lemma generateSuiteError_spec suite description error st :
  error ≠ Js.VUndef →
  ∃ bad cfg st',
    generateSuiteError suite description error st = (inl bad, st')
    ∧ synthetic description bad
    ∧ TestConfig.methodName cfg = description
    ∧ heap st' = heap st
    ∧ started (log st') = started (log st) ++ [cfg]
    ∧ world st' = world st.
Proof.
  intros Herror. unfold RunnerExecute.generateSuiteError.
  destruct error as [|s|e]; [done|..].
  all: rewrite !bind_run; simpl.
  all: eexists _, (TestConfig.mk _ _ _ _ description _ _ _ _), _.
  all: split; [done|]; split_and!; try done.
  all: try (split_and!; [done..|]; eexists; by split_and!).
  all: simpl; rewrite !started_app; simpl; by rewrite <- !app_assoc.
Qed.

Lemma generateSuiteError_undefined suite description st :
  generateSuiteError suite description Js.VUndef st
  = (inr (Raised (TypeError "message")), st).
Proof. done. Qed.

Lemma affixProcess_spec phase suite l st r :
  heap st !! l = Some r →
  match affixProcess phase suite l st with
  | (inl _, st') => heap st' = heap st ∧ started (log st') = started (log st)
  | (inr BREAKOUT, st') =>
      ∃ bad cfg, fails_in suite phase
                 ∧ synthetic (phase_name phase) bad
                 ∧ TestConfig.methodName cfg = phase_name phase
                 ∧ heap st' !! l = Some (pushed bad r)
                 ∧ started (log st') = started (log st) ++ [cfg]
  | (inr (Raised _), st') => heap st' = heap st ∧ started (log st') = started (log st)
  end.
Proof.
  intros Hl. unfold RunnerExecute.affixProcess. rewrite bind_run.
  unfold perform. destruct (run_listeners W _ (world st)) as [caught w'] eqn:Hrun.
  destruct caught as [[|error|]|]; try done.
  all: assert (fails_in suite phase) as Hfails by (by eexists _, _, _).
  all: rewrite bind_run.
  1: destruct error as [|s|e]; [by rewrite generateSuiteError_undefined|..].
  all: match goal with
       | |- context [generateSuiteError ?s ?d ?e ?st0] =>
           destruct (generateSuiteError_spec s d e st0 ltac:(done))
             as (bad & cfg & st' & -> & Hbad & Hcfg & Hheap & Hlog & _)
       end.
  all: rewrite bind_run; simpl; exists bad, cfg; split_and!; try done.
  all: rewrite Hheap; simpl; by rewrite lookup_alter_eq, Hl.
Qed.

Lemma stream_spec assertions :
  ∀ st, ∃ st', stream W assertions st = (inl (), st')
               ∧ heap st' = heap st ∧ started (log st') = started (log st).
Proof.
  induction assertions as [|a rest IH]; intros st; simpl.
  - by exists st.
  - rewrite bind_run. simpl. destruct (IH (mkState (world st) (heap st)
      (log st ++ [mkEmission (AssertionAfter a) (heap st)]))) as (st' & -> & Hh & Hl).
    exists st'. split_and!; [done..|].
    rewrite Hl. simpl. rewrite started_app. simpl. by rewrite app_nil_r.
Qed.

Lemma executeTest_spec test st :
  match executeTest test st with
  | (res, st') =>
      heap st' = heap st
      ∧ started (log st') = started (log st) ++ [test]
      ∧ res ≠ inr BREAKOUT
  end.
Proof.
  unfold RunnerExecute.executeTest. rewrite bind_run. simpl.
  destruct (TestConfig.skip test).
  { simpl. split_and!; [done| |done]. by rewrite started_app. }
  rewrite bind_run. unfold perform. simpl. rewrite bind_run.
  match goal with
  | |- context [stream W ?a ?st0] =>
      destruct (stream_spec a st0) as (st1 & -> & Hh & Hl)
  end.
  simpl in Hh, Hl. rewrite started_app in Hl. simpl in Hl.
  rewrite bind_run.
  destruct (outcome _) as [|v|]; simpl.
  - by rewrite started_app, Hh, Hl, app_nil_r.
  - destruct (checkError test v) as [v'|e]; simpl.
    + by rewrite started_app, Hh, Hl, app_nil_r.
    + by rewrite Hh, Hl.
  - by rewrite started_app, Hh, Hl, app_nil_r.
Qed.

(** A test that loses the race against its timeout fails with the error
    [Operation timed out], whatever its [shouldError]. *)
Lemma executeTest_timed_out test st :
  TestConfig.skip test = false →
  outcome (invoke (TestConfig.class test) (TestConfig.methodName test)
             (asyncTimeout timeout (TestConfig.timeout test)) (world st)) = TimedOut →
  ∃ ret st',
    executeTest test st = (inl ret, st')
    ∧ TestResult.status ret = fail
    ∧ TestResult.error ret
      = Some (Js.VErr (Js.new_Error "ExecuteUtil.executeTest" "Operation timed out")).
Proof.
  intros Hskip Hout. unfold RunnerExecute.executeTest. rewrite bind_run. simpl.
  rewrite Hskip, bind_run. unfold perform. simpl. rewrite bind_run.
  match goal with
  | |- context [stream W ?a ?st0] =>
      destruct (stream_spec a st0) as (st1 & -> & _ & _)
  end.
  rewrite bind_run, Hout. simpl. by eexists _, _.
Qed.

Lemma run_tests_spec suite l tests :
  ∀ st r, heap st !! l = Some r →
    ∃ k rets,
      k ≤ length tests ∧ length rets = k ∧ Forall2 returned_by (take k tests) rets
      ∧ match run_tests suite tests l st with
        | (inl _, st') =>
            k = length tests
            ∧ heap st' !! l = Some (recorded rets r)
            ∧ started (log st') = started (log st) ++ tests
        | (inr BREAKOUT, st') =>
            ∃ phase bad cfg,
              fails_in suite phase
              ∧ synthetic (phase_name phase) bad
              ∧ TestConfig.methodName cfg = phase_name phase
              ∧ heap st' !! l = Some (pushed bad (recorded rets r))
              ∧ started (log st') = started (log st) ++ take k tests ++ [cfg]
        | (inr (Raised _), st') =>
            ∃ n, k ≤ n ≤ S k ∧ n ≤ length tests
                 ∧ heap st' !! l = Some (recorded rets r)
                 ∧ started (log st') = started (log st) ++ take n tests
        end.
Proof.
  induction tests as [|test rest IH]; intros st r Hl.
  { exists 0, []. simpl. split_and!; try done. by rewrite app_nil_r. }
  change (run_tests suite (test :: rest) l)
    with (affixProcess beforeEach suite l;;
          ret ← executeTest test;
          update W l (count (TestResult.status ret));;
          push W l ret;;
          affixProcess afterEach suite l;;
          run_tests suite rest l).
  rewrite bind_run.
  pose proof (affixProcess_spec beforeEach suite l st r Hl) as Hbefore.
  destruct (affixProcess beforeEach suite l st) as [[[]|[|e]] st1].
  2:{ destruct Hbefore as (bad & cfg & Hfails & Hbad & Hcfg & Hcell & Hlog).
      exists 0, []. simpl. split_and!; [lia|done|constructor|].
      by exists beforeEach, bad, cfg. }
  2:{ destruct Hbefore as [Hh1 Hl1]. exists 0, []. simpl.
      split_and!; [lia|done|constructor|]. exists 0. simpl.
      split_and!; [lia..|by rewrite Hh1|by rewrite Hl1, app_nil_r]. }
  destruct Hbefore as [Hh1 Hl1]. rewrite bind_run.
  pose proof (executeTest_spec test st1) as Htest.
  destruct (executeTest test st1) as [[ret|e] st2] eqn:Hrun;
    destruct Htest as (Hh2 & Hl2 & Hne).
  2:{ destruct e as [|e]; [done|]. exists 0, []. simpl.
      split_and!; [lia|done|constructor|]. exists 1. simpl.
      split_and!; [lia..| |].
      - by rewrite Hh2, Hh1.
      - by rewrite Hl2, Hl1. }
  rewrite bind_run. simpl. rewrite bind_run. simpl. rewrite bind_run.
  set (st3 := mkState _ _ _).
  assert (heap st3 !! l = Some (recorded [ret] r)) as Hcell3.
  { simpl. rewrite !lookup_alter_eq, Hh2, Hh1, Hl. done. }
  assert (started (log st3) = started (log st) ++ [test]) as Hl3.
  { simpl. by rewrite Hl2, Hl1. }
  pose proof (affixProcess_spec afterEach suite l st3 _ Hcell3) as Hafter.
  destruct (affixProcess afterEach suite l st3) as [[[]|[|e]] st4].
  2:{ destruct Hafter as (bad & cfg & Hfails & Hbad & Hcfg & Hcell & Hlog).
      exists 1, [ret]. simpl. split_and!; [lia|done| |].
      - constructor; [by eexists _, _|constructor].
      - exists afterEach, bad, cfg. split_and!; [done..|].
        rewrite Hlog, Hl3. by rewrite <- app_assoc. }
  2:{ destruct Hafter as [Hh4 Hl4]. exists 1, [ret]. simpl.
      split_and!; [lia|done| |].
      - constructor; [by eexists _, _|constructor].
      - exists 1. simpl. split_and!; [lia..|by rewrite Hh4|by rewrite Hl4, Hl3]. }
  destruct Hafter as [Hh4 Hl4].
  assert (heap st4 !! l = Some (recorded [ret] r)) as Hcell4 by by rewrite Hh4.
  destruct (IH st4 _ Hcell4) as (k & rets & Hk & Hlen & Hrets & Hrun').
  exists (S k), (ret :: rets). simpl. split_and!; [lia|by rewrite Hlen| |].
  { constructor; [by eexists _, _|done]. }
  assert (started (log st4) = started (log st) ++ [test]) as Hl4'.
  { by rewrite Hl4, Hl3. }
  destruct (run_tests suite rest l st4) as [[[]|[|e]] st5].
  - destruct Hrun' as (-> & Hcell & Hlog). split_and!; [done..|].
    rewrite Hlog, Hl4'. by rewrite <- app_assoc.
  - destruct Hrun' as (phase & bad & cfg & Hfails & Hbad & Hcfg & Hcell & Hlog).
    exists phase, bad, cfg. split_and!; [done..|].
    rewrite Hlog, Hl4'. by rewrite <- !app_assoc.
  - destruct Hrun' as (n & Hn & Hn' & Hcell & Hlog). exists (S n). simpl.
    split_and!; [lia..|done|].
    rewrite Hlog, Hl4'. by rewrite <- app_assoc.
Qed.

Lemma run_suite_spec suite l st r :
  heap st !! l = Some r →
  ∃ k rets,
    k ≤ length (SuiteConfig.tests suite) ∧ length rets = k
    ∧ Forall2 returned_by (take k (SuiteConfig.tests suite)) rets
    ∧ match run_suite suite l st with
      | (inl _, st') =>
          k = length (SuiteConfig.tests suite)
          ∧ heap st' !! l = Some (recorded rets r)
          ∧ started (log st') = started (log st) ++ SuiteConfig.tests suite
      | (inr BREAKOUT, st') =>
          ∃ phase bad cfg,
            fails_in suite phase
            ∧ synthetic (phase_name phase) bad
            ∧ TestConfig.methodName cfg = phase_name phase
            ∧ heap st' !! l = Some (pushed bad (recorded rets r))
            ∧ started (log st')
              = started (log st) ++ take k (SuiteConfig.tests suite) ++ [cfg]
      | (inr (Raised _), st') =>
          ∃ n, k ≤ n ≤ S k ∧ n ≤ length (SuiteConfig.tests suite)
               ∧ heap st' !! l = Some (recorded rets r)
               ∧ started (log st') = started (log st) ++ take n (SuiteConfig.tests suite)
      end.
Proof.
  intros Hl. unfold RunnerExecute.run_suite. rewrite bind_run.
  pose proof (affixProcess_spec beforeAll suite l st r Hl) as Hbefore.
  destruct (affixProcess beforeAll suite l st) as [[[]|[|e]] st1].
  2:{ destruct Hbefore as (bad & cfg & Hfails & Hbad & Hcfg & Hcell & Hlog).
      exists 0, []. simpl. split_and!; [lia|done|constructor|].
      by exists beforeAll, bad, cfg. }
  2:{ destruct Hbefore as [Hh1 Hl1]. exists 0, []. simpl.
      split_and!; [lia|done|constructor|]. exists 0. simpl.
      split_and!; [lia..|by rewrite Hh1|by rewrite Hl1, app_nil_r]. }
  destruct Hbefore as [Hh1 Hl1]. rewrite bind_run.
  assert (heap st1 !! l = Some r) as Hcell1 by by rewrite Hh1.
  destruct (run_tests_spec suite l (SuiteConfig.tests suite) st1 r Hcell1)
    as (k & rets & Hk & Hlen & Hrets & Hrun).
  exists k, rets. split_and!; [done..|].
  rewrite Hl1 in Hrun.
  destruct (run_tests suite (SuiteConfig.tests suite) l st1) as [[[]|[|e]] st2]; [|done..].
  destruct Hrun as (-> & Hcell2 & Hlog2).
  pose proof (affixProcess_spec afterAll suite l st2 _ Hcell2) as Hafter.
  destruct (affixProcess afterAll suite l st2) as [[[]|[|e]] st3].
  - destruct Hafter as [Hh3 Hl3]. by rewrite Hh3, Hl3.
  - destruct Hafter as (bad & cfg & Hfails & Hbad & Hcfg & Hcell & Hlog).
    exists afterAll, bad, cfg. split_and!; [done..|].
    by rewrite Hlog, Hlog2, firstn_all, <- app_assoc.
  - destruct Hafter as [Hh3 Hl3]. exists (length (SuiteConfig.tests suite)).
    split_and!; [lia..|by rewrite Hh3|by rewrite Hl3, Hlog2, firstn_all].
Qed.

Lemma opened_cell (suite : SuiteConfig.t W) (st : State W) :
  heap (opened suite st).2 !! (opened suite st).1 = Some (blank suite).
Proof. simpl. apply lookup_insert_eq. Qed.

Lemma opened_started (suite : SuiteConfig.t W) (st : State W) :
  started (log (opened suite st).2) = started (log st).
Proof. simpl. rewrite started_app. simpl. apply app_nil_r. Qed.

(** What a run of [executeSuite] does, in one statement: it returns the
    address of the result object; the consumer is handed the suite-level
    [after] event last, while the object is [r]; the object is then given its
    [total]. *)
Lemma executeSuite_spec suite st :
  let l := (opened suite st).1 in
  let st0 := (opened suite st).2 in
  ∃ st' k rets r pre h tests,
    executeSuite suite st = (inl l, st')
    ∧ k ≤ length (SuiteConfig.tests suite) ∧ length rets = k
    ∧ Forall2 returned_by (take k (SuiteConfig.tests suite)) rets
    ∧ ends_with W suite (run_suite suite l st0).1 k rets (blank suite) r tests
    ∧ log st' = pre ++ [mkEmission (SuiteAfter l) h]
    ∧ h !! l = Some r
    ∧ heap st' !! l = Some (set_total r)
    ∧ started (log st') = started (log st) ++ tests.
Proof.
  intros l st0.
  assert (executeSuite suite st
          = (try_catch W (run_suite suite l)
               (λ e, match e with
                     | BREAKOUT => mret ()
                     | Raised error =>
                         res ← generateSuiteError suite "all" (Js.VErr error);
                         push W l res
                     end);;
             onEvent W (SuiteAfter l);;
             update W l set_total;;
             mret l) st0) as ->by done.
  rewrite bind_run. unfold try_catch.
  destruct (run_suite_spec suite l st0 _ (opened_cell suite st))
    as (k & rets & Hk & Hlen & Hrets & Hrun).
  pose proof (opened_started suite st) as Hopen. fold st0 in Hopen.
  rewrite Hopen in Hrun. clear Hopen.
  destruct (run_suite suite l st0) as [[[]|[|e]] st1]; simpl fst.
  - destruct Hrun as (-> & Hcell & Hlog). rewrite !bind_run. simpl.
    eexists _, _, rets, _, _, _, _. split; [done|]. simpl.
    split_and!; [done..|by rewrite lookup_alter_eq, Hcell|].
    rewrite started_app, Hlog. simpl. by rewrite app_nil_r.
  - destruct Hrun as (phase & bad & cfg & Hfails & Hbad & Hcfg & Hcell & Hlog).
    simpl. rewrite ?bind_run. simpl.
    eexists _, k, rets, _, _, _, _. split; [done|]. simpl.
    split_and!; [done..|by exists phase, bad, cfg|done|done| |].
    + by rewrite lookup_alter_eq, Hcell.
    + rewrite started_app, Hlog. simpl. by rewrite app_nil_r.
  - destruct Hrun as (n & Hn & Hn' & Hcell & Hlog). rewrite !bind_run.
    destruct (generateSuiteError_spec suite "all" (Js.VErr e) st1 ltac:(done))
      as (bad & cfg & st2 & -> & Hbad & Hcfg & Hheap & Hlog2 & _).
    simpl.
    eexists _, k, rets, _, _, _, _. split; [done|]. simpl.
    split_and!; [done..|by exists bad, cfg, n| done | | |].
    + rewrite Hheap. by rewrite lookup_alter_eq, Hcell.
    + rewrite lookup_alter_eq, Hheap, lookup_alter_eq, Hcell. done.
    + rewrite started_app, Hlog2, Hlog. simpl. by rewrite app_nil_r, <- app_assoc.
Qed.

Lemma ends_with_total suite how k rets r tests :
  ends_with W suite how k rets (blank suite) r tests →
  SuiteResult.total r = 0 ∧ ran r = length rets
  ∧ ∃ extra, SuiteResult.tests r = rets ++ extra ∧ length extra ≤ 1.
Proof.
  destruct how as [[]|[|e]]; simpl.
  - intros (_ & -> & _). rewrite recorded_total, recorded_ran, recorded_tests.
    split_and!; [done|done|]. exists []. simpl. split; [by rewrite app_nil_r|lia].
  - intros (phase & bad & cfg & _ & _ & _ & -> & _).
    change (ran (pushed bad ?x)) with (ran x). simpl.
    rewrite recorded_total, recorded_ran, recorded_tests.
    split_and!; [done|done|]. exists [bad]. simpl. split; [done|lia].
  - intros (bad & cfg & n & _ & _ & _ & _ & -> & _).
    change (ran (pushed bad ?x)) with (ran x). simpl.
    rewrite recorded_total, recorded_ran, recorded_tests.
    split_and!; [done|done|]. exists [bad]. simpl. split; [done|lia].
Qed.


(** *** A listener that fails *)

Lemma run_listeners_resolve fns w w' :
  all_resolve W fns w w' → run_listeners W fns w = (None, w').
Proof. induction 1 as [|fn rest w w1 w' Hfn _ IH]; simpl; [done|]. by rewrite Hfn. Qed.

Lemma run_listeners_fail fns w failure w' :
  first_fails W fns w failure w' → run_listeners W fns w = (Some failure, w').
Proof.
  induction 1 as [fn rest w failure w' Hfn Hfailure|fn rest w w1 failure w' Hfn _ IH]; simpl.
  - rewrite Hfn. by destruct failure.
  - by rewrite Hfn.
Qed.

Lemma first_fails_not_resolved fns w failure w' :
  first_fails W fns w failure w' → failure ≠ Resolved.
Proof. by induction 1. Qed.

Lemma affixProcess_resolves phase suite l st w' :
  all_resolve W (SuiteConfig.listeners suite phase) (world st) w' →
  affixProcess phase suite l st = (inl (), mkState w' (heap st) (log st)).
Proof.
  intros Hresolve. unfold RunnerExecute.affixProcess. rewrite bind_run. unfold perform.
  by rewrite (run_listeners_resolve _ _ _ Hresolve).
Qed.

(** What [affixProcess] does when a listener of the phase fails: the
    failure named after the phase is pushed and [BREAKOUT] thrown, unless the
    listener failed with [undefined], where an error other than [BREAKOUT]
    is thrown and nothing is pushed. No listener is called after the one
    that fails. *)
Lemma affixProcess_fails phase suite l st r failure w' :
  first_fails W (SuiteConfig.listeners suite phase) (world st) failure w' →
  heap st !! l = Some r →
  ∃ res st',
    affixProcess phase suite l st = (inr res, st')
    ∧ world st' = w'
    ∧ if nullish failure
      then (∃ e, res = Raised e)
           ∧ heap st' = heap st ∧ started (log st') = started (log st)
      else ∃ bad cfg,
             res = BREAKOUT
             ∧ synthetic (phase_name phase) bad
             ∧ TestConfig.methodName cfg = phase_name phase
             ∧ heap st' !! l = Some (pushed bad r)
             ∧ started (log st') = started (log st) ++ [cfg].
Proof.
  intros Hfails Hl. pose proof (first_fails_not_resolved _ _ _ _ Hfails) as Hfailure.
  unfold RunnerExecute.affixProcess. rewrite bind_run. unfold perform.
  rewrite (run_listeners_fail _ _ _ _ Hfails).
  destruct failure as [|[|s|e]|]; [done|..]; rewrite bind_run.
  { rewrite generateSuiteError_undefined. eexists _, _. split; [done|].
    simpl. split_and!; try done. by eexists. }
  all: match goal with
       | |- context [generateSuiteError ?s ?d ?e ?st0] =>
           destruct (generateSuiteError_spec s d e st0 ltac:(done))
             as (bad & cfg & st' & -> & Hbad & Hcfg & Hheap & Hlog & Hworld)
       end.
  all: rewrite bind_run; simpl; eexists _, _; (split; [done|]); simpl.
  all: split; [done|].
  all: exists bad, cfg; split_and!; try done.
  all: by rewrite Hheap; simpl; rewrite lookup_alter_eq, Hl.
Qed.

Lemma test_returns_run suite l test rest st r w1 ret w2 :
  world st = w1 →
  heap st !! l = Some r →
  test_returns test w1 ret w2 →
  ∃ st2,
    (ret ← executeTest test;
     update W l (count (TestResult.status ret));;
     push W l ret;;
     affixProcess afterEach suite l;;
     run_tests suite rest l) st
    = (affixProcess afterEach suite l;; run_tests suite rest l) st2
    ∧ world st2 = w2
    ∧ heap st2 !! l = Some (recorded [ret] r)
    ∧ started (log st2) = started (log st) ++ [test].
Proof.
  intros Hworld Hl Hreturns.
  destruct (Hreturns (heap st) (log st)) as [l' Hrun].
  assert (mkState w1 (heap st) (log st) = st) as Hst by (destruct st; simpl in *; by subst).
  rewrite Hst in Hrun.
  pose proof (executeTest_spec test st) as Hspec. rewrite Hrun in Hspec.
  destruct Hspec as (_ & Hlog & _). simpl in Hlog.
  rewrite bind_run, Hrun. rewrite bind_run. simpl. rewrite bind_run. simpl.
  eexists. split; [done|]. simpl. split_and!; [done| |done].
  by rewrite !lookup_alter_eq, Hl.
Qed.

Lemma run_tests_passes suite l tests w rets w' :
  loop_passes suite tests w rets w' →
  ∀ st r, world st = w → heap st !! l = Some r →
    ∃ st',
      run_tests suite tests l st = (inl (), st')
      ∧ world st' = w'
      ∧ length rets = length tests
      ∧ heap st' !! l = Some (recorded rets r)
      ∧ started (log st') = started (log st) ++ tests.
Proof.
  induction 1 as [w|test rest w w1 ret w2 w3 rets w' Hbefore Htest Hafter _ IH];
    intros st r Hworld Hl.
  - exists st. simpl. split_and!; try done. by rewrite app_nil_r.
  - change (run_tests suite (test :: rest) l)
      with (affixProcess beforeEach suite l;;
            ret ← executeTest test;
            update W l (count (TestResult.status ret));;
            push W l ret;;
            affixProcess afterEach suite l;;
            run_tests suite rest l).
    rewrite bind_run. rewrite <- Hworld in Hbefore.
    rewrite (affixProcess_resolves _ _ _ _ _ Hbefore).
    destruct (test_returns_run suite l test rest (mkState w1 (heap st) (log st)) r
                w1 ret w2 eq_refl Hl Htest) as (st2 & -> & Hw2 & Hcell2 & Hlog2).
    rewrite bind_run. rewrite <- Hw2 in Hafter.
    rewrite (affixProcess_resolves _ _ _ _ _ Hafter).
    destruct (IH (mkState w3 (heap st2) (log st2)) _ eq_refl Hcell2)
      as (st' & -> & Hw' & Hlen & Hcell & Hlog).
    exists st'. split_and!; [done..|simpl; lia|done|].
    rewrite Hlog. simpl. rewrite Hlog2. simpl. by rewrite <- app_assoc.
Qed.

Lemma run_tests_breaks suite l tests w phase rets failure w' :
  loop_breaks suite tests w phase rets failure w' →
  ∀ st r, world st = w → heap st !! l = Some r →
    ∃ res st',
      run_tests suite tests l st = (inr res, st')
      ∧ world st' = w'
      ∧ length rets ≤ length tests
      ∧ if nullish failure
        then (∃ e, res = Raised e)
             ∧ heap st' !! l = Some (recorded rets r)
             ∧ started (log st') = started (log st) ++ take (length rets) tests
        else ∃ bad cfg,
               res = BREAKOUT
               ∧ synthetic (phase_name phase) bad
               ∧ TestConfig.methodName cfg = phase_name phase
               ∧ heap st' !! l = Some (pushed bad (recorded rets r))
               ∧ started (log st')
                 = started (log st) ++ take (length rets) tests ++ [cfg].
Proof.
  induction 1 as [test rest w failure w' Hfails
                 |test rest w w1 ret w2 failure w' Hbefore Htest Hfails
                 |test rest w w1 ret w2 w3 phase rets failure w' Hbefore Htest Hafter _ IH];
    intros st r Hworld Hl.
  all: change (run_tests suite (test :: rest) l)
         with (affixProcess beforeEach suite l;;
               ret ← executeTest test;
               update W l (count (TestResult.status ret));;
               push W l ret;;
               affixProcess afterEach suite l;;
               run_tests suite rest l).
  all: rewrite bind_run.
  - rewrite <- Hworld in Hfails.
    destruct (affixProcess_fails beforeEach suite l st r failure w' Hfails Hl)
      as (res & st' & -> & Hw' & Hres).
    exists res, st'. split_and!; [done..|simpl; lia|].
    destruct (nullish failure).
    + destruct Hres as (Hraised & Hheap & Hlog). split_and!; [done| |].
      * by rewrite Hheap.
      * by rewrite Hlog, app_nil_r.
    + done.
  - rewrite <- Hworld in Hbefore. rewrite (affixProcess_resolves _ _ _ _ _ Hbefore).
    destruct (test_returns_run suite l test rest (mkState w1 (heap st) (log st)) r
                w1 ret w2 eq_refl Hl Htest) as (st2 & -> & Hw2 & Hcell2 & Hlog2).
    rewrite bind_run. rewrite <- Hw2 in Hfails.
    destruct (affixProcess_fails afterEach suite l st2 _ failure w' Hfails Hcell2)
      as (res & st' & -> & Hw' & Hres).
    exists res, st'. split_and!; [done..|simpl; lia|].
    destruct (nullish failure).
    + destruct Hres as (Hraised & Hheap & Hlog). split_and!; [done| |].
      * by rewrite Hheap.
      * by rewrite Hlog, Hlog2.
    + destruct Hres as (bad & cfg & -> & Hbad & Hcfg & Hcell & Hlog).
      exists bad, cfg. split_and!; [done..|].
      rewrite Hlog, Hlog2. simpl. by rewrite <- app_assoc.
  - rewrite <- Hworld in Hbefore. rewrite (affixProcess_resolves _ _ _ _ _ Hbefore).
    destruct (test_returns_run suite l test rest (mkState w1 (heap st) (log st)) r
                w1 ret w2 eq_refl Hl Htest) as (st2 & -> & Hw2 & Hcell2 & Hlog2).
    rewrite bind_run. rewrite <- Hw2 in Hafter.
    rewrite (affixProcess_resolves _ _ _ _ _ Hafter).
    destruct (IH (mkState w3 (heap st2) (log st2)) _ eq_refl Hcell2)
      as (res & st' & -> & Hw' & Hlen & Hres).
    exists res, st'. split_and!; [done..|simpl; lia|].
    simpl in Hres. rewrite Hlog2 in Hres.
    destruct (nullish failure).
    + destruct Hres as (Hraised & Hcell & Hlog). split_and!; [done..|].
      rewrite Hlog. simpl. by rewrite <- app_assoc.
    + destruct Hres as (bad & cfg & -> & Hbad & Hcfg & Hcell & Hlog).
      exists bad, cfg. split_and!; [done..|].
      rewrite Hlog. simpl. by rewrite <- !app_assoc.
Qed.

Lemma run_suite_breaks suite l st r phase rets failure w' :
  run_breaks suite (world st) phase rets failure w' →
  heap st !! l = Some r →
  ∃ res st',
    run_suite suite l st = (inr res, st')
    ∧ world st' = w'
    ∧ length rets ≤ length (SuiteConfig.tests suite)
    ∧ if nullish failure
      then (∃ e, res = Raised e)
           ∧ heap st' !! l = Some (recorded rets r)
           ∧ started (log st')
             = started (log st) ++ take (length rets) (SuiteConfig.tests suite)
      else ∃ bad cfg,
             res = BREAKOUT
             ∧ synthetic (phase_name phase) bad
             ∧ TestConfig.methodName cfg = phase_name phase
             ∧ heap st' !! l = Some (pushed bad (recorded rets r))
             ∧ started (log st')
               = started (log st) ++ take (length rets) (SuiteConfig.tests suite) ++ [cfg].
Proof.
  intros Hbreaks Hl. unfold RunnerExecute.run_suite. rewrite bind_run.
  inversion Hbreaks as [w failure' w'' Hfails|w w1 phase' rets' failure' w'' Hbefore Hloop
                       |w w1 rets' w2 failure' w'' Hbefore Hloop Hfails]; subst.
  - destruct (affixProcess_fails beforeAll suite l st r failure w' Hfails Hl)
      as (res & st' & -> & Hw' & Hres).
    exists res, st'. split_and!; [done..|simpl; lia|].
    destruct (nullish failure).
    + destruct Hres as (Hraised & Hheap & Hlog). split_and!; [done| |].
      * by rewrite Hheap.
      * by rewrite Hlog, app_nil_r.
    + done.
  - rewrite (affixProcess_resolves _ _ _ _ _ Hbefore). rewrite bind_run.
    destruct (run_tests_breaks suite l _ _ _ _ _ _ Hloop
                (mkState w1 (heap st) (log st)) r eq_refl Hl)
      as (res & st' & -> & Hw' & Hlen & Hres).
    by exists res, st'.
  - rewrite (affixProcess_resolves _ _ _ _ _ Hbefore). rewrite bind_run.
    destruct (run_tests_passes suite l _ _ _ _ Hloop
                (mkState w1 (heap st) (log st)) r eq_refl Hl)
      as (st2 & -> & Hw2 & Hlen & Hcell2 & Hlog2).
    rewrite <- Hw2 in Hfails.
    destruct (affixProcess_fails afterAll suite l st2 _ failure w' Hfails Hcell2)
      as (res & st' & -> & Hw' & Hres).
    exists res, st'. split_and!; [done..|lia|].
    rewrite Hlen, firstn_all. simpl in Hlog2.
    destruct (nullish failure).
    + destruct Hres as (Hraised & Hheap & Hlog). split_and!; [done| |].
      * by rewrite Hheap.
      * by rewrite Hlog, Hlog2.
    + destruct Hres as (bad & cfg & -> & Hbad & Hcfg & Hcell & Hlog).
      exists bad, cfg. split_and!; [done..|].
      rewrite Hlog, Hlog2. by rewrite <- app_assoc.
Qed.

(** C2, as the code has it: in a suite run in which a lifecycle listener
    throws or times out, once the tests before it have returned [rets],
    [executeSuite] returns a result whose list is [rets], unchanged,
    followed by one synthetic result: status [fail], one assertion with
    operator [throws] and text [(outer)], and as its method name the name of
    the phase, or [all] when the listener failed with [undefined]. Nothing
    of the suite runs after the listener that fails: the process is left as
    the listener left it, and the only test started after the first ones is
    the synthetic one. *)
Theorem listener_failure_aborts_suite suite st phase rets failure w' :
  run_breaks suite (world st) phase rets failure w' →
  let l := (opened suite st).1 in
  ∃ st' r bad cfg,
    executeSuite suite st = (inl l, st')
    ∧ heap st' !! l = Some r
    ∧ SuiteResult.tests r = rets ++ [bad]
    ∧ TestResult.status bad = fail
    ∧ TestResult.methodName bad = failure_name phase failure
    ∧ (∃ a, TestResult.assertions bad = [a]
            ∧ Assertion.operator a = "throws" ∧ Assertion.text a = "(outer)")
    ∧ world st' = w'
    ∧ length rets ≤ length (SuiteConfig.tests suite)
    ∧ started (log st')
      = started (log st) ++ take (length rets) (SuiteConfig.tests suite) ++ [cfg]
    ∧ TestConfig.methodName cfg = failure_name phase failure.
Proof.
  intros Hbreaks l.
  assert (executeSuite suite st
          = (try_catch W (run_suite suite l)
               (λ e, match e with
                     | BREAKOUT => mret ()
                     | Raised error =>
                         res ← generateSuiteError suite "all" (Js.VErr error);
                         push W l res
                     end);;
             onEvent W (SuiteAfter l);;
             update W l set_total;;
             mret l) (opened suite st).2) as ->by done.
  rewrite bind_run. unfold try_catch.
  change (world st) with (world (opened suite st).2) in Hbreaks.
  destruct (run_suite_breaks suite l _ _ _ _ _ _ Hbreaks (opened_cell suite st))
    as (res & st1 & -> & Hw1 & Hlen & Hres).
  rewrite opened_started in Hres. unfold failure_name.
  destruct (nullish failure).
  - destruct Hres as ([e ->] & Hcell & Hlog). rewrite !bind_run.
    destruct (generateSuiteError_spec suite "all" (Js.VErr e) st1 ltac:(done))
      as (bad & cfg & st2 & -> & (Hstatus & Hname & Hassert) & Hcfg & Hheap & Hlog2 & Hw2).
    simpl. eexists _, _, bad, cfg. split; [done|]. simpl.
    split_and!; try done.
    + by rewrite lookup_alter_eq, Hheap, lookup_alter_eq, Hcell.
    + simpl. by rewrite recorded_tests.
    + congruence.
    + rewrite started_app, Hlog2, Hlog. simpl. by rewrite app_nil_r, <- app_assoc.
  - destruct Hres as (bad & cfg & -> & (Hstatus & Hname & Hassert) & Hcfg & Hcell & Hlog).
    simpl. rewrite !bind_run. simpl.
    eexists _, _, bad, cfg. split; [done|]. simpl.
    split_and!; try done.
    + by rewrite lookup_alter_eq, Hcell.
    + simpl. by rewrite recorded_tests.
    + rewrite started_app, Hlog. simpl. by rewrite app_nil_r.
Qed.

(** C10: the consumer is handed the suite-level [after] event last, with
    the address of the result object, while the [total] of that object is
    still 0; the object that [executeSuite] returns is the same one, with
    [total] set to [success + fail] and nothing else changed. *)
Theorem suite_after_event_precedes_total suite st :
  let l := (opened suite st).1 in
  ∃ st' pre seen r,
    executeSuite suite st = (inl l, st')
    ∧ log st' = pre ++ [mkEmission (SuiteAfter l) seen]
    ∧ seen !! l = Some r
    ∧ SuiteResult.total r = 0
    ∧ heap st' !! l = Some (set_total r)
    ∧ SuiteResult.total (set_total r) = SuiteResult.success r + SuiteResult.fail r.
Proof.
  intros l.
  destruct (executeSuite_spec suite st)
    as (st' & k & rets & r & pre & h & tests
        & Hrun & Hk & Hlen & Hrets & Hends & Hlog & Hh & Hcell & Hstarted).
  destruct (ends_with_total _ _ _ _ _ _ Hends) as (Htotal & _).
  by exists st', pre, h, r.
Qed.

End RunnerFacts.


(** The suite [healthy], whose three tests pass, fail and are skipped. *)
Example suite_counts_healthy :
  ∃ r, RunnerDemo.returned (RunnerDemo.executeSuite RunnerDemo.healthy RunnerDemo.initial)
       = Some r
       ∧ (RunnerExecute.SuiteResult.success r, RunnerExecute.SuiteResult.fail r,
          RunnerExecute.SuiteResult.skip r, RunnerExecute.SuiteResult.total r)
         = (1, 1, 1, 2).
Proof. eexists. split; [vm_compute; reflexivity|]. done. Qed.

(** On the suite [healthy], the object seen with the [after] event has
    [success = 1], [fail = 1] and [total = 0]. *)
Example suite_after_event_healthy :
  (λ r, (RunnerExecute.SuiteResult.success r, RunnerExecute.SuiteResult.fail r,
         RunnerExecute.SuiteResult.total r))
    <$> mjoin (last (RunnerDemo.emitted
                 (RunnerDemo.executeSuite RunnerDemo.healthy RunnerDemo.initial)))
  = Some (1, 1, 0).
Proof. vm_compute. done. Qed.

(** * Properties of src/runner/execute/execute.ts *)
Section ExecuteFacts.

Import ExecuteUtil ExecuteNotions.

Variable W : Type.
Variable invoke : string -> string -> option Z -> W -> Run W.
Variable readFilePosition : Js.Val -> string -> Position.

#[local] Existing Instances ExecuteUtil.M_ret ExecuteUtil.M_bind.

#[local] Abbreviation race := (race W invoke).
#[local] Abbreviation caught := (caught W).
#[local] Abbreviation settle := (settle W readFilePosition).
#[local] Abbreviation catch := (catch W readFilePosition).
#[local] Abbreviation executeTest := (executeTest W invoke readFilePosition).
#[local] Abbreviation running := (running W invoke).
#[local] Abbreviation caught_in := (caught_in W invoke).

Lemma bind_run' {A B} (m : M W A) (f : A → M W B) (st : State W) :
  (m ≫= f) st
  = match m st with
    | (inl a, st') => f a st'
    | (inr e, st') => (inr e, st')
    end.
Proof. done. Qed.

Lemma record_spec assertions :
  ∀ st, record W assertions st
        = (inl (), mkState (world st) (log st ++ (AssertionAfter <$> assertions))
                     (asserts st ++ assertions) (console st)).
Proof.
  induction assertions as [|a rest IH]; intros st; simpl.
  - rewrite !app_nil_r. by destruct st.
  - rewrite bind_run'. unfold AssertUtil_add at 1. simpl. rewrite IH. simpl.
    by rewrite <- !app_assoc.
Qed.

(** [executeTest] on a test that is not skipped, around its [catch]
    clause. *)
Lemma executeTest_unfold test st :
  TestConfig.skip test = false →
  executeTest test st
  = match catch test (outcome (running test st)) (caught_in test st) with
    | (inl p, st') =>
        let ret :=
          TestResult.mk (status p) (TestConfig.className test)
            (TestConfig.methodName test) (TestConfig.description test)
            (TestConfig.lines test) (TestConfig.file test) (error p)
            (asserts st') (console st') in
        (inl ret, mkState (world st') (log st' ++ [TestAfter ret]) [] ∅)
    | (inr e, st') => (inr e, mkState (world st') (log st') [] ∅)
    end.
Proof.
  intros Hskip. unfold ExecuteUtil.executeTest. rewrite bind_run'. simpl.
  rewrite Hskip, bind_run'. unfold try_finally.
  rewrite !bind_run'. unfold ConsoleCapture_start, AssertUtil_start. simpl.
  unfold ExecuteUtil.race, mbind, ExecuteUtil.M_bind. cbv beta.
  rewrite record_spec. simpl.
  unfold caught_in. rewrite <- app_assoc.
  destruct (catch test _ _) as [[p|e] st']; by simpl.
Qed.

Lemma caught_state test o st :
  ∃ res, caught test o st = (res, st).
Proof.
  unfold ExecuteUtil.caught.
  destruct o; [| |by eexists].
  all: destruct (truthy _); [destruct (checkError _ _)|]; by eexists.
Qed.

(** What the [catch] clause does once [err] has its final value. *)
Lemma settle_spec test err st :
  ∃ p st', settle test err st = (inl p, st')
           ∧ world st' = world st ∧ console st' = console st
           ∧ if Js.truthy err
             then status p = fail ∧ error p = Some err
                  ∧ if Js.instanceof err "AssertionError"
                    then asserts st' = asserts st ∧ log st' = log st
                    else ∃ a, asserts st' = asserts st ++ [a]
                              ∧ log st' = log st ++ [AssertionAfter a]
                              ∧ uncaught readFilePosition test err a
             else status p = success ∧ error p = None
                  ∧ asserts st' = asserts st ∧ log st' = log st.
Proof.
  unfold ExecuteUtil.settle.
  destruct (Js.truthy err) eqn:Htruthy; simpl; [|by eexists _, _].
  rewrite bind_run'.
  destruct (Js.instanceof err "AssertionError") eqn:Hinst; simpl.
  - by eexists _, _.
  - eexists _, _. split; [done|]. split_and!; [done..|].
    eexists. by split_and!.
Qed.

Lemma new_Error_not_assertion site msg :
  Js.instanceof (Js.VErr (Js.new_Error site msg)) "AssertionError" = false.
Proof. done. Qed.

(** [executeTest] once [err] has its final value. *)
Lemma executeTest_settled test st err :
  TestConfig.skip test = false →
  caught test (outcome (running test st)) (caught_in test st)
  = (inl err, caught_in test st) →
  ∃ ret st',
    executeTest test st = (inl ret, st')
    ∧ if Js.truthy err
      then TestResult.status ret = fail ∧ TestResult.error ret = Some err
           ∧ if Js.instanceof err "AssertionError"
             then TestResult.assertions ret = asserted (running test st)
             else ∃ a, TestResult.assertions ret = asserted (running test st) ++ [a]
                       ∧ uncaught readFilePosition test err a
      else TestResult.status ret = success ∧ TestResult.error ret = None
           ∧ TestResult.assertions ret = asserted (running test st).
Proof.
  intros Hskip Hcaught. rewrite (executeTest_unfold test st Hskip).
  unfold ExecuteUtil.catch. rewrite bind_run', Hcaught.
  destruct (settle_spec test err (caught_in test st))
    as (p & st' & -> & Hworld & Hconsole & Hsettled).
  eexists _, _. split; [done|]. simpl.
  destruct (Js.truthy err).
  - destruct Hsettled as (-> & -> & Hasserts). split_and!; [done..|].
    destruct (Js.instanceof err "AssertionError").
    + by destruct Hasserts as [-> _].
    + destruct Hasserts as (a & -> & _ & Ha). by exists a.
  - by destruct Hsettled as (-> & -> & -> & _).
Qed.

(** *** [shouldThrow = true] *)

(** With [shouldThrow = true], a test whose method throws
    a value that is not falsy succeeds, and the value is dropped. *)
Lemma should_throw_true_accepts_any_error test st v :
  TestConfig.skip test = false →
  TestConfig.shouldThrow test = Flag true →
  outcome (running test st) = Threw v →
  Js.truthy v = true →
  ∃ ret st', executeTest test st = (inl ret, st')
             ∧ TestResult.status ret = success ∧ TestResult.error ret = None.
Proof.
  intros Hskip Hst Hout Hv.
  destruct (executeTest_settled test st Js.VUndef Hskip) as (ret & st' & -> & Hret).
  { unfold ExecuteUtil.caught, checkError. by rewrite Hout, Hst, Hv. }
  destruct Hret as (? & ? & _). by exists ret, st'.
Qed.

(** C3, on the code: with [shouldThrow = true], a test whose
    method returns makes [checkError] throw, in the [catch] clause of
    [executeTest]: the error [Expected an error to be thrown] leaves
    [executeTest], which returns no result and emits no [after] event. *)
Theorem should_throw_true_returning_test_throws test st :
  TestConfig.skip test = false →
  TestConfig.shouldThrow test = Flag true →
  outcome (running test st) = Returned →
  ∃ st',
    executeTest test st
    = (inr (Js.new_Error "ExecuteUtil.checkError" "Expected an error to be thrown"), st')
    ∧ log st'
      = log st ++ [TestBefore test] ++ (AssertionAfter <$> asserted (running test st)).
Proof.
  intros Hskip Hst Hout. rewrite (executeTest_unfold test st Hskip).
  unfold ExecuteUtil.catch, ExecuteUtil.caught, checkError.
  rewrite bind_run', Hout, Hst. simpl. by eexists.
Qed.

(** *** Timeouts *)

(** C4, as the code has it: a test that loses the race against its timeout
    fails with the error [Operation timed out], whatever its [shouldThrow]:
    the timeout error does not go through [checkError]. *)
Theorem timed_out_test_fails test st :
  TestConfig.skip test = false →
  outcome (running test st) = TimedOut →
  ∃ ret st',
    executeTest test st = (inl ret, st')
    ∧ TestResult.status ret = fail
    ∧ TestResult.error ret
      = Some (Js.VErr (Js.new_Error "ExecuteUtil.executeTest" "Operation timed out")).
Proof.
  intros Hskip Hout.
  destruct (executeTest_settled test st
              (Js.VErr (Js.new_Error "ExecuteUtil.executeTest" "Operation timed out"))
              Hskip) as (ret & st' & -> & Hret).
  { unfold ExecuteUtil.caught. by rewrite Hout. }
  destruct Hret as (? & ? & _). by exists ret, st'.
Qed.

(** *** [shouldThrow] as a substring *)

(** C8, as the code has it: for a [shouldThrow] that is a string other
    than the empty one, a test whose method throws an [Error] succeeds when
    the message of the error contains the string, and otherwise fails with
    an error that names the string and the message. *)
Theorem substring_expectation test st s e :
  TestConfig.skip test = false →
  TestConfig.shouldThrow test = Text s →
  s ≠ "" →
  outcome (running test st) = Threw (Js.VErr e) →
  ∃ ret st',
    executeTest test st = (inl ret, st')
    ∧ if Js.includes (Js.message e) s
      then TestResult.status ret = success ∧ TestResult.error ret = None
      else TestResult.status ret = fail
           ∧ TestResult.error ret
             = Some (Js.VErr (Js.new_Error "ExecuteUtil.checkError"
                 ("Expected error containing text '" +:+ s
                    +:+ "', but got '" +:+ Js.message e +:+ "'"))).
Proof.
  intros Hskip Hst Hs Hout.
  assert (truthy (Text s) = true) as Htruthy.
  { simpl. apply negb_true_iff. by apply String.eqb_neq. }
  destruct (Js.includes (Js.message e) s) eqn:Hincl.
  - destruct (executeTest_settled test st Js.VUndef Hskip) as (ret & st' & -> & Hret).
    { unfold ExecuteUtil.caught, checkError. rewrite Hout, Hst, Htruthy. simpl.
      by rewrite Hincl. }
    destruct Hret as (? & ? & _). by exists ret, st'.
  - destruct (executeTest_settled test st
                (Js.VErr (Js.new_Error "ExecuteUtil.checkError"
                   ("Expected error containing text '" +:+ s
                      +:+ "', but got '" +:+ Js.message e +:+ "'")))
                Hskip) as (ret & st' & -> & Hret).
    { unfold ExecuteUtil.caught, checkError. rewrite Hout, Hst, Htruthy. simpl.
      by rewrite Hincl. }
    destruct Hret as (? & ? & _). by exists ret, st'.
Qed.

(** *** Uncaught errors *)

(** C9: a result with status [fail] carries an error; when the error is
    not an [AssertionError], the assertions of the result are those that the
    test made, followed by exactly one more: operator [throws], text
    [(uncaught)], at the line that the stack of the error gives, or at the
    first line of the test when that line is 1. An [AssertionError] adds
    none. *)
Theorem uncaught_error_assertion test st ret st' :
  executeTest test st = (inl ret, st') →
  TestResult.status ret = fail →
  ∃ err,
    TestResult.error ret = Some err
    ∧ if Js.instanceof err "AssertionError"
      then TestResult.assertions ret = asserted (running test st)
      else
        ∃ a,
          TestResult.assertions ret = asserted (running test st) ++ [a]
          ∧ Assertion.operator a = "throws"
          ∧ Assertion.text a = "(uncaught)"
          ∧ Assertion.error a = Some err
          ∧ Assertion.line a
            = let line := at_line (readFilePosition err (TestConfig.file test)) in
              if (line =? 1)%Z then start (TestConfig.lines test) else line.
Proof.
  intros Hrun Hfail.
  destruct (TestConfig.skip test) eqn:Hskip.
  { unfold ExecuteUtil.executeTest in Hrun. rewrite bind_run' in Hrun.
    simpl in Hrun. rewrite Hskip in Hrun. simpl in Hrun.
    injection Hrun as <- _. done. }
  destruct (caught_state test (outcome (running test st)) (caught_in test st))
    as [[err|e] Hcaught].
  - destruct (executeTest_settled test st err Hskip Hcaught) as (ret' & st'' & Hrun' & Hret).
    rewrite Hrun in Hrun'. injection Hrun' as <- <-.
    destruct (Js.truthy err).
    + destruct Hret as (_ & Herr & Hasserts). exists err. split; [done|].
      destruct (Js.instanceof err "AssertionError"); [done|].
      destruct Hasserts as (a & Ha & Hop & Htext & Herror & _ & _ & Hline).
      by exists a.
    + destruct Hret as (Hstatus & _). congruence.
  - rewrite (executeTest_unfold test st Hskip) in Hrun.
    unfold ExecuteUtil.catch in Hrun. rewrite bind_run', Hcaught in Hrun. done.
Qed.

End ExecuteFacts.

(** * The properties at work on the demonstration suites *)

(** Witness for C2: the suite whose [beforeEach] listener throws once one
    test has run. *)
Lemma listener_failure_aborts_suite_witness :
  let suite := RunnerDemo.suite in
  let st := RunnerDemo.initial in
  let l := (RunnerNotions.opened suite st).1 in
  ∃ ret,
    RunnerNotions.run_breaks nat RunnerDemo.invoke RunnerDemo.readFilePosition 5000
      RunnerDemo.TypeError suite (RunnerExecute.world st) RunnerExecute.beforeEach [ret]
      (RunnerExecute.Failed (Js.VErr RunnerDemo.boom)) 1
    ∧ ∃ st' r bad cfg,
        RunnerDemo.executeSuite suite st = (inl l, st')
        ∧ RunnerExecute.heap st' !! l = Some r
        ∧ RunnerExecute.SuiteResult.tests r = [ret] ++ [bad]
        ∧ RunnerExecute.TestResult.status bad = RunnerExecute.fail
        ∧ RunnerExecute.TestResult.methodName bad = "beforeEach"
        ∧ (∃ a, RunnerExecute.TestResult.assertions bad = [a]
                ∧ RunnerExecute.Assertion.operator a = "throws"
                ∧ RunnerExecute.Assertion.text a = "(outer)")
        ∧ RunnerExecute.world st' = 1
        ∧ length [ret] ≤ length (RunnerExecute.SuiteConfig.tests suite)
        ∧ RunnerNotions.started (RunnerExecute.log st')
          = RunnerNotions.started (RunnerExecute.log st)
              ++ take (length [ret]) (RunnerExecute.SuiteConfig.tests suite) ++ [cfg]
        ∧ RunnerExecute.TestConfig.methodName cfg = "beforeEach".
Proof.
  intros suite st l.
  eassert (RunnerNotions.run_breaks nat RunnerDemo.invoke RunnerDemo.readFilePosition 5000
             RunnerDemo.TypeError suite (RunnerExecute.world st) RunnerExecute.beforeEach [_]
             (RunnerExecute.Failed (Js.VErr RunnerDemo.boom)) 1) as Hbreaks.
  { eapply RunnerNotions.breaks_in_loop; [apply RunnerNotions.resolve_none|].
    eapply RunnerNotions.breaks_next.
    - eapply RunnerNotions.resolve_next; [reflexivity|apply RunnerNotions.resolve_none].
    - intros h log. eexists. cbv. reflexivity.
    - apply RunnerNotions.resolve_none.
    - apply RunnerNotions.breaks_before.
      apply RunnerNotions.fails_here; [reflexivity|discriminate]. }
  eexists. split; [exact Hbreaks|].
  apply (listener_failure_aborts_suite nat RunnerDemo.invoke RunnerDemo.readFilePosition
           5000 RunnerDemo.TypeError suite st _ _ _ _ Hbreaks).
Defined.

(** Counterexample to C2 as stated: the [afterEach] listener of [mute]
    rejects with [undefined] once the first test has run. The run is
    aborted, and the failure that is recorded is named [all], not
    [afterEach]. *)
Lemma listener_failure_counterexample :
  RunnerNotions.first_fails nat
    (RunnerExecute.SuiteConfig.listeners RunnerDemo.mute RunnerExecute.afterEach) 1
    (RunnerExecute.Failed Js.VUndef) 1
  ∧ RunnerDemo.recorded_names (RunnerDemo.executeSuite RunnerDemo.mute RunnerDemo.initial)
    = ["passes"; "all"]
  ∧ RunnerExecute.phase_name RunnerExecute.afterEach
    ∉ RunnerDemo.recorded_names (RunnerDemo.executeSuite RunnerDemo.mute RunnerDemo.initial).
Proof.
  split_and!.
  - apply RunnerNotions.fails_here; [reflexivity|discriminate].
  - vm_compute. reflexivity.
  - vm_compute. intros Hin. inversion Hin as [|? ? ? Hin']; subst. inversion Hin' as [|? ? ? Hin'']; subst.
    inversion Hin''.
Qed.

(** That suite, by evaluation: one test ran, a second was not started,
    the result list ends with the failure named [beforeEach], and the
    instance has seen one call of a test method. *)
Example listener_failure_demo :
  RunnerDemo.recorded_names (RunnerDemo.executeSuite RunnerDemo.suite RunnerDemo.initial)
  = ["passes"; "beforeEach"]
  ∧ RunnerDemo.started_names (RunnerDemo.executeSuite RunnerDemo.suite RunnerDemo.initial)
    = ["passes"; "beforeEach"]
  ∧ RunnerExecute.world (RunnerDemo.executeSuite RunnerDemo.suite RunnerDemo.initial).2 = 1.
Proof. vm_compute. done. Qed.

(** Witness for C3: the method that returns. *)
Lemma should_throw_true_returning_test_throws_witness :
  let test := ExecuteDemo.test_ "returns" (ExecuteUtil.Flag true) in
  let st := ExecuteDemo.initial in
  ExecuteUtil.TestConfig.skip test = false
  ∧ ExecuteUtil.TestConfig.shouldThrow test = ExecuteUtil.Flag true
  ∧ ExecuteUtil.outcome (ExecuteNotions.running unit ExecuteDemo.invoke test st) = Returned
  ∧ ∃ st',
      ExecuteUtil.executeTest unit ExecuteDemo.invoke ExecuteDemo.readFilePosition test st
      = (inr (Js.new_Error "ExecuteUtil.checkError" "Expected an error to be thrown"), st')
      ∧ ExecuteUtil.log st'
        = ExecuteUtil.log st ++ [ExecuteUtil.TestBefore test]
            ++ (ExecuteUtil.AssertionAfter
                  <$> ExecuteUtil.asserted (ExecuteNotions.running unit ExecuteDemo.invoke test st)).
Proof.
  intros test st. split_and!; [reflexivity..|].
  apply (should_throw_true_returning_test_throws unit ExecuteDemo.invoke
           ExecuteDemo.readFilePosition test st); reflexivity.
Defined.

(** By evaluation: the method that throws passes, the method that
    returns makes [executeTest] throw. *)
Example should_throw_true_demo :
  ExecuteDemo.verdict (ExecuteDemo.executeTest (ExecuteDemo.test_ "throws" (ExecuteUtil.Flag true)))
  = inl (ExecuteUtil.success, None)
  ∧ ExecuteDemo.verdict
      (ExecuteDemo.executeTest (ExecuteDemo.test_ "returns" (ExecuteUtil.Flag true)))
    = inr "Expected an error to be thrown".
Proof. vm_compute. done. Qed.

(** Counterexample to C4 as stated: the synthesized timeout error satisfies both
    [shouldThrow = true] and [shouldThrow = 'timed out'], to which
    [checkError] answers [undefined]; the tests that time out fail all the
    same. *)
Lemma timeout_validation_counterexample :
  let timeout := Js.VErr (Js.new_Error "ExecuteUtil.executeTest" "Operation timed out") in
  let flag := ExecuteDemo.test_ "hangs" (ExecuteUtil.Flag true) in
  let text := ExecuteDemo.test_ "hangs" (ExecuteUtil.Text "timed out") in
  ExecuteUtil.checkError flag timeout = inl Js.VUndef
  ∧ ExecuteUtil.checkError text timeout = inl Js.VUndef
  ∧ ExecuteDemo.verdict (ExecuteDemo.executeTest flag)
    = inl (ExecuteUtil.fail, Some "Operation timed out")
  ∧ ExecuteDemo.verdict (ExecuteDemo.executeTest text)
    = inl (ExecuteUtil.fail, Some "Operation timed out").
Proof. vm_compute. done. Qed.

(** Witness for C4: the method that never settles. *)
Lemma timed_out_test_fails_witness :
  let test := ExecuteDemo.test_ "hangs" (ExecuteUtil.Flag true) in
  let st := ExecuteDemo.initial in
  ExecuteUtil.TestConfig.skip test = false
  ∧ ExecuteUtil.outcome (ExecuteNotions.running unit ExecuteDemo.invoke test st) = TimedOut
  ∧ ∃ ret st',
      ExecuteUtil.executeTest unit ExecuteDemo.invoke ExecuteDemo.readFilePosition test st
      = (inl ret, st')
      ∧ ExecuteUtil.TestResult.status ret = ExecuteUtil.fail
      ∧ ExecuteUtil.TestResult.error ret
        = Some (Js.VErr (Js.new_Error "ExecuteUtil.executeTest" "Operation timed out")).
Proof.
  intros test st. split_and!; [reflexivity..|].
  apply (timed_out_test_fails unit ExecuteDemo.invoke ExecuteDemo.readFilePosition test st);
    reflexivity.
Defined.

(** Counterexample to C8 as stated: the message [boom] contains the empty string,
    and the test whose [shouldThrow] is the empty string fails, with the
    error that its method threw. *)
Lemma substring_expectation_counterexample :
  let test := ExecuteDemo.test_ "throws" (ExecuteUtil.Text "") in
  ExecuteUtil.outcome (ExecuteNotions.running unit ExecuteDemo.invoke test ExecuteDemo.initial)
  = Threw (Js.VErr ExecuteDemo.boom)
  ∧ Js.includes (Js.message ExecuteDemo.boom) "" = true
  ∧ ExecuteDemo.verdict (ExecuteDemo.executeTest test) = inl (ExecuteUtil.fail, Some "boom").
Proof. vm_compute. done. Qed.

(** Witness for C8: a substring that the message lacks. *)
Lemma substring_expectation_witness :
  let test := ExecuteDemo.test_ "throws" (ExecuteUtil.Text "zz") in
  let st := ExecuteDemo.initial in
  ExecuteUtil.TestConfig.skip test = false
  ∧ ExecuteUtil.TestConfig.shouldThrow test = ExecuteUtil.Text "zz"
  ∧ "zz" ≠ ""
  ∧ ExecuteUtil.outcome (ExecuteNotions.running unit ExecuteDemo.invoke test st)
    = Threw (Js.VErr ExecuteDemo.boom)
  ∧ ∃ ret st',
      ExecuteUtil.executeTest unit ExecuteDemo.invoke ExecuteDemo.readFilePosition test st
      = (inl ret, st')
      ∧ ExecuteUtil.TestResult.status ret = ExecuteUtil.fail
      ∧ ExecuteUtil.TestResult.error ret
        = Some (Js.VErr (Js.new_Error "ExecuteUtil.checkError"
                  "Expected error containing text 'zz', but got 'boom'")).
Proof.
  intros test st. split_and!; [reflexivity|reflexivity|discriminate|reflexivity|].
  apply (substring_expectation unit ExecuteDemo.invoke ExecuteDemo.readFilePosition
           test st "zz" ExecuteDemo.boom); [reflexivity|reflexivity|discriminate|reflexivity].
Defined.

(** By evaluation, on a substring that the message has and on one that
    it lacks. *)
Example substring_expectation_demo :
  ExecuteDemo.verdict (ExecuteDemo.executeTest (ExecuteDemo.test_ "throws" (ExecuteUtil.Text "oo")))
  = inl (ExecuteUtil.success, None)
  ∧ ExecuteDemo.verdict
      (ExecuteDemo.executeTest (ExecuteDemo.test_ "throws" (ExecuteUtil.Text "zz")))
    = inl (ExecuteUtil.fail, Some "Expected error containing text 'zz', but got 'boom'").
Proof. vm_compute. done. Qed.

(** Witness for C9: the method that throws at line 12. *)
Lemma uncaught_error_assertion_witness :
  let test := ExecuteDemo.test_ "throws" ExecuteUtil.Unset in
  let st := ExecuteDemo.initial in
  ∃ ret st',
    ExecuteUtil.executeTest unit ExecuteDemo.invoke ExecuteDemo.readFilePosition test st
    = (inl ret, st')
    ∧ ExecuteUtil.TestResult.status ret = ExecuteUtil.fail
    ∧ ∃ err,
        ExecuteUtil.TestResult.error ret = Some err
        ∧ if Js.instanceof err "AssertionError"
          then ExecuteUtil.TestResult.assertions ret
               = ExecuteUtil.asserted (ExecuteNotions.running unit ExecuteDemo.invoke test st)
          else
            ∃ a,
              ExecuteUtil.TestResult.assertions ret
              = ExecuteUtil.asserted (ExecuteNotions.running unit ExecuteDemo.invoke test st)
                  ++ [a]
              ∧ ExecuteUtil.Assertion.operator a = "throws"
              ∧ ExecuteUtil.Assertion.text a = "(uncaught)"
              ∧ ExecuteUtil.Assertion.error a = Some err
              ∧ ExecuteUtil.Assertion.line a
                = let line :=
                    ExecuteUtil.at_line
                      (ExecuteDemo.readFilePosition err (ExecuteUtil.TestConfig.file test)) in
                  if (line =? 1)%Z
                  then ExecuteUtil.start (ExecuteUtil.TestConfig.lines test)
                  else line.
Proof.
  intros test st. eexists _, _. split; [vm_compute; reflexivity|].
  split; [reflexivity|].
  eapply (uncaught_error_assertion unit ExecuteDemo.invoke ExecuteDemo.readFilePosition
            test st); [vm_compute; reflexivity|reflexivity].
Defined.

(** By evaluation: the error thrown at line 12 is reported there; the
    error that [checkError] makes resolves to line 1 and is reported at line
    10, where the test starts. *)
Example uncaught_error_lines :
  let line_of run :=
    match fst run with
    | inl ret =>
        (λ a, (ExecuteUtil.Assertion.text a, ExecuteUtil.Assertion.line a))
          <$> ExecuteUtil.TestResult.assertions ret
    | inr _ => []
    end in
  line_of (ExecuteDemo.executeTest (ExecuteDemo.test_ "throws" ExecuteUtil.Unset))
  = [("(uncaught)", 12%Z)]
  ∧ line_of (ExecuteDemo.executeTest (ExecuteDemo.test_ "throws" (ExecuteUtil.Text "zz")))
    = [("(uncaught)", 10%Z)].
Proof. vm_compute. done. Qed.

(** * Further properties of src/service/executor.ts *)
Section ExecutorMore.

Import Executor ExecutorNotions ExecutorInvariants.

Variable W : Type.
Variable invoke : string -> string -> W -> Outcome * W.
Variable load : string -> list SuiteConfig.t.
Variable w0 : W.
Variable crash : string -> option string.

#[local] Abbreviation executeTest := (executeTest W invoke).
#[local] Abbreviation run_tests := (run_tests W invoke).
#[local] Abbreviation executeSuite := (executeSuite W invoke).
#[local] Abbreviation run_suites := (run_suites W invoke).
#[local] Abbreviation executeFile := (executeFile W invoke load).
#[local] Abbreviation isolated := (isolated W invoke load w0).
#[local] Abbreviation spawnFile := (spawnFile W invoke load w0 crash).
#[local] Abbreviation loop_step := (loop_step W invoke load w0 crash).
#[local] Abbreviation run_loop := (run_loop W invoke load w0 crash).
#[local] Abbreviation exec := (exec W invoke load w0 crash).

(** *** One suite *)

Lemma executeTest_ran test w :
  TestResult.method (executeTest test w).1 = TestConfig.method test
  ∧ TestResult.status (executeTest test w).1 ≠ skipped.
Proof.
  unfold Executor.executeTest.
  destruct (invoke _ _ w) as [[|v|] w']; by simpl.
Qed.

Lemma count_status_app s (l1 l2 : list TestResult.t) :
  count_status s (l1 ++ l2) = count_status s l1 + count_status s l2.
Proof. unfold count_status. by rewrite fmap_app, sum_list_with_app. Qed.

Lemma count_status_cons s ret (rets : list TestResult.t) :
  count_status s (ret :: rets)
  = match TestResult.status ret, s with
    | passed, passed | failed, failed | skipped, skipped => 1
    | _, _ => 0
    end + count_status s rets.
Proof. done. Qed.

Lemma run_tests_counts tests :
  ∀ result w,
    let r := (run_tests tests result w).1 in
    ∃ rets,
      SuiteResult.tests r = SuiteResult.tests result ++ rets
      ∧ TestResult.method <$> rets = TestConfig.method <$> tests
      ∧ SuiteResult.passed r = SuiteResult.passed result + count_status passed rets
      ∧ SuiteResult.failed r = SuiteResult.failed result + count_status failed rets
      ∧ SuiteResult.skipped r = SuiteResult.skipped result
      ∧ SuiteResult.total r = SuiteResult.total result + length tests
      ∧ count_status passed rets + count_status failed rets = length tests
      ∧ SuiteResult.file r = SuiteResult.file result
      ∧ SuiteResult.class r = SuiteResult.class result.
Proof.
  induction tests as [|test tests IH]; intros result w; simpl.
  - exists []. rewrite app_nil_r. split_and!; (done || by rewrite Nat.add_0_r).
  - pose proof (executeTest_ran test w) as [Hmethod Hstatus].
    destruct (executeTest test w) as [ret w'] eqn:Hret. simpl in Hmethod, Hstatus.
    destruct (IH (tally result ret) w')
      as (rets & Htests & Hmethods & Hp & Hf & Hs & Ht & Hsum & Hfile & Hclass).
    exists (ret :: rets). rewrite Htests, Hp, Hf, Hs, Ht, Hfile, Hclass.
    rewrite !count_status_cons, fmap_cons, Hmethod, Hmethods. unfold tally.
    destruct (TestResult.status ret); simpl; [| |done].
    all: rewrite <- app_assoc; split_and!; (done || lia).
Qed.

Lemma executeSuite_shape suite w :
  let r := (executeSuite suite w).1 in
  TestResult.method <$> SuiteResult.tests r = TestConfig.method <$> SuiteConfig.tests suite
  ∧ SuiteResult.passed r = count_status passed (SuiteResult.tests r)
  ∧ SuiteResult.failed r = count_status failed (SuiteResult.tests r)
  ∧ SuiteResult.skipped r = 0
  ∧ SuiteResult.total r = SuiteResult.passed r + SuiteResult.failed r
  ∧ SuiteResult.total r = length (SuiteConfig.tests suite)
  ∧ SuiteResult.file r = SuiteConfig.filename suite
  ∧ SuiteResult.class r = SuiteConfig.class suite.
Proof.
  unfold Executor.executeSuite.
  destruct (run_tests_counts (SuiteConfig.tests suite)
              (SuiteResult.mk 0 0 0 0 (SuiteConfig.filename suite) (SuiteConfig.class suite)
                 (SuiteConfig.description suite) []) w)
    as (rets & Htests & Hmethods & Hp & Hf & Hs & Ht & Hsum & Hfile & Hclass).
  simpl in *. rewrite Htests. split_and!; (done || lia).
Qed.

(** The suite result of [executeSuite]: one result per declared test, in the
    order of declaration; [passed] and [failed] count the results of each
    status, nothing is ever skipped, and [total] is the number of tests. *)
Theorem executor_suite_counts suite w :
  let r := (executeSuite suite w).1 in
  TestResult.method <$> SuiteResult.tests r = TestConfig.method <$> SuiteConfig.tests suite
  ∧ SuiteResult.passed r = count_status passed (SuiteResult.tests r)
  ∧ SuiteResult.failed r = count_status failed (SuiteResult.tests r)
  ∧ SuiteResult.skipped r = 0
  ∧ SuiteResult.total r = SuiteResult.passed r + SuiteResult.failed r
  ∧ SuiteResult.total r = length (SuiteConfig.tests suite)
  ∧ SuiteResult.file r = SuiteConfig.filename suite
  ∧ SuiteResult.class r = SuiteConfig.class suite.
Proof. apply executeSuite_shape. Qed.

(** *** One file *)

Lemma run_suites_shape classes :
  ∀ acc w,
    let r := (run_suites classes acc w).1 in
    ∃ news,
      SuitesResult.suites r = SuitesResult.suites acc ++ news
      ∧ SuiteResult.class <$> news = SuiteConfig.class <$> classes
      ∧ SuitesResult.passed r = SuitesResult.passed acc + sum_list (SuiteResult.passed <$> news)
      ∧ SuitesResult.failed r = SuitesResult.failed acc + sum_list (SuiteResult.failed <$> news)
      ∧ SuitesResult.skipped r
        = SuitesResult.skipped acc + sum_list (SuiteResult.skipped <$> news)
      ∧ SuitesResult.total r = SuitesResult.total acc + sum_list (SuiteResult.total <$> news)
      ∧ sum_list (SuiteResult.total <$> news)
        = sum_list (SuiteResult.passed <$> news) + sum_list (SuiteResult.failed <$> news)
      ∧ sum_list (SuiteResult.skipped <$> news) = 0
      ∧ sum_list (SuiteResult.total <$> news)
        = sum_list (length ∘ SuiteConfig.tests <$> classes).
Proof.
  induction classes as [|suite classes IH]; intros acc w; simpl.
  - exists []. rewrite app_nil_r. simpl. split_and!; (done || lia).
  - pose proof (executeSuite_shape suite w) as (_ & _ & _ & Hs0 & Ht0 & Hlen0 & _ & Hc0).
    destruct (executeSuite suite w) as [result w']. simpl in Hs0, Ht0, Hlen0, Hc0.
    destruct (IH (merge_suite acc result) w')
      as (news & Hsuites & Hclasses & Hp & Hf & Hs & Ht & Hsum & Hskip & Hlen).
    exists (result :: news). rewrite Hsuites, Hp, Hf, Hs, Ht.
    rewrite !fmap_cons, Hclasses, Hc0. unfold merge_suite. simpl.
    rewrite <- app_assoc. unfold compose in *. split_and!; try (done || lia).
    f_equal; [done | exact Hlen].
Qed.

Lemma executeFile_consistent file w : consistent (executeFile file w).1.
Proof.
  unfold Executor.executeFile.
  destruct (run_suites_shape (load file) BASE_SUITES w)
    as (news & Hsuites & _ & Hp & Hf & Hs & Ht & Hsum & Hskip & _).
  simpl in *. unfold consistent, counters. rewrite Hsuites, Hp, Hf, Hs, Ht.
  split_and!; (done || lia).
Qed.

(** The aggregate of [executeFile]: one suite result per registered class,
    in the order of registration; its counters are the sums of the counters
    of those suite results, [total] is the number of tests of the file, all
    of them passed or failed. *)
Theorem executor_file_aggregate file w :
  let agg := (executeFile file w).1 in
  SuiteResult.class <$> SuitesResult.suites agg = SuiteConfig.class <$> load file
  ∧ consistent agg
  ∧ SuitesResult.total agg = sum_list (length ∘ SuiteConfig.tests <$> load file).
Proof.
  split_and!; [| apply executeFile_consistent |].
  all: unfold Executor.executeFile.
  all: destruct (run_suites_shape (load file) BASE_SUITES w)
         as (news & Hsuites & Hclasses & _ & _ & _ & Ht & _ & _ & Hlen).
  all: simpl in *; by rewrite ?Hsuites, ?Ht.
Qed.

(** *** Every aggregate that [exec] produces *)

Lemma merge_consistent a b : consistent a → consistent b → consistent (merge a b).
Proof.
  unfold consistent, counters, merge. simpl.
  intros ([= -> -> -> ->] & Ha & Hsa) ([= -> -> -> ->] & Hb & Hsb).
  rewrite !fmap_app, !sum_list_with_app. split_and!; (done || lia).
Qed.

Lemma drain_consistent p :
  ∀ acc, consistent acc →
         Forall (λ e : nat * (SuitesResult.t + string),
                   ∀ r, e.2 = inl r → consistent r) p →
         consistent (drain p acc).
Proof.
  induction p as [|[id [r|e]] p IH]; intros acc Hacc Hp; simpl; [done| |].
  - apply Forall_cons in Hp as [Hr Hp]. apply IH; [|done].
    apply merge_consistent; [done|]. by apply Hr.
  - apply Forall_cons in Hp as [_ Hp]. by apply IH.
Qed.

Lemma run_loop_consistent bound files pick fuel :
  ∀ st r,
    consistent (results st) →
    Forall (λ e : nat * (SuitesResult.t + string),
              ∀ r, e.2 = inl r → consistent r) (pending st) →
    run_loop fuel bound files pick st = Some (Return r) →
    consistent r.
Proof.
  induction fuel as [|fuel IH]; intros st r Hres Hpend; simpl; [done|].
  unfold Executor.loop_step.
  destruct (files !! position st) as [file|].
  - destruct (Z.of_nat (length (pending st)) <? bound)%Z.
    + apply IH; simpl; [done|]. apply Forall_app. split; [done|].
      apply Forall_singleton. unfold Executor.spawnFile.
      destruct (crash file); simpl; [done|]. intros r' [= <-].
      apply executeFile_consistent.
    + destruct (pending st !! _) as [[id [res|e]]|] eqn:Hentry; [| |done]; [|by intros [=]].
      apply IH; simpl.
      * apply merge_consistent; [done|].
        apply list_elem_of_lookup_2 in Hentry.
        by apply (proj1 (Forall_forall _ _) Hpend _ Hentry).
      * apply Forall_forall. intros entry [_ Hin]%list_elem_of_filter.
        by apply (proj1 (Forall_forall _ _) Hpend).
  - unfold finish. destruct (rejections (pending st)); [|done]. intros [= <-].
    by apply drain_consistent.
Qed.

(** Whenever [exec] sends an aggregate to its parent or returns one, the
    counters of the aggregate are the sums of the counters of the suites that
    it lists, its [total] is [passed + failed] and nothing is skipped,
    whatever the order in which the children settle. *)
Theorem exec_aggregate_consistent fuel cpus ipc pick files code r :
  exec fuel cpus ipc pick files = Some (Return r)
  ∨ exec fuel cpus ipc pick files = Some (Exit code (Some r)) →
  consistent r.
Proof.
  unfold Executor.exec. intros [Hrun|Hrun].
  - destruct files as [|f1 [|f2 rest]]; [|done|].
    all: eapply run_loop_consistent; [| |exact Hrun]; simpl; (done || by constructor).
  - destruct files as [|f1 [|f2 rest]].
    + by destruct (run_loop_never_exits W invoke load w0 crash _ _ _ _ _ _ _ Hrun).
    + destruct ipc; [|done]. injection Hrun as _ <-. apply executeFile_consistent.
    + by destruct (run_loop_never_exits W invoke load w0 crash _ _ _ _ _ _ _ Hrun).
Qed.

(** *** A child that crashes *)

#[local] Abbreviation crash_inv := (crash_inv W invoke load w0 crash).

Lemma spawned_rejection files id file stderr :
  files !! id = Some file →
  spawnFile id file = (id, inr stderr) →
  stderr ∈ crashes crash files.
Proof.
  intros Hfile Hspawn. unfold Executor.spawnFile in Hspawn.
  destruct (crash file) as [s|] eqn:Hcrash; [|done]. injection Hspawn as <-.
  apply list_elem_of_omap. exists file. split; [|done].
  by apply list_elem_of_lookup_2 in Hfile.
Qed.

Lemma NoDup_fst_functional (p : list (nat * (SuitesResult.t + string))) id e1 e2 :
  NoDup p.*1 → (id, e1) ∈ p → (id, e2) ∈ p → e1 = e2.
Proof.
  induction p as [|[i e] p IH]; intros Hnd H1 H2; [by apply elem_of_nil in H1|].
  simpl in Hnd. apply NoDup_cons in Hnd as [Hi Hnd].
  assert (∀ e', (i, e') ∈ p → False) as Hfresh.
  { intros e' Hin. apply Hi, list_elem_of_fmap. by exists (i, e'). }
  apply elem_of_cons in H1 as [H1|H1]; apply elem_of_cons in H2 as [H2|H2].
  - congruence.
  - injection H1 as -> _. by destruct (Hfresh _ H2).
  - injection H2 as -> _. by destruct (Hfresh _ H1).
  - by apply IH.
Qed.

Lemma loop_step_crash bound files pick st :
  (1 ≤ bound)%Z →
  crash_inv files st →
  (loop_step bound files pick st = LoopDone ∧ position st = length files)
  ∨ (∃ stderr, loop_step bound files pick st = Rejected stderr
               ∧ stderr ∈ crashes crash files)
  ∨ ∃ st', loop_step bound files pick st = Continue st'
           ∧ crash_inv files st' ∧ measure files st' < measure files st.
Proof.
  intros Hbound (Hpos & Hnd & Hids & Hspawned & Hkept). unfold Executor.loop_step.
  destruct (files !! position st) as [file|] eqn:Hfile;
    [|left; split; [done|apply lookup_ge_None in Hfile; lia]].
  pose proof (lookup_lt_Some _ _ _ Hfile) as Hlt.
  right. destruct (Z.ltb_spec (Z.of_nat (length (pending st))) bound) as [Hroom|Hfull].
  - right. eexists. split; [done|].
    assert ((spawnFile (position st) file).1 = position st) as Hid.
    { unfold Executor.spawnFile. by destruct (crash file). }
    unfold ExecutorInvariants.crash_inv, measure. simpl.
    rewrite fmap_app, length_app. simpl. rewrite Hid. split_and!.
    + lia.
    + apply NoDup_app. split_and!; [done| |apply NoDup_singleton].
      intros id Hin ->%list_elem_of_singleton. specialize (Hids _ Hin). lia.
    + intros id [Hin| ->%list_elem_of_singleton]%elem_of_app; [|lia].
      specialize (Hids _ Hin). lia.
    + intros entry [Hin| ->%list_elem_of_singleton]%elem_of_app; [by apply Hspawned|].
      exists file. by rewrite Hid.
    + intros id f stderr Hf Hcrash Hlt'. apply elem_of_app.
      destruct (decide (id = position st)) as [->|Hne].
      * right. apply list_elem_of_singleton. rewrite Hfile in Hf. injection Hf as <-.
        unfold Executor.spawnFile. by rewrite Hcrash.
      * left. eapply Hkept; [done..|lia].
    + lia.
  - assert (0 < length (pending st)) as Hlen by lia.
    pose proof (Nat.mod_upper_bound (pick (pending st).*1) (length (pending st))) as Hi.
    destruct (lookup_lt_is_Some_2 (pending st) _ (Hi ltac:(lia))) as [[id [res|e]] Hentry];
      rewrite Hentry.
    + right. eexists. split; [done|].
      apply list_elem_of_lookup_2 in Hentry.
      unfold ExecutorInvariants.crash_inv, measure. simpl. split_and!.
      * done.
      * eapply sublist_NoDup; [exact Hnd|]. apply fmap_sublist, sublist_filter.
      * intros i (entry & -> & [_ Hin]%list_elem_of_filter)%list_elem_of_fmap.
        apply Hids, list_elem_of_fmap. by exists entry.
      * intros entry [_ Hin]%list_elem_of_filter. by apply Hspawned.
      * intros id' f stderr Hf Hcrash Hlt'. apply list_elem_of_filter.
        split; [|by eapply Hkept]. simpl. intros ->.
        pose proof (Hkept _ _ _ Hf Hcrash Hlt') as Hin.
        by pose proof (NoDup_fst_functional _ _ _ _ Hnd Hentry Hin).
      * pose proof (pending_delete_shorter _ _ _ Hentry). lia.
    + left. exists e. split; [done|].
      apply list_elem_of_lookup_2 in Hentry.
      destruct (Hspawned _ Hentry) as (file' & Hfile' & Hspawn). simpl in *.
      by eapply spawned_rejection.
Qed.

Lemma finish_crash files pick st :
  crash_inv files st →
  position st = length files →
  crashes crash files ≠ [] →
  ∃ stderr, finish pick st = Throw stderr ∧ stderr ∈ crashes crash files.
Proof.
  intros (Hpos & Hnd & Hids & Hspawned & Hkept) Hend Hsome. unfold finish.
  assert (∀ s, s ∈ rejections (pending st) → s ∈ crashes crash files) as Hrej.
  { intros s ([id [r|e]] & Hin & Hs)%list_elem_of_omap; [done|]. simpl in Hs.
    injection Hs as ->. destruct (Hspawned _ Hin) as (file & Hfile & Hspawn).
    by eapply spawned_rejection. }
  destruct (rejections (pending st)) as [|s rest] eqn:Hlist.
  - exfalso. destruct (crashes crash files) as [|s rest] eqn:Hcrashes; [done|].
    assert (s ∈ crashes crash files) as Hs by (rewrite Hcrashes; by left).
    apply list_elem_of_omap in Hs as (file & [id Hfile]%list_elem_of_lookup_1 & Hcrash).
    pose proof (lookup_lt_Some _ _ _ Hfile) as Hlt.
    assert ((id, inr s) ∈ pending st) as Hin by (eapply Hkept; [done..|lia]).
    assert (s ∈ rejections (pending st)) as Hs.
    { apply list_elem_of_omap. by exists (id, inr s). }
    rewrite Hlist in Hs. by apply elem_of_nil in Hs.
  - eexists. split; [done|]. apply Hrej, list_elem_of_In, nth_In.
    apply Nat.mod_upper_bound. done.
Qed.

Lemma run_loop_crash bound files pick :
  (1 ≤ bound)%Z →
  crashes crash files ≠ [] →
  ∀ fuel st, crash_inv files st → measure files st < fuel →
    ∃ stderr, run_loop fuel bound files pick st = Some (Throw stderr)
              ∧ stderr ∈ crashes crash files.
Proof.
  intros Hbound Hsome. induction fuel as [|fuel IH]; intros st Hinv Hfuel; [lia|].
  simpl. destruct (loop_step_crash bound files pick st Hbound Hinv)
    as [[-> Hend]|[(stderr & -> & Hin)|(st' & -> & Hinv' & Hless)]].
  - destruct (finish_crash files pick st Hinv Hend Hsome) as (stderr & -> & Hin).
    by exists stderr.
  - by exists stderr.
  - apply IH; [done | lia].
Qed.

(** With at least two processors, the dispatch of a list of several files on
    one of which the child crashes never returns an aggregate: whatever the
    order in which the children settle, [exec] throws, and what it throws is
    the standard error of a child that crashed. The results of the other
    files are lost with it. *)
Theorem crashed_child_rejects cpus ipc pick (files : list string) :
  2 ≤ cpus →
  length files ≠ 1 →
  crashes crash files ≠ [] →
  ∃ stderr, exec (2 * length files + 1) cpus ipc pick files = Some (Throw stderr)
            ∧ stderr ∈ crashes crash files.
Proof.
  intros Hcpus Hmany Hsome.
  assert (exec (2 * length files + 1) cpus ipc pick files
          = run_loop (2 * length files + 1) (executors cpus) files pick
              (mkLoop 0 [] BASE_SUITES)) as ->.
  { unfold Executor.exec. by destruct files as [|? [|? ?]]. }
  apply run_loop_crash; [unfold executors; lia|done| |unfold measure; simpl; lia].
  unfold ExecutorInvariants.crash_inv. simpl. split_and!.
  - lia.
  - apply NoDup_nil_2.
  - intros id Hin. by apply elem_of_nil in Hin.
  - intros entry Hin. by apply elem_of_nil in Hin.
  - intros id file stderr _ _ Hlt. lia.
Qed.

End ExecutorMore.

(** * Further properties of src/runner/execute.ts *)
Section RunnerMore.

Import RunnerExecute RunnerNotions RunnerMoreNotions.

Variable W : Type.
Variable invoke : string -> string -> Z -> W -> Run W.
Variable readFilePosition : Js.Val -> string -> Position.
Variable timeout : Z.
Variable TypeError : string -> Js.Error.
Variable cwd : string.
Variable require : string -> Registry W.

#[local] Existing Instances RunnerExecute.M_ret RunnerExecute.M_bind.

#[local] Abbreviation generateSuiteError :=
  (generateSuiteError W readFilePosition TypeError).
#[local] Abbreviation affixProcess := (affixProcess W readFilePosition TypeError).
#[local] Abbreviation checkError := (checkError TypeError).
#[local] Abbreviation executeTest :=
  (executeTest W invoke readFilePosition timeout TypeError).
#[local] Abbreviation run_tests := (run_tests W invoke readFilePosition timeout TypeError).
#[local] Abbreviation run_suite := (run_suite W invoke readFilePosition timeout TypeError).
#[local] Abbreviation executeSuite :=
  (executeSuite W invoke readFilePosition timeout TypeError).
#[local] Abbreviation getRunParams := (@getRunParams W).
#[local] Abbreviation executeSuiteTest :=
  (executeSuiteTest W invoke readFilePosition timeout TypeError).
#[local] Abbreviation returned_by :=
  (returned_by W invoke readFilePosition timeout TypeError).
#[local] Abbreviation running := (running W invoke timeout).
#[local] Abbreviation verdict := (verdict TypeError).
#[local] Abbreviation run_all := (run_all W invoke readFilePosition timeout TypeError).
#[local] Abbreviation run_params :=
  (run_params W invoke readFilePosition timeout TypeError).
#[local] Abbreviation execute :=
  (execute W invoke readFilePosition timeout TypeError cwd require).
#[local] Abbreviation resolve := (resolve cwd).

(** *** One test *)

Lemma stream_run assertions :
  ∀ st : State W,
    stream W assertions st
    = (inl (), mkState (world st) (heap st)
                 (log st ++ ((λ a, mkEmission (AssertionAfter a) (heap st)) <$> assertions))).
Proof.
  induction assertions as [|a rest IH]; intros st; simpl.
  - rewrite app_nil_r. by destruct st.
  - rewrite (bind_run W). simpl. rewrite IH. simpl. by rewrite <- app_assoc.
Qed.

(** [executeTest] on a test that is not skipped, once [err] has its final
    value. *)
Lemma executeTest_verdict test st err :
  TestConfig.skip test = false →
  verdict test (outcome (running test st)) = inl err →
  ∃ ret st',
    executeTest test st = (inl ret, st')
    ∧ world st' = after (running test st)
    ∧ heap st' = heap st
    ∧ events (log st')
      = events (log st) ++ [TestBefore test]
          ++ (AssertionAfter <$> asserted (running test st)) ++ [TestAfter ret]
    ∧ TestResult.methodName ret = TestConfig.methodName test
    ∧ TestResult.className ret = TestConfig.className test
    ∧ TestResult.output ret = printed (running test st)
    ∧ if Js.truthy err
      then TestResult.status ret = fail ∧ TestResult.error ret = Some err
           ∧ if Js.instanceof err "AssertionError"
             then TestResult.assertions ret = asserted (running test st)
             else ∃ a, TestResult.assertions ret = asserted (running test st) ++ [a]
                       ∧ Assertion.operator a = "throws"
                       ∧ Assertion.text a = "(uncaught)"
                       ∧ Assertion.error a = Some err
                       ∧ Assertion.line a
                         = at_line (readFilePosition err (TestConfig.file test))
      else TestResult.status ret = success ∧ TestResult.error ret = None
           ∧ TestResult.assertions ret = asserted (running test st).
Proof.
  intros Hskip Hverdict. unfold RunnerExecute.executeTest.
  rewrite (bind_run W). simpl. rewrite Hskip, (bind_run W). unfold perform. simpl.
  fold (running test st). rewrite (bind_run W), stream_run. simpl.
  rewrite (bind_run W).
  assert (match outcome (running test st) with
          | Returned => mret Js.VUndef
          | Threw v =>
              match checkError test v with
              | inl v' => mret v'
              | inr e => throw W (Raised e)
              end
          | TimedOut =>
              mret (Js.VErr (Js.new_Error "ExecuteUtil.executeTest" "Operation timed out"))
          end = (mret err : M W Js.Val)) as ->.
  { unfold verdict in Hverdict. destruct (outcome _) as [|v|].
    - by injection Hverdict as <-.
    - by rewrite Hverdict.
    - by injection Hverdict as <-. }
  simpl. destruct (Js.truthy err);
    [destruct (Js.instanceof err "AssertionError")|].
  all: eexists _, _; (split; [done|]); simpl.
  all: unfold events; rewrite !fmap_app, <- !app_assoc, <- !list_fmap_compose; simpl.
  all: split_and!; try done.
  - by rewrite app_nil_r.
  - eexists. by split_and!.
Qed.

Lemma executeTest_raises test st e :
  TestConfig.skip test = false →
  verdict test (outcome (running test st)) = inr e →
  ∃ st', executeTest test st = (inr (Raised e), st').
Proof.
  intros Hskip Hverdict. unfold RunnerExecute.executeTest.
  rewrite (bind_run W). simpl. rewrite Hskip, (bind_run W). unfold perform. simpl.
  fold (running test st). rewrite (bind_run W), stream_run. simpl.
  rewrite (bind_run W). unfold verdict in Hverdict.
  destruct (outcome _) as [|v|]; [done| |done]. rewrite Hverdict. by eexists.
Qed.

(** For a test that is not skipped and for which [executeTest] returns a
    result, the consumer is handed the [before] event of the test, then the
    assertions that the test made, in order, then the [after] event with the
    very result that is returned. The assertion that stands for an uncaught
    error is in the result, and is not handed to the consumer. *)
Theorem test_events_in_order test st ret st' :
  TestConfig.skip test = false →
  executeTest test st = (inl ret, st') →
  events (log st')
  = events (log st) ++ [TestBefore test]
      ++ (AssertionAfter <$> asserted (running test st)) ++ [TestAfter ret]
  ∧ world st' = after (running test st)
  ∧ heap st' = heap st
  ∧ ∃ uncaught, TestResult.assertions ret = asserted (running test st) ++ uncaught
                ∧ length uncaught ≤ 1.
Proof.
  intros Hskip Hrun.
  destruct (verdict test (outcome (running test st))) as [err|e] eqn:Hverdict.
  - destruct (executeTest_verdict test st err Hskip Hverdict)
      as (ret' & st'' & Hrun' & Hworld & Hheap & Hevents & _ & _ & _ & Hret).
    rewrite Hrun in Hrun'. injection Hrun' as <- <-. split_and!; [done..|].
    destruct (Js.truthy err).
    + destruct Hret as (_ & _ & Hasserts).
      destruct (Js.instanceof err "AssertionError").
      * exists []. rewrite app_nil_r. split; [done|simpl; lia].
      * destruct Hasserts as (a & -> & _). exists [a]. split; [done|simpl; lia].
    + destruct Hret as (_ & _ & ->). exists []. rewrite app_nil_r. split; [done|simpl; lia].
  - destruct (executeTest_raises test st e Hskip Hverdict) as [st'' Hrun'].
    rewrite Hrun in Hrun'. done.
Qed.

(** A test whose method returns passes, whatever its [shouldError]: the
    expectation is looked at only when something is thrown. *)
Theorem returning_test_passes test st :
  TestConfig.skip test = false →
  outcome (running test st) = Returned →
  ∃ ret st',
    executeTest test st = (inl ret, st')
    ∧ TestResult.status ret = success
    ∧ TestResult.error ret = None
    ∧ TestResult.assertions ret = asserted (running test st).
Proof.
  intros Hskip Hout.
  destruct (executeTest_verdict test st Js.VUndef Hskip)
    as (ret & st' & Hrun & _ & _ & _ & _ & _ & _ & Hret).
  { unfold verdict. by rewrite Hout. }
  exists ret, st'. by destruct Hret as (? & ? & ?).
Qed.

(** A [shouldError] that is a non-empty string names the constructor of the
    expected error: a test whose method throws a value of that constructor
    passes; with another constructor it fails, and the error of the result
    is [Expected error to be of type] followed by the name, not what was
    thrown. *)
Theorem expected_error_type test st n v c :
  TestConfig.skip test = false →
  TestConfig.shouldError test = TypeName n →
  n ≠ "" →
  outcome (running test st) = Threw v →
  Js.constructor_name v = Some c →
  ∃ ret st',
    executeTest test st = (inl ret, st')
    ∧ if String.eqb c n
      then TestResult.status ret = success ∧ TestResult.error ret = None
      else TestResult.status ret = fail
           ∧ TestResult.error ret
             = Some (Js.VErr (Js.new_Error "ExecuteUtil.checkError"
                                ("Expected error to be of type " +:+ n))).
Proof.
  intros Hskip Hshould Hn Hout Hc.
  assert (String.eqb n "" = false) as Hn' by by apply String.eqb_neq.
  destruct (String.eqb c n) eqn:Hcn.
  - destruct (executeTest_verdict test st Js.VUndef Hskip)
      as (ret & st' & Hrun & _ & _ & _ & _ & _ & _ & Hret).
    { unfold verdict, checkError. by rewrite Hout, Hshould, Hn', Hc, Hcn. }
    exists ret, st'. by destruct Hret as (? & ? & ?).
  - destruct (executeTest_verdict test st
                (Js.VErr (Js.new_Error "ExecuteUtil.checkError"
                            ("Expected error to be of type " +:+ n))) Hskip)
      as (ret & st' & Hrun & _ & _ & _ & _ & _ & _ & Hret).
    { unfold verdict, checkError. by rewrite Hout, Hshould, Hn', Hc, Hcn. }
    exists ret, st'. by destruct Hret as (? & ? & ?).
Qed.

(** *** The counters of a suite *)




(** *** Suite-level events *)








Lemma quiet_alloc r : quiet W (alloc W r).
Proof. by intros st. Qed.














(** *** One test of a suite *)





(** *** Selecting what to run *)

Lemma find_first {A} (f : A → bool) (l : list A) (x : A) :
  List.find f l = Some x →
  ∃ before after, l = before ++ x :: after ∧ Forall (λ y, f y = false) before ∧ f x = true.
Proof.
  induction l as [|y l IH]; simpl; [done|].
  destruct (f y) eqn:Hy.
  - intros [= ->]. by exists [], l.
  - intros (before & after & -> & Hbefore & Hx)%IH.
    exists (y :: before), after. split_and!; [done| |done]. by constructor.
Qed.

(** A class name made of digits is a line number, which [parseInt] reads
    exactly below 2^53, and the method name is not looked at. What is
    selected is the first suite, among those of the classes of [file] in the
    order of registration, whose lines enclose the line, with the first of
    its tests, in the order of the suite, whose lines do, when there is one;
    when no suite of the file encloses the line, every suite of the file is
    selected, and none of another file. *)
Theorem line_selects_enclosing registry file n method :
  numeric n = true →
  (parseInt n < 2 ^ 53)%Z →
  let line := parseInt n in
  let clses := snd <$> filter (λ entry, filename entry.1 = file) registry in
  getRunParams registry file (Some n) method = getRunParams registry file (Some n) None
  ∧ match getRunParams registry file (Some n) method with
    | Some (SuiteAndTest _ cls (Some meth)) =>
        first_enclosing SuiteConfig.lines line cls clses
        ∧ first_enclosing TestConfig.lines line meth (SuiteConfig.tests cls)
    | Some (OneSuite _ cls) =>
        first_enclosing SuiteConfig.lines line cls clses
        ∧ Forall (λ test, within line (TestConfig.lines test) = false) (SuiteConfig.tests cls)
    | Some (AllSuites _ suites) =>
        suites = clses
        ∧ Forall (λ cls, within line (SuiteConfig.lines cls) = false) clses
    | _ => False
    end.
Proof.
  intros Hn _ line clses. unfold RunnerExecute.getRunParams. rewrite Hn. split; [done|].
  simpl default. fold line.
  match goal with
  | |- context [List.find ?f ?l] => destruct (List.find f l) as [cls|] eqn:Hcls
  end.
  - apply find_first in Hcls.
    destruct (List.find _ (SuiteConfig.tests cls)) as [meth|] eqn:Hmeth.
    + apply find_first in Hmeth. done.
    + split; [done|]. apply Forall_forall. intros test Htest.
      apply list_elem_of_In in Htest. by apply (find_none _ _ Hmeth).
  - split; [done|]. apply Forall_forall. intros cls Hin.
    apply list_elem_of_In in Hin. by apply (find_none _ _ Hcls).
Qed.

(** With the name of a registered class and a method name that no test of
    its suite has, [execute] does not fail: it runs the whole suite, as it
    does without a method name. *)
Theorem unknown_method_runs_whole_suite file c m suite :
  numeric c = false →
  c ≠ "" →
  m ≠ "" →
  find_class W (require (resolve file)) (Some c) = Some suite →
  Forall (λ test, TestConfig.methodName test ≠ m) (SuiteConfig.tests suite) →
  execute file (Some c) (Some m) = Some (executeSuite suite;; mret ())
  ∧ execute file (Some c) (Some m) = execute file (Some c) None.
Proof.
  intros Hc Hc' Hm Hfind Hnone.
  apply String.eqb_neq in Hc', Hm.
  unfold RunnerExecute.execute, RunnerExecute.getRunParams, given, find_class in *.
  rewrite Hc, Hm, Hc', Hfind. simpl.
  destruct (List.find _ (SuiteConfig.tests suite)) as [test|] eqn:Htest; [|done].
  apply find_some in Htest as [Hin Heq]. apply list_elem_of_In in Hin.
  rewrite Forall_forall in Hnone. apply String.eqb_eq in Heq. by destruct (Hnone _ Hin).
Qed.

Lemma prefix_append (s t : string) : String.prefix s (s +:+ t) = true.
Proof.
  induction s as [|a s IH]; simpl; [by destruct t|]. by destruct (Ascii.ascii_dec a a).
Qed.

(** The path that [execute] loads starts with the working directory, and
    resolving twice changes nothing: [execute] does the same on a path
    relative to the working directory and on the path that it resolves to. *)
Theorem execute_resolves_once file clsName method :
  String.prefix cwd (resolve file) = true
  ∧ resolve (resolve file) = resolve file
  ∧ execute (resolve file) clsName method = execute file clsName method.
Proof.
  assert (String.prefix cwd (resolve file) = true) as Hprefix.
  { unfold RunnerExecute.resolve.
    destruct (String.prefix cwd file) eqn:Hfile; [done|apply prefix_append]. }
  assert (resolve (resolve file) = resolve file) as Hidem.
  { unfold RunnerExecute.resolve at 1. by rewrite Hprefix. }
  split_and!; [done..|]. unfold RunnerExecute.execute. by rewrite Hidem.
Qed.

End RunnerMore.

(** * Further properties of src/runner/execute/execute.ts *)
Section ExecuteMore.

Import ExecuteUtil ExecuteNotions.

Variable W : Type.
Variable invoke : string -> string -> option Z -> W -> Run W.
Variable readFilePosition : Js.Val -> string -> Position.

#[local] Existing Instances ExecuteUtil.M_ret ExecuteUtil.M_bind.

#[local] Abbreviation caught := (caught W).
#[local] Abbreviation settle := (settle W readFilePosition).
#[local] Abbreviation executeTest := (executeTest W invoke readFilePosition).
#[local] Abbreviation running := (running W invoke).
#[local] Abbreviation caught_in := (caught_in W invoke).

Lemma executeTest_skipped test st :
  TestConfig.skip test = true →
  ∃ ret,
    executeTest test st
    = (inl ret, mkState (world st) (log st ++ [TestBefore test]) (asserts st) (console st))
    ∧ TestResult.status ret = skip
    ∧ TestResult.error ret = None
    ∧ TestResult.methodName ret = TestConfig.methodName test.
Proof.
  intros Hskip. unfold ExecuteUtil.executeTest. rewrite (bind_run' W). simpl.
  rewrite Hskip. by eexists.
Qed.

(** A skipped test is not run: its method is not called and no capture
    scope is opened. The consumer is handed the [before] event of the test
    and no [after] event; the result has the status [skip] and no error. *)
Theorem skipped_test_is_not_run test st :
  TestConfig.skip test = true →
  ∃ ret,
    executeTest test st
    = (inl ret, mkState (world st) (log st ++ [TestBefore test]) (asserts st) (console st))
    ∧ TestResult.status ret = skip
    ∧ TestResult.error ret = None
    ∧ TestResult.methodName ret = TestConfig.methodName test.
Proof. apply executeTest_skipped. Qed.

(** Without an expectation, that is when [shouldThrow] is absent, [false]
    or the empty string, a test passes when its method returns or throws a
    falsy value, and fails with the very value that its method threw
    otherwise. *)
Theorem without_expectation_error_is_reported test st :
  TestConfig.skip test = false →
  truthy (TestConfig.shouldThrow test) = false →
  ∃ ret st',
    executeTest test st = (inl ret, st')
    ∧ match outcome (running test st) with
      | Returned => TestResult.status ret = success ∧ TestResult.error ret = None
      | Threw v =>
          if Js.truthy v
          then TestResult.status ret = fail ∧ TestResult.error ret = Some v
          else TestResult.status ret = success ∧ TestResult.error ret = None
      | TimedOut => TestResult.status ret = fail
      end.
Proof.
  intros Hskip Hnone.
  destruct (executeTest_settled W invoke readFilePosition test st
              match outcome (running test st) with
              | Returned => Js.VUndef
              | Threw v => v
              | TimedOut =>
                  Js.VErr (Js.new_Error "ExecuteUtil.executeTest" "Operation timed out")
              end Hskip) as (ret & st' & Hrun & Hret).
  { unfold ExecuteUtil.caught. rewrite Hnone. by destruct (outcome _). }
  exists ret, st'. split; [done|].
  destruct (outcome (running test st)) as [|v|]; simpl in Hret.
  - by destruct Hret as (? & ? & _).
  - destruct (Js.truthy v); by destruct Hret as (? & ? & _).
  - by destruct Hret as (? & _).
Qed.

(** A test that expects an error, by a text, a pattern or a class, and whose
    method returns fails: the error of the result says what was expected,
    [but got nothing]. *)
Theorem expectation_unmet_by_return test st msg :
  TestConfig.skip test = false →
  outcome (running test st) = Returned →
  (∃ s, TestConfig.shouldThrow test = Text s ∧ s ≠ ""
        ∧ msg = "Expected error containing text '" +:+ s +:+ "', but got nothing")
  ∨ (∃ r, TestConfig.shouldThrow test = Pattern r
          ∧ msg = "Expected error with message matching '" +:+ source r
                    +:+ "', but got nothing")
  ∨ (∃ n, TestConfig.shouldThrow test = Class n
          ∧ msg = "Expected to throw " +:+ n +:+ ", but got nothing") →
  ∃ ret st',
    executeTest test st = (inl ret, st')
    ∧ TestResult.status ret = fail
    ∧ TestResult.error ret = Some (Js.VErr (new_Error msg)).
Proof.
  intros Hskip Hout Hexpects.
  destruct (executeTest_settled W invoke readFilePosition test st
              (Js.VErr (new_Error msg)) Hskip) as (ret & st' & Hrun & Hret).
  { unfold ExecuteUtil.caught, checkError. rewrite Hout.
    destruct Hexpects as [(s & -> & Hs & ->)|[(r & -> & ->)|(n & -> & ->)]]; simpl; [|done..].
    apply String.eqb_neq in Hs. by rewrite Hs. }
  exists ret, st'. by destruct Hret as (? & ? & _).
Qed.

(** A test that expects an error of a class passes when its method throws
    an instance of the class, and fails otherwise with an error that names
    the class and what was thrown. *)
Theorem class_expectation test st n v :
  TestConfig.skip test = false →
  TestConfig.shouldThrow test = Class n →
  outcome (running test st) = Threw v →
  Js.truthy v = true →
  ∃ ret st',
    executeTest test st = (inl ret, st')
    ∧ if Js.instanceof v n
      then TestResult.status ret = success ∧ TestResult.error ret = None
      else TestResult.status ret = fail
           ∧ TestResult.error ret
             = Some (Js.VErr (new_Error ("Expected to throw " +:+ n +:+ ", but got "
                                           +:+ Js.toString v))).
Proof.
  intros Hskip Hst Hout Hv. destruct (Js.instanceof v n) eqn:Hinst.
  - destruct (executeTest_settled W invoke readFilePosition test st Js.VUndef Hskip)
      as (ret & st' & Hrun & Hret).
    { unfold ExecuteUtil.caught, checkError. by rewrite Hout, Hst, Hv, Hinst. }
    exists ret, st'. by destruct Hret as (? & ? & _).
  - destruct (executeTest_settled W invoke readFilePosition test st
                (Js.VErr (new_Error ("Expected to throw " +:+ n +:+ ", but got "
                                       +:+ Js.toString v))) Hskip)
      as (ret & st' & Hrun & Hret).
    { unfold ExecuteUtil.caught, checkError. by rewrite Hout, Hst, Hv, Hinst. }
    exists ret, st'. by destruct Hret as (? & ? & _).
Qed.

(** A test that expects an error matching a pattern passes when the pattern
    matches the message of the [Error] that its method throws, or the string
    that it throws, and fails otherwise with an error that gives the source
    of the pattern. *)
Theorem pattern_expectation test st r v :
  TestConfig.skip test = false →
  TestConfig.shouldThrow test = Pattern r →
  outcome (running test st) = Threw v →
  Js.truthy v = true →
  let text := match v with Js.VErr e => Js.message e | _ => Js.toString v end in
  ∃ ret st',
    executeTest test st = (inl ret, st')
    ∧ if regexp_test r text
      then TestResult.status ret = success ∧ TestResult.error ret = None
      else TestResult.status ret = fail
           ∧ TestResult.error ret
             = Some (Js.VErr (new_Error ("Expected error with message matching '"
                                           +:+ source r +:+ "', but got '" +:+ text +:+ "'"))).
Proof.
  intros Hskip Hst Hout Hv text. destruct (regexp_test r text) eqn:Hmatch.
  - destruct (executeTest_settled W invoke readFilePosition test st Js.VUndef Hskip)
      as (ret & st' & Hrun & Hret).
    { unfold ExecuteUtil.caught, checkError. rewrite Hout, Hst, Hv. fold text.
      by rewrite Hmatch. }
    exists ret, st'. by destruct Hret as (? & ? & _).
  - destruct (executeTest_settled W invoke readFilePosition test st
                (Js.VErr (new_Error ("Expected error with message matching '"
                                       +:+ source r +:+ "', but got '" +:+ text +:+ "'")))
                Hskip) as (ret & st' & Hrun & Hret).
    { unfold ExecuteUtil.caught, checkError. rewrite Hout, Hst, Hv. fold text.
      rewrite Hmatch. simpl. by destruct v. }
    exists ret, st'. by destruct Hret as (? & ? & _).
Qed.

(** With a predicate as [shouldThrow], what the predicate returns for the
    thrown value, [undefined] when the method returned, is the error of the
    test: the test passes when it is falsy, and fails with it otherwise. *)
Theorem predicate_result_is_the_error test st p :
  TestConfig.skip test = false →
  TestConfig.shouldThrow test = Predicate p →
  outcome (running test st) ≠ TimedOut →
  let thrown := match outcome (running test st) with Threw v => v | _ => Js.VUndef end in
  ∃ ret st',
    executeTest test st = (inl ret, st')
    ∧ if Js.truthy (p thrown)
      then TestResult.status ret = fail ∧ TestResult.error ret = Some (p thrown)
      else TestResult.status ret = success ∧ TestResult.error ret = None.
Proof.
  intros Hskip Hst Hout thrown.
  destruct (executeTest_settled W invoke readFilePosition test st (p thrown) Hskip)
    as (ret & st' & Hrun & Hret).
  { unfold ExecuteUtil.caught, checkError. rewrite Hst. subst thrown.
    by destruct (outcome (running test st)). }
  exists ret, st'. split; [done|].
  destruct (Js.truthy (p thrown)); by destruct Hret as (? & ? & _).
Qed.

(** When [executeTest] returns the result of a test that is not skipped, the
    consumer has been handed the [before] event of the test, then every
    assertion of the result, in order and with the one that stands for an
    uncaught error, then the [after] event with the result. The output of
    the result is what the method printed, and the two capture scopes are
    closed. *)
Theorem assertions_reported_in_order test st ret st' :
  TestConfig.skip test = false →
  executeTest test st = (inl ret, st') →
  log st'
  = log st ++ [TestBefore test] ++ (AssertionAfter <$> TestResult.assertions ret)
      ++ [TestAfter ret]
  ∧ TestResult.output ret = printed (running test st)
  ∧ world st' = after (running test st)
  ∧ asserts st' = [] ∧ console st' = ∅.
Proof.
  intros Hskip Hrun.
  rewrite (executeTest_unfold W invoke readFilePosition test st Hskip) in Hrun.
  unfold ExecuteUtil.catch in Hrun. rewrite (bind_run' W) in Hrun.
  destruct (caught_state W test (outcome (running test st)) (caught_in test st))
    as [[err|e'] Hcaught]; rewrite Hcaught in Hrun; [|done].
  destruct (settle_spec W readFilePosition test err (caught_in test st))
    as (p & st1 & Hsettle & Hworld & Hconsole & Hsettled).
  rewrite Hsettle in Hrun. injection Hrun as <- <-. simpl.
  rewrite Hworld, Hconsole. split_and!; try done.
  assert (log st1 = log st ++ [TestBefore test] ++ (AssertionAfter <$> asserts st1))
    as Hlog.
  { destruct (Js.truthy err); [destruct (Js.instanceof err "AssertionError")|].
    - by destruct Hsettled as (_ & _ & -> & ->).
    - destruct Hsettled as (_ & _ & a & -> & -> & _). simpl.
      by rewrite fmap_app, <- !app_assoc.
    - by destruct Hsettled as (_ & _ & -> & ->). }
  rewrite Hlog. by rewrite <- !app_assoc.
Qed.

End ExecuteMore.

(** * Properties of [isTest] and [getTests] *)
Section DiscoveryFacts.

Import Discovery.

Variable read : string -> list ReaderEvent.

Lemma settled_stays events value : foldl listen (Some value) events = Some value.
Proof.
  induction events as [|ev events IH]; simpl; [done|].
  destruct ev as [line| |]; simpl; [destruct (Js.includes line "@Suite")|..]; done.
Qed.

Lemma isTest_cons ev events :
  isTest (ev :: events)
  = match ev with
    | Line line => if Js.includes line "@Suite" then Some true else isTest events
    | End | Close => Some false
    end.
Proof.
  unfold isTest. simpl. destruct ev as [line| |]; simpl; [|apply settled_stays..].
  destruct (Js.includes line "@Suite"); [apply settled_stays|done].
Qed.

(** [isTest] answers [true] exactly when a line that contains [@Suite]
    arrives before any [end] or [close] event, whatever the reader emits
    afterwards; it never answers when the reader emits only lines without
    [@Suite]. *)
Theorem isTest_first_decisive_event events :
  (isTest events = Some true
   ↔ ∃ before line rest,
       events = (Line <$> before) ++ Line line :: rest
       ∧ Forall (λ l, Js.includes l "@Suite" = false) before
       ∧ Js.includes line "@Suite" = true)
  ∧ (isTest events = None
     ↔ ∃ lines, events = Line <$> lines
                ∧ Forall (λ l, Js.includes l "@Suite" = false) lines).
Proof.
  induction events as [|ev events [IHtrue IHnone]].
  - split; split.
    + done.
    + intros (before & line & rest & Hev & _). by destruct before.
    + intros _. by exists [].
    + done.
  - rewrite isTest_cons. destruct ev as [l| |].
    + destruct (Js.includes l "@Suite") eqn:Hl; split; split.
      * intros _. by exists [], l, events.
      * done.
      * done.
      * intros ([|l' lines] & Hev & Hlines); [done|]. injection Hev as -> _.
        apply Forall_cons in Hlines as [Hl' _]. congruence.
      * intros (before & line & rest & -> & Hbefore & Hline)%IHtrue.
        exists (l :: before), line, rest. split_and!; [done| |done]. by constructor.
      * intros ([|l' before] & line & rest & Hev & Hbefore & Hline).
        { injection Hev as -> _. congruence. }
        injection Hev as -> ->. apply Forall_cons in Hbefore as [_ Hbefore].
        apply IHtrue. by exists before, line, rest.
      * intros (lines & -> & Hlines)%IHnone. exists (l :: lines). split; [done|].
        by constructor.
      * intros ([|l' lines] & Hev & Hlines); [done|]. injection Hev as -> ->.
        apply Forall_cons in Hlines as [_ Hlines]. apply IHnone. by exists lines.
    + split; split; try done.
      * intros ([|l' before] & line & rest & Hev & _); done.
      * intros ([|l' lines] & Hev & _); done.
    + split; split; try done.
      * intros ([|l' before] & line & rest & Hev & _); done.
      * intros ([|l' lines] & Hev & _); done.
Qed.

Lemma valid_files (all : list (string * bool)) (files : list string) :
  Forall2 (λ f x, (λ valid, (f, valid)) <$> isTest (read f) = Some x) files all →
  (filter (λ x, x.2 = true) all).*1 = filter (λ f, isTest (read f) = Some true) files.
Proof.
  induction 1 as [|f [f' valid] files all Hf _ IH]; [done|].
  destruct (isTest (read f)) as [b|] eqn:Hb; [|done]. injection Hf as <- <-.
  rewrite !filter_cons. simpl. rewrite Hb.
  destruct b; simpl; [f_equal|]; exact IH.
Qed.

(** [getTests] answers once [isTest] has answered for every file found,
    and not before; its answer is the files for which [isTest] answered
    [true], in the order in which they were found. *)
Theorem getTests_keeps_suites_in_order files tests :
  getTests read files = Some tests
  ↔ Forall (λ f, is_Some (isTest (read f))) files
    ∧ tests = filter (λ f, isTest (read f) = Some true) files.
Proof.
  unfold getTests. split.
  - intros Hget. apply bind_Some in Hget as (all & Hall & Htests).
    injection Htests as <-. apply mapM_Some in Hall. split; [|by apply valid_files].
    apply Forall_forall. intros f Hf.
    apply list_elem_of_lookup_1 in Hf as [i Hi].
    destruct (Forall2_lookup_l _ _ _ _ _ Hall Hi) as (x & _ & Hx).
    by destruct (isTest (read f)).
  - intros [Hsettled ->].
    assert (∃ all, mapM (λ f, (λ valid, (f, valid)) <$> isTest (read f)) files = Some all)
      as [all Hall].
    { apply mapM_is_Some. apply Forall_forall. intros f Hf.
      rewrite Forall_forall in Hsettled. destruct (Hsettled f Hf) as [b Hb].
      unfold compose. rewrite Hb. by eexists. }
    rewrite Hall. simpl. apply mapM_Some in Hall. f_equal. by apply valid_files.
Qed.

End DiscoveryFacts.

(** * Properties of [getTests] of src/runner/execute/execute.ts *)
Section FilteredDiscoveryFacts.

Import Discovery FilteredDiscovery.

Variable read : string -> list ReaderEvent.

(** Every file that [getTests] answers was found, is not a directory, has
    no [node_modules] in its path, and is one for which [isTest] answered
    [true]. *)
Theorem getTests_skips_directories_and_modules found tests :
  getTests read found = Some tests →
  Forall (λ f, Js.includes f "node_modules" = false
               ∧ isTest (read f) = Some true
               ∧ ∃ x, x ∈ found ∧ file x = f ∧ isDirectory x = false) tests.
Proof.
  unfold getTests. intros Hget. apply bind_Some in Hget as (all & Hall & Htests).
  injection Htests as <-. apply mapM_Some in Hall.
  apply Forall_forall. intros f Hf.
  apply list_elem_of_fmap in Hf as ([f' valid] & -> & Hin).
  apply list_elem_of_filter in Hin as [Hvalid Hin]. simpl in Hvalid. subst valid.
  apply list_elem_of_lookup_1 in Hin as [i Hi].
  destruct (Forall2_lookup_r _ _ _ _ _ Hall Hi) as (o & Ho & Heq). simpl in Heq. subst o.
  apply list_lookup_fmap_Some in Ho as (x & Hvalid & Hx). symmetry in Hvalid.
  apply list_elem_of_lookup_2 in Hx.
  apply list_elem_of_filter in Hx as [Hmodules Hx].
  apply list_elem_of_filter in Hx as [Hdir Hx].
  destruct (isTest (read (file x))) as [b|] eqn:Hb; [|done].
  injection Hvalid as <- ->. simpl. split_and!.
  - by apply negb_true_iff.
  - done.
  - exists x. split_and!; [done..|]. by apply negb_true_iff.
Qed.

End FilteredDiscoveryFacts.

(** * Properties of the class [TestUtil] of src/runner/execute.ts *)
Section TestUtilFacts.

Import TestUtil TestUtilNotions.

Variable W : Type.
Variable invoke : string -> string -> W -> Run W.
Variable TypeError : string -> Js.Error.
Variable load : string -> list SuiteConfig.t.

#[local] Existing Instances TestUtil.M_ret TestUtil.M_bind.

#[local] Abbreviation checkError := (checkError TypeError).
#[local] Abbreviation executeTest := (executeTest W invoke TypeError).
#[local] Abbreviation run_tests := (run_tests W invoke TypeError).
#[local] Abbreviation executeSuite := (executeSuite W invoke TypeError).
#[local] Abbreviation run_classes := (run_classes W invoke TypeError).
#[local] Abbreviation executeFile := (executeFile W invoke TypeError load).

(** The timer of [TestUtil.executeTest] rejects with no value, so that
    [err] is [undefined] when a test loses the race. Such a test is not a
    failure: without [shouldError], it is reported as [passed]. With the
    name of a type or a pattern, [checkError] reads a property of
    [undefined], and the [TypeError] of the runtime leaves [executeTest].
    With a function, the function is called on [undefined]: the test is
    reported as [passed] whatever the function returns, and what the
    function throws leaves [executeTest]. *)
Theorem bare_timeout_is_not_a_failure test st :
  TestConfig.skip test = false →
  outcome (invoke (TestConfig.class test) (TestConfig.method test) (world st)) = TimedOut →
  let passes :=
    ∃ ret st', executeTest test st = (inl ret, st')
               ∧ TestResult.status ret = passed ∧ TestResult.error ret = None in
  let throws thrown := ∃ st', executeTest test st = (inr thrown, st') in
  match TestConfig.shouldError test with
  | Absent => passes
  | TypeName n =>
      if String.eqb n "" then passes else throws (Js.VErr (TypeError "constructor"))
  | Pattern _ => throws (Js.VErr (TypeError "message"))
  | Predicate p =>
      match p Js.VUndef with
      | inl _ => passes
      | inr thrown => throws thrown
      end
  end.
Proof.
  intros Hskip Hout passes throws. subst passes throws.
  unfold TestUtil.executeTest, TestUtil.checkError.
  rewrite Hskip, Hout.
  destruct (TestConfig.shouldError test) as [|n|r|p]; simpl.
  - by eexists _, _.
  - destruct (String.eqb n ""); simpl; by eexists _, _ || by eexists.
  - by eexists.
  - destruct (p Js.VUndef) as [[|]|thrown]; simpl; by eexists _, _ || by eexists.
Qed.

Lemma executeTest_log test st : log (executeTest test st).2 = log st.
Proof.
  unfold TestUtil.executeTest. destruct (TestConfig.skip test); [done|].
  destruct (outcome _) as [|v|]; [done|..].
  all: destruct (checkError test _) as [err|e]; [destruct (Js.truthy err)|]; done.
Qed.

Lemma tally_count_cons s ret (rets : list TestResult.t) :
  count_status s (ret :: rets)
  = match TestResult.status ret, s with
    | passed, passed | failed, failed | skipped, skipped => 1
    | _, _ => 0
    end + count_status s rets.
Proof. done. Qed.

Lemma tally_counts rets :
  ∀ r,
    SuiteResult.passed (foldl tally r rets)
    = SuiteResult.passed r + count_status passed rets
    ∧ SuiteResult.failed (foldl tally r rets)
      = SuiteResult.failed r + count_status failed rets
    ∧ SuiteResult.skipped (foldl tally r rets)
      = SuiteResult.skipped r + count_status skipped rets
    ∧ SuiteResult.total (foldl tally r rets)
      = SuiteResult.total r + count_status passed rets + count_status failed rets
    ∧ SuiteResult.tests (foldl tally r rets) = SuiteResult.tests r ++ rets.
Proof.
  induction rets as [|ret rets IH]; intros r.
  - unfold count_status. simpl. rewrite app_nil_r. split_and!; done || lia.
  - rewrite !tally_count_cons. simpl.
    destruct (IH (tally r ret)) as (-> & -> & -> & -> & ->).
    destruct r as [p f s t file cls name tests]. unfold tally.
    destruct (TestResult.status ret); simpl; rewrite <- app_assoc; split_and!; done || lia.
Qed.

Lemma testutil_run_tests_spec emitter tests :
  ∀ result st r st',
    run_tests emitter tests result st = (inl r, st') →
    ∃ rets, length rets = length tests
            ∧ r = foldl tally result rets
            ∧ log st' = log st ++ if emitter then test_events tests rets else [].
Proof.
  induction tests as [|test rest IH]; intros result st r st' Hrun; simpl in Hrun.
  - injection Hrun as <- <-. exists []. split_and!; [done..|].
    destruct emitter; by rewrite app_nil_r.
  - unfold mbind, TestUtil.M_bind in Hrun. simpl in Hrun.
    match type of Hrun with
    | context [executeTest test ?st0] =>
        pose proof (executeTest_log test st0) as Hlog;
        destruct (executeTest test st0) as [[ret|e] st1]; [|done]
    end.
    simpl in Hlog. apply IH in Hrun as (rets & Hlen & -> & Hlog').
    exists (ret :: rets). split_and!; [simpl; lia|done|].
    rewrite Hlog'. destruct emitter; simpl.
    + rewrite Hlog. unfold test_events. simpl. by rewrite <- !app_assoc.
    + by rewrite Hlog.
Qed.

Lemma testutil_executeSuite_spec suite emitter st r st' :
  executeSuite suite emitter st = (inl r, st') →
  length (SuiteResult.tests r) = length (SuiteConfig.tests suite)
  ∧ SuiteResult.passed r = count_status passed (SuiteResult.tests r)
  ∧ SuiteResult.failed r = count_status failed (SuiteResult.tests r)
  ∧ SuiteResult.skipped r = count_status skipped (SuiteResult.tests r)
  ∧ SuiteResult.total r = SuiteResult.passed r + SuiteResult.failed r
  ∧ log st'
    = log st ++ if emitter
                then test_events (SuiteConfig.tests suite) (SuiteResult.tests r)
                else [].
Proof.
  unfold TestUtil.executeSuite. intros Hrun.
  apply testutil_run_tests_spec in Hrun as (rets & Hlen & -> & Hlog).
  match goal with
  | |- context [foldl tally ?r0 rets] =>
      destruct (tally_counts rets r0) as (Hp & Hf & Hs & Ht & Htests)
  end.
  simpl in *. rewrite Hp, Hf, Hs, Ht, Htests. by split_and!.
Qed.

(** When [executeSuite] returns, every test of the suite has a result, in
    the order of the tests; [passed], [failed] and [skipped] are the numbers
    of results of each status, and [total] counts the passed and the failed
    ones. With an emitter, the emitter was handed the [before] event of each
    test and then the [after] event with its result, in turn; without one,
    nothing is emitted. *)
Theorem testutil_suite_counts suite emitter st r st' :
  executeSuite suite emitter st = (inl r, st') →
  length (SuiteResult.tests r) = length (SuiteConfig.tests suite)
  ∧ SuiteResult.passed r = count_status passed (SuiteResult.tests r)
  ∧ SuiteResult.failed r = count_status failed (SuiteResult.tests r)
  ∧ SuiteResult.skipped r = count_status skipped (SuiteResult.tests r)
  ∧ SuiteResult.total r = SuiteResult.passed r + SuiteResult.failed r
  ∧ log st'
    = log st ++ if emitter
                then test_events (SuiteConfig.tests suite) (SuiteResult.tests r)
                else [].
Proof. apply testutil_executeSuite_spec. Qed.



End TestUtilFacts.

(** * The further properties at work on the demonstrations *)

(** Five files on three processors: four steps into the loop, two children
    are in flight. *)
Lemma pending_within_bound_witness :
  let files := ["a.ts"; "bad.ts"; "c.ts"; "d.ts"; "e.ts"] in
  let st := Executor.mkLoop 0 [] Executor.BASE_SUITES in
  ∃ st',
    Executor.loop_after unit ExecutorDemo.invoke ExecutorDemo.load () ExecutorDemo.crash
      2 files ExecutorDemo.last_settles 4 st = Some st'
    ∧ (Z.of_nat (length (Executor.pending st')) ≤ Z.max 0 2)%Z.
Proof.
  intros files st. eexists. split; [vm_compute; reflexivity|].
  apply (pending_within_bound unit ExecutorDemo.invoke ExecutorDemo.load ()
           ExecutorDemo.crash 2 files ExecutorDemo.last_settles 4 st);
    [vm_compute; reflexivity | simpl; lia].
Defined.

(** Three files on three processors, none of whose children crashes. *)
Lemma dispatch_aggregate_witness :
  let files := ["a.ts"; "bad.ts"; "c.ts"] in
  2 ≤ 3 ∧ length files ≠ 1
  ∧ ∃ r,
      ExecutorDemo.exec (2 * length files + 1) 3 false ExecutorDemo.last_settles files
      = Some (Executor.Return r)
      ∧ Executor.counters r
        = (sum_list (Executor.SuitesResult.passed ∘ ExecutorDemo.isolated <$> files),
           sum_list (Executor.SuitesResult.failed ∘ ExecutorDemo.isolated <$> files),
           sum_list (Executor.SuitesResult.skipped ∘ ExecutorDemo.isolated <$> files),
           sum_list (Executor.SuitesResult.total ∘ ExecutorDemo.isolated <$> files))
      ∧ Executor.SuitesResult.suites r
        ≡ₚ mjoin (Executor.SuitesResult.suites ∘ ExecutorDemo.isolated <$> files).
Proof.
  intros files. split_and!; [lia | simpl; lia |].
  apply (dispatch_aggregate unit ExecutorDemo.invoke ExecutorDemo.load ()
           ExecutorDemo.crash 3 false ExecutorDemo.last_settles files);
    [lia | simpl; lia | reflexivity].
Defined.

(** The aggregate that the dispatch of three files returns. *)
Lemma exec_aggregate_consistent_witness :
  let files := ["a.ts"; "bad.ts"; "c.ts"] in
  ∃ r,
    ExecutorDemo.exec 7 3 false ExecutorDemo.first_settles files = Some (Executor.Return r)
    ∧ ExecutorInvariants.consistent r.
Proof.
  intros files. eexists. split; [vm_compute; reflexivity|].
  apply (exec_aggregate_consistent unit ExecutorDemo.invoke ExecutorDemo.load ()
           ExecutorDemo.crash 7 3 false ExecutorDemo.first_settles files 0%Z).
  left. vm_compute; reflexivity.
Defined.

(** Three files, the second of which makes its child crash. *)
Lemma crashed_child_rejects_witness :
  let files := ["a.ts"; "bad.ts"; "c.ts"] in
  2 ≤ 3 ∧ length files ≠ 1
  ∧ ExecutorInvariants.crashes ExecutorCrashDemo.crash files = ["bad.ts: out of memory"]
  ∧ ∃ stderr,
      ExecutorCrashDemo.exec (2 * length files + 1) 3 false ExecutorDemo.first_settles files
      = Some (Executor.Throw stderr)
      ∧ stderr ∈ ExecutorInvariants.crashes ExecutorCrashDemo.crash files.
Proof.
  intros files. split_and!; [lia | simpl; lia | reflexivity |].
  apply (crashed_child_rejects unit ExecutorDemo.invoke ExecutorDemo.load ()
           ExecutorCrashDemo.crash 3 false ExecutorDemo.first_settles files);
    [lia | simpl; lia | vm_compute; discriminate].
Defined.

(** The method of [RunnerDemo] that throws. *)
Lemma test_events_in_order_witness :
  let test := RunnerDemo.test_ "throws" false in
  let st := RunnerDemo.initial in
  let run := RunnerMoreNotions.running nat RunnerDemo.invoke 5000 test st in
  ∃ ret st',
    RunnerExecute.executeTest nat RunnerDemo.invoke RunnerDemo.readFilePosition 5000
      RunnerDemo.TypeError test st
    = (inl ret, st')
    ∧ RunnerMoreNotions.events (RunnerExecute.log st')
      = RunnerMoreNotions.events (RunnerExecute.log st) ++ [RunnerExecute.TestBefore test]
          ++ (RunnerExecute.AssertionAfter <$> RunnerExecute.asserted run)
          ++ [RunnerExecute.TestAfter ret]
    ∧ RunnerExecute.world st' = RunnerExecute.after run
    ∧ RunnerExecute.heap st' = RunnerExecute.heap st
    ∧ ∃ uncaught,
        RunnerExecute.TestResult.assertions ret = RunnerExecute.asserted run ++ uncaught
        ∧ length uncaught ≤ 1.
Proof.
  intros test st run. eexists _, _. split; [vm_compute; reflexivity|].
  apply (test_events_in_order nat RunnerDemo.invoke RunnerDemo.readFilePosition 5000
      RunnerDemo.TypeError test st);
    [reflexivity | vm_compute; reflexivity].
Defined.

(** The method of [RunnerDemo] that returns, with an expectation that
    nothing meets. *)
Lemma returning_test_passes_witness :
  let test := RunnerSelectDemo.expecting "passes" "RangeError" in
  let st := RunnerDemo.initial in
  ∃ ret st',
    RunnerExecute.executeTest nat RunnerDemo.invoke RunnerDemo.readFilePosition 5000
      RunnerDemo.TypeError test st
    = (inl ret, st')
    ∧ RunnerExecute.TestResult.status ret = RunnerExecute.success
    ∧ RunnerExecute.TestResult.error ret = None
    ∧ RunnerExecute.TestResult.assertions ret
      = RunnerExecute.asserted (RunnerMoreNotions.running nat RunnerDemo.invoke 5000 test st).
Proof.
  intros test st.
  apply (returning_test_passes nat RunnerDemo.invoke RunnerDemo.readFilePosition 5000
      RunnerDemo.TypeError test st);
    reflexivity.
Defined.

(** The method that throws an [Error], when a [RangeError] is expected. *)
Lemma expected_error_type_witness :
  let test := RunnerSelectDemo.expecting "throws" "RangeError" in
  let st := RunnerDemo.initial in
  ∃ ret st',
    RunnerExecute.executeTest nat RunnerDemo.invoke RunnerDemo.readFilePosition 5000
      RunnerDemo.TypeError test st
    = (inl ret, st')
    ∧ RunnerExecute.TestResult.status ret = RunnerExecute.fail
    ∧ RunnerExecute.TestResult.error ret
      = Some (Js.VErr (Js.new_Error "ExecuteUtil.checkError"
                         "Expected error to be of type RangeError")).
Proof.
  intros test st.
  apply (expected_error_type nat RunnerDemo.invoke RunnerDemo.readFilePosition 5000
      RunnerDemo.TypeError test st
           "RangeError" (Js.VErr RunnerDemo.boom) "Error");
    [reflexivity | reflexivity | discriminate | reflexivity | reflexivity].
Defined.

(** The method that never settles. *)
Lemma executeTest_timed_out_witness :
  let test := RunnerSelectDemo.expecting "hangs" "Error" in
  let st := RunnerDemo.initial in
  ∃ ret st',
    RunnerExecute.executeTest nat RunnerDemo.invoke RunnerDemo.readFilePosition 5000
      RunnerDemo.TypeError test st
    = (inl ret, st')
    ∧ RunnerExecute.TestResult.status ret = RunnerExecute.fail
    ∧ RunnerExecute.TestResult.error ret
      = Some (Js.VErr (Js.new_Error "ExecuteUtil.executeTest" "Operation timed out")).
Proof.
  intros test st.
  apply (executeTest_timed_out nat RunnerDemo.invoke RunnerDemo.readFilePosition 5000
      RunnerDemo.TypeError test st);
    reflexivity.
Defined.

(** Line 12 of [/repo/n.ts] is in both classes of the file and in two
    tests of the first one: the first class and its first enclosing test are
    selected. *)
Lemma line_selects_enclosing_witness :
  let registry := RunnerSelectDemo.overlapping in
  let clses := snd <$> filter (λ entry, RunnerExecute.filename entry.1 = "/repo/n.ts")
                         registry in
  RunnerExecute.getRunParams nat registry "/repo/n.ts" (Some "12") (Some "second")
  = Some (RunnerExecute.SuiteAndTest nat RunnerSelectDemo.outer
            (Some (RunnerSelectDemo.test_ "Outer" "/repo/n.ts" "first" 5 15)))
  ∧ RunnerExecute.within 12 (RunnerExecute.SuiteConfig.lines RunnerSelectDemo.inner) = true
  ∧ RunnerMoreNotions.first_enclosing RunnerExecute.SuiteConfig.lines 12
      RunnerSelectDemo.outer clses
  ∧ RunnerMoreNotions.first_enclosing RunnerExecute.TestConfig.lines 12
      (RunnerSelectDemo.test_ "Outer" "/repo/n.ts" "first" 5 15)
      (RunnerExecute.SuiteConfig.tests RunnerSelectDemo.outer).
Proof.
  intros registry clses. split; [vm_compute; reflexivity|]. split; [reflexivity|].
  refine (proj2 (line_selects_enclosing nat registry "/repo/n.ts" "12" (Some "second")
                   _ _)); vm_compute; reflexivity.
Defined.

(** The class [A] has no test named [three]. *)
Lemma unknown_method_runs_whole_suite_witness :
  let execute :=
    RunnerExecute.execute nat RunnerDemo.invoke RunnerDemo.readFilePosition 5000
      RunnerDemo.TypeError RunnerSelectDemo.cwd RunnerSelectDemo.require in
  execute "a.ts" (Some "A") (Some "three") = execute "a.ts" (Some "A") None.
Proof.
  intros execute.
  refine (proj2 (unknown_method_runs_whole_suite nat RunnerDemo.invoke
                   RunnerDemo.readFilePosition 5000 RunnerDemo.TypeError
                   RunnerSelectDemo.cwd RunnerSelectDemo.require "a.ts" "A" "three"
                   RunnerSelectDemo.suiteA _ _ _ _ _));
    [reflexivity | discriminate | discriminate | reflexivity |].
  repeat constructor; discriminate.
Defined.

(** A skipped test of [ExecuteDemo]. *)
Lemma skipped_test_is_not_run_witness :
  let test :=
    ExecuteUtil.TestConfig.mk "Suite" "Suite" "test.ts" (ExecuteUtil.mkLines 10 14)
      "throws" "throws" true ExecuteUtil.Unset None in
  let st := ExecuteDemo.initial in
  ∃ ret,
    ExecuteUtil.executeTest unit ExecuteDemo.invoke ExecuteDemo.readFilePosition test st
    = (inl ret,
       ExecuteUtil.mkState (ExecuteUtil.world st)
         (ExecuteUtil.log st ++ [ExecuteUtil.TestBefore test])
         (ExecuteUtil.asserts st) (ExecuteUtil.console st))
    ∧ ExecuteUtil.TestResult.status ret = ExecuteUtil.skip
    ∧ ExecuteUtil.TestResult.error ret = None
    ∧ ExecuteUtil.TestResult.methodName ret = ExecuteUtil.TestConfig.methodName test.
Proof.
  intros test st.
  apply (skipped_test_is_not_run unit ExecuteDemo.invoke ExecuteDemo.readFilePosition test st).
  reflexivity.
Defined.

(** The method that throws, with [shouldThrow = false]. *)
Lemma without_expectation_error_is_reported_witness :
  let test := ExecuteDemo.test_ "throws" (ExecuteUtil.Flag false) in
  let st := ExecuteDemo.initial in
  ∃ ret st',
    ExecuteUtil.executeTest unit ExecuteDemo.invoke ExecuteDemo.readFilePosition test st
    = (inl ret, st')
    ∧ ExecuteUtil.TestResult.status ret = ExecuteUtil.fail
    ∧ ExecuteUtil.TestResult.error ret = Some (Js.VErr ExecuteDemo.boom).
Proof.
  intros test st.
  apply (without_expectation_error_is_reported unit ExecuteDemo.invoke
           ExecuteDemo.readFilePosition test st); reflexivity.
Defined.

(** The method that returns, when an [Error] is expected. *)
Lemma expectation_unmet_by_return_witness :
  let test := ExecuteDemo.test_ "returns" (ExecuteUtil.Class "Error") in
  let st := ExecuteDemo.initial in
  ∃ ret st',
    ExecuteUtil.executeTest unit ExecuteDemo.invoke ExecuteDemo.readFilePosition test st
    = (inl ret, st')
    ∧ ExecuteUtil.TestResult.status ret = ExecuteUtil.fail
    ∧ ExecuteUtil.TestResult.error ret
      = Some (Js.VErr (ExecuteUtil.new_Error "Expected to throw Error, but got nothing")).
Proof.
  intros test st.
  apply (expectation_unmet_by_return unit ExecuteDemo.invoke ExecuteDemo.readFilePosition
           test st "Expected to throw Error, but got nothing");
    [reflexivity | reflexivity |].
  right. right. exists "Error". split; reflexivity.
Defined.

(** The method that throws an [Error], when a [TypeError] is expected. *)
Lemma class_expectation_witness :
  let test := ExecuteDemo.test_ "throws" (ExecuteUtil.Class "TypeError") in
  let st := ExecuteDemo.initial in
  Js.instanceof (Js.VErr ExecuteDemo.boom) "TypeError" = false
  ∧ ∃ ret st',
      ExecuteUtil.executeTest unit ExecuteDemo.invoke ExecuteDemo.readFilePosition test st
      = (inl ret, st')
      ∧ if Js.instanceof (Js.VErr ExecuteDemo.boom) "TypeError"
        then ExecuteUtil.TestResult.status ret = ExecuteUtil.success
             ∧ ExecuteUtil.TestResult.error ret = None
        else ExecuteUtil.TestResult.status ret = ExecuteUtil.fail
             ∧ ExecuteUtil.TestResult.error ret
               = Some (Js.VErr (ExecuteUtil.new_Error
                                  ("Expected to throw " +:+ "TypeError" +:+ ", but got "
                                     +:+ Js.toString (Js.VErr ExecuteDemo.boom)))).
Proof.
  intros test st. split; [reflexivity|].
  apply (class_expectation unit ExecuteDemo.invoke ExecuteDemo.readFilePosition test st
           "TypeError" (Js.VErr ExecuteDemo.boom)); reflexivity.
Defined.

(** The method that throws [boom], when a message with [oo] is expected. *)
Lemma pattern_expectation_witness :
  let r := ExecuteUtil.mkRegExp "oo" (λ s, Js.includes s "oo") in
  let test := ExecuteDemo.test_ "throws" (ExecuteUtil.Pattern r) in
  let st := ExecuteDemo.initial in
  ∃ ret st',
    ExecuteUtil.executeTest unit ExecuteDemo.invoke ExecuteDemo.readFilePosition test st
    = (inl ret, st')
    ∧ ExecuteUtil.TestResult.status ret = ExecuteUtil.success
    ∧ ExecuteUtil.TestResult.error ret = None.
Proof.
  intros r test st.
  apply (pattern_expectation unit ExecuteDemo.invoke ExecuteDemo.readFilePosition test st r
           (Js.VErr ExecuteDemo.boom)); reflexivity.
Defined.

(** A predicate that turns every error into the string [no]. *)
Lemma predicate_result_is_the_error_witness :
  let test := ExecuteDemo.test_ "throws" (ExecuteUtil.Predicate (λ _, Js.VStr "no")) in
  let st := ExecuteDemo.initial in
  ∃ ret st',
    ExecuteUtil.executeTest unit ExecuteDemo.invoke ExecuteDemo.readFilePosition test st
    = (inl ret, st')
    ∧ ExecuteUtil.TestResult.status ret = ExecuteUtil.fail
    ∧ ExecuteUtil.TestResult.error ret = Some (Js.VStr "no").
Proof.
  intros test st.
  apply (predicate_result_is_the_error unit ExecuteDemo.invoke ExecuteDemo.readFilePosition
           test st (λ _, Js.VStr "no")); [reflexivity | reflexivity | discriminate].
Defined.

(** The method that throws, without an expectation: the assertion that
    stands for the error is handed to the consumer before the result. *)
Lemma assertions_reported_in_order_witness :
  let test := ExecuteDemo.test_ "throws" ExecuteUtil.Unset in
  let st := ExecuteDemo.initial in
  ∃ ret st',
    ExecuteUtil.executeTest unit ExecuteDemo.invoke ExecuteDemo.readFilePosition test st
    = (inl ret, st')
    ∧ length (ExecuteUtil.TestResult.assertions ret) = 1
    ∧ ExecuteUtil.log st'
      = ExecuteUtil.log st ++ [ExecuteUtil.TestBefore test]
          ++ (ExecuteUtil.AssertionAfter <$> ExecuteUtil.TestResult.assertions ret)
          ++ [ExecuteUtil.TestAfter ret]
    ∧ ExecuteUtil.TestResult.output ret
      = ExecuteUtil.printed (ExecuteNotions.running unit ExecuteDemo.invoke test st)
    ∧ ExecuteUtil.world st'
      = ExecuteUtil.after (ExecuteNotions.running unit ExecuteDemo.invoke test st)
    ∧ ExecuteUtil.asserts st' = [] ∧ ExecuteUtil.console st' = ∅.
Proof.
  intros test st. eexists _, _. split; [vm_compute; reflexivity|].
  split; [reflexivity|].
  apply (assertions_reported_in_order unit ExecuteDemo.invoke ExecuteDemo.readFilePosition
           test st); [reflexivity | vm_compute; reflexivity].
Defined.

(** The method that throws, when an error is expected. *)
Lemma should_throw_true_accepts_any_error_witness :
  let test := ExecuteDemo.test_ "throws" (ExecuteUtil.Flag true) in
  let st := ExecuteDemo.initial in
  ∃ ret st',
    ExecuteUtil.executeTest unit ExecuteDemo.invoke ExecuteDemo.readFilePosition test st
    = (inl ret, st')
    ∧ ExecuteUtil.TestResult.status ret = ExecuteUtil.success
    ∧ ExecuteUtil.TestResult.error ret = None.
Proof.
  intros test st.
  apply (should_throw_true_accepts_any_error unit ExecuteDemo.invoke
           ExecuteDemo.readFilePosition test st (Js.VErr ExecuteDemo.boom)); reflexivity.
Defined.

(** The two files of [DiscoveryDemo]: only the first one is a test file,
    and what its reader emits once it is closed changes nothing. *)
Example discovery_demo :
  Discovery.isTest (DiscoveryDemo.read "a.ts") = Some true
  ∧ Discovery.isTest (DiscoveryDemo.read "b.ts") = Some false
  ∧ Discovery.isTest [Discovery.Line "import x"] = None
  ∧ Discovery.getTests DiscoveryDemo.read ["b.ts"; "a.ts"; "c.ts"] = Some ["a.ts"].
Proof. vm_compute. done. Qed.

(** Three paths found, under each of which a suite would be read: a
    directory, a file of a dependency and a file of the project. *)
Lemma getTests_skips_directories_and_modules_witness :
  let read := λ _ : string, [Discovery.Line "@Suite()"; Discovery.Close] in
  let found :=
    [ FilteredDiscovery.mkFound "test" true;
      FilteredDiscovery.mkFound "node_modules/x/test/a.ts" false;
      FilteredDiscovery.mkFound "test/a.ts" false ] in
  FilteredDiscovery.getTests read found = Some ["test/a.ts"]
  ∧ Forall (λ f, Js.includes f "node_modules" = false
                 ∧ Discovery.isTest (read f) = Some true
                 ∧ ∃ x, x ∈ found ∧ FilteredDiscovery.file x = f
                        ∧ FilteredDiscovery.isDirectory x = false) ["test/a.ts"].
Proof.
  intros read found. split; [vm_compute; reflexivity|].
  apply (getTests_skips_directories_and_modules read found ["test/a.ts"]).
  vm_compute; reflexivity.
Defined.

(** The method of [TestUtilDemo] that never settles is reported as
    passed. *)
Lemma bare_timeout_is_not_a_failure_witness :
  let test := TestUtilDemo.test_ "hangs" in
  let st := TestUtilDemo.initial in
  ∃ ret st',
    TestUtil.executeTest nat TestUtilDemo.invoke TestUtilDemo.TypeError test st = (inl ret, st')
    ∧ TestUtil.TestResult.status ret = TestUtil.passed
    ∧ TestUtil.TestResult.error ret = None.
Proof.
  intros test st.
  apply (bare_timeout_is_not_a_failure nat TestUtilDemo.invoke TestUtilDemo.TypeError test st); reflexivity.
Defined.

(** A [shouldError] function that reads the stack of its argument: on the
    test that never settles it is called on [undefined], and the
    [TypeError] of that read leaves [executeTest]. *)
Example bare_timeout_predicate_demo :
  let reads_stack v :=
    match v with
    | Js.VUndef => inr (Js.VErr (TestUtilDemo.TypeError "stack"))
    | _ => inl true
    end in
  let test :=
    TestUtil.TestConfig.mk "Suite" "hangs" "hangs" "suite" false
      (TestUtil.Predicate reads_stack) in
  (TestUtil.executeTest nat TestUtilDemo.invoke TestUtilDemo.TypeError test
     TestUtilDemo.initial).1
  = inr (Js.VErr (TestUtilDemo.TypeError "stack")).
Proof. reflexivity. Qed.

(** The suite of [TestUtilDemo], with an emitter. *)
Lemma testutil_suite_counts_witness :
  let suite := TestUtilDemo.suite in
  let st := TestUtilDemo.initial in
  ∃ r st',
    TestUtil.executeSuite nat TestUtilDemo.invoke TestUtilDemo.TypeError suite true st = (inl r, st')
    ∧ (TestUtil.SuiteResult.passed r, TestUtil.SuiteResult.failed r,
       TestUtil.SuiteResult.skipped r, TestUtil.SuiteResult.total r) = (2, 1, 0, 3)
    ∧ length (TestUtil.SuiteResult.tests r) = length (TestUtil.SuiteConfig.tests suite)
    ∧ TestUtil.SuiteResult.passed r
      = TestUtilNotions.count_status TestUtil.passed (TestUtil.SuiteResult.tests r)
    ∧ TestUtil.SuiteResult.failed r
      = TestUtilNotions.count_status TestUtil.failed (TestUtil.SuiteResult.tests r)
    ∧ TestUtil.SuiteResult.skipped r
      = TestUtilNotions.count_status TestUtil.skipped (TestUtil.SuiteResult.tests r)
    ∧ TestUtil.SuiteResult.total r
      = TestUtil.SuiteResult.passed r + TestUtil.SuiteResult.failed r
    ∧ TestUtil.log st'
      = TestUtil.log st
          ++ TestUtilNotions.test_events (TestUtil.SuiteConfig.tests suite)
               (TestUtil.SuiteResult.tests r).
Proof.
  intros suite st. eexists _, _. split; [vm_compute; reflexivity|].
  split; [reflexivity|].
  apply (testutil_suite_counts nat TestUtilDemo.invoke TestUtilDemo.TypeError suite true st).
  vm_compute; reflexivity.
Defined.

